(** * abra: the action-schema extractor of [src/cli/index.js]

    A shallow embedding of the command line tool that walks a TypeScript
    project, serialises the types of annotated functions into JSON schema
    values and writes [actions.json], followed by the properties of it
    that the specification states.

    The TypeScript compiler is an external collaborator.  Its objects
    ([ts.Type], [ts.Symbol], the type checker, the source files) appear
    here as records holding the answers the tool asks of them; a type is
    referred to by a handle and the type checker maps handles to type
    objects, so that cyclic type graphs can be written down. *)

From Stdlib Require Import String Ascii List NArith ZArith Bool Arith Lia.
From Stdlib Require Import SpecFloat Sorted.
Import ListNotations.
Set Warnings "-register-all".
Local Open Scope string_scope.
Local Open Scope list_scope.

(* ================================================================== *)
(** ** JavaScript strings *)
(* ================================================================== *)

(** A string is the sequence of the bytes of its text in UTF-8.  The
    delimiters and the marker are ASCII; searching and replacing a text
    byte by byte finds what JavaScript finds in the text.  The white
    space that [trim] strips is not all ASCII: it is told apart by the
    bytes of its encoding. *)
Module JsString.

(** [p] is found at the start of [s]. *)
Fixpoint matchesAt (p s : string) : bool :=
  match p with
  | EmptyString => true
  | String a p' =>
      match s with
      | EmptyString => false
      | String b s' => Ascii.eqb a b && matchesAt p' s'
      end
  end.

(** [s.startsWith(p)] *)
Definition startsWith (s p : string) : bool := matchesAt p s.

(** [s.includes(p)]: [p] occurs somewhere in [s]. *)
Fixpoint includes (s p : string) : bool :=
  matchesAt p s ||
  match s with
  | EmptyString => false
  | String _ rest => includes rest p
  end.

(** Remove the first [n] characters. *)
Fixpoint drop (n : nat) (s : string) : string :=
  match n, s with
  | S n', String _ rest => drop n' rest
  | _, _ => s
  end.

(** [s.replace(p, '')] with a string pattern: only the leftmost
    occurrence of [p] is replaced. *)
Fixpoint removeFirst (p s : string) : string :=
  if matchesAt p s then drop (String.length p) s
  else match s with
       | EmptyString => EmptyString
       | String c rest => String c (removeFirst p rest)
       end.

(** The three alternatives of the regular expression
    [/\/\*|\*\/|\/\//]: slash-star, star-slash and slash-slash. *)
Definition isDelimiter (c1 c2 : ascii) : bool :=
  (Ascii.eqb c1 "/" && Ascii.eqb c2 "*") ||
  (Ascii.eqb c1 "*" && Ascii.eqb c2 "/") ||
  (Ascii.eqb c1 "/" && Ascii.eqb c2 "/").

(** [s.replace(/\/\*|\*\/|\/\//g, '')]: scanning from the left, every
    match is removed and the scan resumes after it. *)
Fixpoint removeDelimiters (s : string) : string :=
  match s with
  | EmptyString => EmptyString
  | String c1 rest =>
      match rest with
      | EmptyString => String c1 EmptyString
      | String c2 rest' =>
          if isDelimiter c1 c2 then removeDelimiters rest'
          else String c1 (removeDelimiters rest)
      end
  end.

(** The white space and line terminators of ECMAScript, which [trim]
    strips, by the length of their encoding.  One byte: TAB, LF, VT, FF,
    CR and SPACE. *)
Definition isWhiteSpace (c : ascii) : bool :=
  let n := nat_of_ascii c in
  (Nat.leb 9 n && Nat.leb n 13) || Nat.eqb n 32.

(** Two bytes: U+00A0, the no-break space (C2 A0). *)
Definition isWhiteSpace2 (c1 c2 : ascii) : bool :=
  Nat.eqb (nat_of_ascii c1) 194 && Nat.eqb (nat_of_ascii c2) 160.

(** Three bytes: U+1680 (E1 9A 80); U+2000 to U+200A (E2 80 80 to 8A),
    the line and paragraph separators U+2028 and U+2029 (E2 80 A8, A9)
    and U+202F (E2 80 AF); U+205F (E2 81 9F); U+3000 (E3 80 80); and the
    byte order mark U+FEFF (EF BB BF). *)
Definition isWhiteSpace3 (c1 c2 c3 : ascii) : bool :=
  let n1 := nat_of_ascii c1 in
  let n2 := nat_of_ascii c2 in
  let n3 := nat_of_ascii c3 in
  (Nat.eqb n1 225 && Nat.eqb n2 154 && Nat.eqb n3 128)
  || (Nat.eqb n1 226 && Nat.eqb n2 128
      && ((Nat.leb 128 n3 && Nat.leb n3 138)
          || Nat.eqb n3 168 || Nat.eqb n3 169 || Nat.eqb n3 175))
  || (Nat.eqb n1 226 && Nat.eqb n2 129 && Nat.eqb n3 159)
  || (Nat.eqb n1 227 && Nat.eqb n2 128 && Nat.eqb n3 128)
  || (Nat.eqb n1 239 && Nat.eqb n2 187 && Nat.eqb n3 191).

(** The number of bytes of the white space character that [s] begins
    with; 0 when it begins with none. *)
Definition whiteSpaceAt (s : string) : nat :=
  match s with
  | EmptyString => 0
  | String c1 r1 =>
      if isWhiteSpace c1 then 1
      else match r1 with
           | EmptyString => 0
           | String c2 r2 =>
               if isWhiteSpace2 c1 c2 then 2
               else match r2 with
                    | EmptyString => 0
                    | String c3 _ => if isWhiteSpace3 c1 c2 c3 then 3 else 0
                    end
           end
  end.

Fixpoint trimStart (s : string) : string :=
  match s with
  | EmptyString => EmptyString
  | String c1 r1 =>
      if isWhiteSpace c1 then trimStart r1
      else match r1 with
           | EmptyString => s
           | String c2 r2 =>
               if isWhiteSpace2 c1 c2 then trimStart r2
               else match r2 with
                    | EmptyString => s
                    | String c3 r3 =>
                        if isWhiteSpace3 c1 c2 c3 then trimStart r3 else s
                    end
           end
  end.

(** A text that is white space from end to end. *)
Definition isBlank (s : string) : bool :=
  match trimStart s with
  | EmptyString => true
  | String _ _ => false
  end.

(** The text up to the point from which on it is white space only. *)
Fixpoint trimEnd (s : string) : string :=
  if isBlank s then EmptyString
  else match s with
       | EmptyString => EmptyString
       | String c rest => String c (trimEnd rest)
       end.

(** [s.trim()] *)
Definition trim (s : string) : string := trimEnd (trimStart s).

(** JavaScript truthiness of a string. *)
Definition truthy (s : string) : bool :=
  match s with EmptyString => false | _ => true end.

End JsString.

(* ================================================================== *)
(** ** JSON values and JavaScript objects *)
(* ================================================================== *)

(** The values [serializeType] returns.  [JUndefined] is the JavaScript
    [undefined] that [type.value] yields on a type carrying no value; a
    number is a double, given by sign, mantissa and exponent. *)
Inductive SchemaValue : Type :=
| JUndefined
| JString (s : string)
| JNumber (n : spec_float)
| JBool (b : bool)
| JArray (items : list SchemaValue)
| JObject (fields : list (string * SchemaValue)).

(** A plain JavaScript object used as a dictionary, and a [Map]: the
    entries in insertion order.  (An object enumerates keys that are
    array indices before the others; the keys met here are names of
    types, properties and parameters, and only look-ups are reasoned
    about.)  On a plain object the key [__proto__] is special: assigning
    an object under it replaces the prototype and makes no property.
    The entry under [__proto__] of a plain object stands for the
    prototype so assigned. *)
Definition JsObject (V : Type) : Type := list (string * V).

Section JsObjects.
Context {V : Type}.

(** [map.get(key)], and [obj[key]] as far as the properties of the
    object itself go. *)
Fixpoint obj_get (obj : JsObject V) (key : string) : option V :=
  match obj with
  | [] => None
  | (k, v) :: rest => if String.eqb k key then Some v else obj_get rest key
  end.

(** [obj[key] = v]: an existing property keeps its place and takes the
    new value, a new one is added at the end. *)
Fixpoint obj_set (obj : JsObject V) (key : string) (v : V) : JsObject V :=
  match obj with
  | [] => [(key, v)]
  | (k, w) :: rest =>
      if String.eqb k key then (k, v) :: rest
      else (k, w) :: obj_set rest key v
  end.

Definition obj_keys (obj : JsObject V) : list string := map fst obj.
End JsObjects.

(** The tag ["any"] and the array descriptor [{ type: 'array', items }]. *)
Definition any : SchemaValue := JString "any".
Definition arrayOf (items : SchemaValue) : SchemaValue :=
  JObject [("type", JString "array"); ("items", items)].

(** JavaScript truthiness of a value. *)
Definition truthyValue (v : SchemaValue) : bool :=
  match v with
  | JUndefined => false
  | JString s => JsString.truthy s
  | JNumber (S754_zero _) | JNumber S754_nan => false
  | JNumber _ => true
  | JBool b => b
  | JArray _ | JObject _ => true
  end.

(** [typeof v === 'object'] *)
Definition isObjectValue (v : SchemaValue) : bool :=
  match v with
  | JArray _ | JObject _ => true
  | _ => false
  end.

(** [v.structure] on a truthy value: a property of an object built by
    the property loop, [undefined] on anything else. *)
Definition structureOf (v : SchemaValue) : SchemaValue :=
  match v with
  | JObject fields =>
      match obj_get fields "structure" with
      | Some w => w
      | None => JUndefined
      end
  | _ => JUndefined
  end.

(** [obj[key] = v] on a plain object: under [__proto__] a value that is
    no object is ignored. *)
Definition assign (obj : JsObject SchemaValue) (key : string) (v : SchemaValue)
    : JsObject SchemaValue :=
  if String.eqb key "__proto__" && negb (isObjectValue v) then obj
  else obj_set obj key v.

(** The names that every plain object inherits from [Object.prototype].
    What is found under them is a function or, under [__proto__], the
    prototype: truthy, and without a property [structure]. *)
Definition objectPrototypeKeys : list string :=
  ["constructor"; "__defineGetter__"; "__defineSetter__"; "hasOwnProperty";
   "__lookupGetter__"; "__lookupSetter__"; "isPrototypeOf";
   "propertyIsEnumerable"; "toString"; "valueOf"; "__proto__";
   "toLocaleString"].

(* ================================================================== *)
(** ** The TypeScript collaborator *)
(* ================================================================== *)

(** [ts.TypeFlags], the bit masks of the compiler API (TypeScript 5). *)
Module TypeFlags.
Definition Any : N := 1.
Definition Unknown : N := 2.
Definition String : N := 4.
Definition Number : N := 8.
Definition Boolean : N := 16.
Definition StringLiteral : N := 128.
Definition NumberLiteral : N := 256.
Definition BooleanLiteral : N := 512.
Definition BigIntLiteral : N := 2048.
Definition Undefined : N := 32768.
Definition Null : N := 65536.
Definition Object : N := 524288.
Definition Union : N := 1048576.
End TypeFlags.

(** [flags & mask], read as a condition. *)
Definition hasFlag (flags mask : N) : bool := negb (N.land flags mask =? 0)%N.

(** A reference to a type object. *)
Definition handle : Type := nat.

(** The outcome of a call into the compiler that may throw. *)
Inductive Res (A : Type) : Type :=
| Ok (a : A)
| Err (message : string).
Arguments Ok {A} a.
Arguments Err {A} message.

(** [type.symbol] *)
Record TsSymbol : Type := {
  sym_name : string;
  sym_id : option nat
}.

(** A property symbol, as [getProperties] lists them.  The two look-ups
    of its type are the calls made inside the [try] blocks; either may
    throw, and either may yield no type. *)
Record PropSymbol : Type := {
  getName : string;
  valueDeclaration : bool;
  getTypeOfSymbol : Res (option handle);
  getTypeOfSymbolAtLocation : Res (option handle)
}.

(** [type.value] of a literal type. *)
Inductive LiteralValue : Type :=
| LitString (s : string)
| LitNumber (n : spec_float).

(** The facets of a [ts.Type] that the serializer reads.  A method that
    the source probes before calling ([type.isLiteral && type.isLiteral()])
    is a boolean that is [false] also when the method is missing;
    [getProperties] and [getCallSignatures] are [None] when missing. *)
Record TsType : Type := {
  ty_id : option nat;
  ty_symbol : option TsSymbol;
  ty_flags : N;
  isLiteral : bool;
  isStringLiteral : bool;
  isNumberLiteral : bool;
  ty_value : option LiteralValue;
  intrinsicName : option string;
  isUnion : bool;
  ty_types : list handle;
  isArrayType : bool;
  getTypeArguments : Res (list handle);
  getProperties : option (list PropSymbol);
  getCallSignatures : option nat;
  typeToString : string
}.

(** An entry of the [typeDefinitions] map. *)
Record TypeInfo : Type := {
  ti_name : string;
  ti_type : handle;
  ti_file : string
}.

(** An element of the [visited] set: a numeric id of the compiler, or the
    string token made from [Math.random()]. *)
Inductive Ident : Type :=
| IdNum (n : nat)
| IdToken (s : string).

Definition Ident_eqb (a b : Ident) : bool :=
  match a, b with
  | IdNum n, IdNum m => Nat.eqb n m
  | IdToken s, IdToken t => String.eqb s t
  | _, _ => false
  end.

(** [visited.has(typeId)] *)
Definition visited_has (visited : list Ident) (i : Ident) : bool :=
  existsb (Ident_eqb i) visited.

(** JavaScript truthiness of an optional number. *)
Definition truthy_id (i : option nat) : option nat :=
  match i with
  | Some (S n) => Some (S n)
  | _ => None
  end.

(** The part of [type.id || (type.symbol && type.symbol.id)] that does
    not depend on chance. *)
Definition stableId (t : TsType) : option nat :=
  match truthy_id (ty_id t) with
  | Some n => Some n
  | None =>
      match ty_symbol t with
      | Some s => truthy_id (sym_id s)
      | None => None
      end
  end.

(** [type.value], as a JSON value. *)
Definition valueOf (t : TsType) : SchemaValue :=
  match ty_value t with
  | Some (LitString s) => JString s
  | Some (LitNumber n) => JNumber n
  | None => JUndefined
  end.

(** [isBuiltInType] *)
Definition builtInTypes : list string :=
  ["Array"; "String"; "Number"; "Boolean"; "Object"; "Function";
   "Promise"; "Date"; "RegExp"; "Error"; "Map"; "Set"; "Symbol";
   "Iterator"; "Generator"].

Definition isBuiltInType (typeName : string) : bool :=
  existsb (String.eqb typeName) builtInTypes || String.eqb typeName "__type".

(* ================================================================== *)
(** ** Effects: shared sets, the console, exceptions *)
(* ================================================================== *)

(** What [console.warn] is called with inside the [catch] blocks. *)
Inductive Warning : Type :=
| WarnProperty (message : string)
| WarnArray (message : string).

(** The mutable state one run threads through every call: the shared
    [processedTypes] set, the number of calls made to [Math.random] so
    far, and the warnings written to the console. *)
Record State : Type := {
  processedTypes : list string;
  randomCalls : nat;
  warnings : list Warning
}.

Definition initialState : State :=
  {| processedTypes := []; randomCalls := 0; warnings := [] |}.

(** How a call ends: with a value, or with an exception, of which the
    message is kept. *)
Inductive Outcome (A : Type) : Type :=
| Return (a : A)
| Throw (message : string).
Arguments Return {A} a.
Arguments Throw {A} message.

Definition M (A : Type) : Type := State -> Outcome A * State.

Definition ret {A} (a : A) : M A := fun st => (Return a, st).

Definition bind {A B} (m : M A) (k : A -> M B) : M B :=
  fun st =>
    match m st with
    | (Return a, st') => k a st'
    | (Throw e, st') => (Throw e, st')
    end.

Definition throw {A} (message : string) : M A := fun st => (Throw message, st).

(** The message of the [RangeError] that the engine throws at a call for
    which the call stack has no room. *)
Definition stackOverflow : string := "Maximum call stack size exceeded".

(** A call into the compiler that may throw. *)
Definition call {A} (r : Res A) : M A :=
  fun st => match r with
            | Ok a => (Return a, st)
            | Err e => (Throw e, st)
            end.

(** [try { body } catch (error) { handler }]: the effects of [body] up to
    the exception stay. *)
Definition try_catch {A} (body : M A) (handler : string -> M A) : M A :=
  fun st =>
    match body st with
    | (Throw e, st') => handler e st'
    | (Return a, st') => (Return a, st')
    end.

Declare Scope js_scope.
Delimit Scope js_scope with js.
Notation "x <- m ;; k" := (bind m (fun x => k))
  (at level 61, m at next level, right associativity) : js_scope.
Notation "m ;;; k" := (bind m (fun _ => k))
  (at level 61, right associativity) : js_scope.
Local Open Scope js_scope.

(** [processedTypes.has(name)] and [processedTypes.add(name)] *)
Definition processed_has (typeName : string) : M bool :=
  fun st => (Return (existsb (String.eqb typeName) (processedTypes st)), st).

Definition addProcessed (typeName : string) (st : State) : State :=
  {| processedTypes :=
       if existsb (String.eqb typeName) (processedTypes st)
       then processedTypes st
       else processedTypes st ++ [typeName];
     randomCalls := randomCalls st;
     warnings := warnings st |}.

Definition processed_add (typeName : string) : M unit :=
  fun st => (Return tt, addProcessed typeName st).

(** [console.warn(...)] *)
Definition countRandom (st : State) : State :=
  {| processedTypes := processedTypes st;
     randomCalls := S (randomCalls st);
     warnings := warnings st |}.

Definition addWarning (w : Warning) (st : State) : State :=
  {| processedTypes := processedTypes st;
     randomCalls := randomCalls st;
     warnings := warnings st ++ [w] |}.

Definition console_warn (w : Warning) : M unit :=
  fun st => (Return tt, addWarning w st).

(* ================================================================== *)
(** ** [serializeType] *)
(* ================================================================== *)

Section Serializer.

(** The type checker of the program under analysis, the successive
    values of [Math.random().toString(36).substring(7)] (the k-th call
    yields [random k]) and the values of the [typeDefinitions] map in
    insertion order. *)
Variable typeChecker : handle -> TsType.
Variable random : nat -> string.
Variable typeDefinitions : list TypeInfo.

Definition mathRandomToken : M string :=
  fun st => (Return (random (randomCalls st)), countRandom st).

(** [type.id || (type.symbol && type.symbol.id) ||
    Math.random().toString(36).substring(7)] *)
Definition typeIdOf (type : TsType) : M Ident :=
  match stableId type with
  | Some n => ret (IdNum n)
  | None => token <- mathRandomToken ;; ret (IdToken token)
  end.

(** The six tests on [type.flags] that return a tag. *)
Definition primitiveTag (flags : N) : option string :=
  if hasFlag flags TypeFlags.String then Some "string"
  else if hasFlag flags TypeFlags.Number then Some "number"
  else if hasFlag flags TypeFlags.Boolean then Some "boolean"
  else if hasFlag flags TypeFlags.Null then Some "null"
  else if hasFlag flags TypeFlags.Undefined then Some "undefined"
  else if hasFlag flags TypeFlags.Any || hasFlag flags TypeFlags.Unknown
       then Some "any"
  else None.

(** The block guarded by [type.isLiteral && type.isLiteral()]; [None]
    when control leaves it without returning. *)
Definition literalOf (type : TsType) : option SchemaValue :=
  if isLiteral type then
    if isStringLiteral type then Some (valueOf type)
    else if isNumberLiteral type then Some (valueOf type)
    else if hasFlag (ty_flags type) TypeFlags.BooleanLiteral
         then Some (JBool (match intrinsicName type with
                           | Some n => String.eqb n "true"
                           | None => false
                           end))
    else None
  else None.

(** [type.symbol.name]; the empty string, which is falsy as well, when
    the type has no symbol. *)
Definition symbolName (type : TsType) : string :=
  match ty_symbol type with
  | Some symbol => sym_name symbol
  | None => EmptyString
  end.

(** The condition [type.symbol && type.symbol.name &&
    !isBuiltInType(type.symbol.name)] of the named-type block, and the
    [find] over the values of [typeDefinitions]. *)
Definition namedEntry (type : TsType) : option TypeInfo :=
  let typeName := symbolName type in
  if JsString.truthy typeName && negb (isBuiltInType typeName) then
    find (fun t => String.eqb (ti_name t) typeName
                   && negb (isBuiltInType typeName))
         typeDefinitions
  else None.

(** [isLikelyMethod] *)
Definition isLikelyMethod (symbol : PropSymbol) : M bool :=
  if negb (valueDeclaration symbol) then ret false
  else
    symbolType <- call (getTypeOfSymbol symbol) ;;
    match symbolType with
    | None => ret false
    | Some h =>
        ret (match getCallSignatures (typeChecker h) with
             | Some n => Nat.ltb 0 n
             | None => false
             end)
    end.

Section Descent.

(** The recursive call, one level down. *)
Variable recurse : option handle -> list Ident -> M SchemaValue.
(** The set of the current call after [visited.add(typeId)]; every
    descent receives [new Set(visited)], a copy of it. *)
Variable visited : list Ident.

(** One turn of [for (const prop of properties) { try ... catch }]. *)
Definition propertyStep (structure : JsObject SchemaValue)
    (prop : PropSymbol) : M (JsObject SchemaValue) :=
  try_catch
    (let propName := getName prop in
     if JsString.startsWith propName "__" then ret structure
     else
       method <- isLikelyMethod prop ;;
       if method then ret structure
       else
         propType <- call (if valueDeclaration prop
                           then getTypeOfSymbolAtLocation prop
                           else getTypeOfSymbol prop) ;;
         v <- recurse propType visited ;;
         ret (obj_set structure propName v))
    (fun message =>
       console_warn (WarnProperty message) ;;; ret structure).

Fixpoint propertyLoop (properties : list PropSymbol)
    (structure : JsObject SchemaValue) : M (JsObject SchemaValue) :=
  match properties with
  | [] => ret structure
  | prop :: rest =>
      structure' <- propertyStep structure prop ;;
      propertyLoop rest structure'
  end.

(** The block [if (type.isUnion && type.isUnion())]. *)
Definition serializeUnion (type : TsType) : M SchemaValue :=
  let members := map typeChecker (ty_types type) in
  if forallb isStringLiteral members then ret (JArray (map valueOf members))
  else if Nat.eqb (List.length members) 2
          && forallb (fun t => hasFlag (ty_flags t) TypeFlags.BooleanLiteral)
                     members
  then ret (JString "boolean")
  else
    match find (fun h => negb (hasFlag (ty_flags (typeChecker h)) TypeFlags.Undefined)
                         && negb (hasFlag (ty_flags (typeChecker h)) TypeFlags.Null))
               (ty_types type) with
    | Some nonUndefinedType => recurse (Some nonUndefinedType) visited
    | None => ret any
    end.

(** The block [if (typeChecker.isArrayType(type))]. *)
Definition serializeArray (type : TsType) : M SchemaValue :=
  try_catch
    (typeArguments <- call (getTypeArguments type) ;;
     let elementType := hd_error typeArguments in
     serializedElementType <- recurse elementType visited ;;
     ret (arrayOf serializedElementType))
    (fun message =>
       console_warn (WarnArray message) ;;; ret (arrayOf any)).

(** Everything below the named-type block: union, array, object with
    properties, and the rendering of the type as text. *)
Definition serializeStructural (type : TsType) : M SchemaValue :=
  if isUnion type then serializeUnion type
  else if isArrayType type then serializeArray type
  else
    match getProperties type with
    | Some (prop :: rest) =>
        result <- propertyLoop (prop :: rest) [] ;;
        ret (JObject result)
    | _ => ret (JString (typeToString type))
    end.

(** The named-type block, falling through to the rest. *)
Definition serializeNamed (type : TsType) : M SchemaValue :=
  match namedEntry type with
  | Some typeInfo =>
      let typeName := symbolName type in
      processed <- processed_has typeName ;;
      if processed then serializeStructural type
      else
        processed_add typeName ;;;
        match getProperties (typeChecker (ti_type typeInfo)) with
        | Some properties =>
            structure <- propertyLoop properties [] ;;
            ret (JObject structure)
        | None => serializeStructural type
        end
  | None => serializeStructural type
  end.

(** The call from the tests on [type.flags] on, for a type found
    not to be on the path. *)
Definition serializeUnvisited (type : TsType) : M SchemaValue :=
  match primitiveTag (ty_flags type) with
  | Some tag => ret (JString tag)
  | None =>
      match literalOf type with
      | Some v => ret v
      | None => serializeNamed type
      end
  end.

End Descent.

(** [serializeType(type, typeChecker, typeDefinitions, processedTypes,
    visited)].  [fuel] is the depth to which the call stack lets the
    recursion go: the call for which no room is left throws the
    [RangeError] of the engine, as any call of JavaScript does, and the
    exception takes the way of every other one.  Only the calls of
    [serializeType] itself are counted.  [None] is a [type] that is
    [null] or [undefined]. *)
Fixpoint serializeType (fuel : nat) (type : option handle)
    (visited : list Ident) {struct fuel} : M SchemaValue :=
  match fuel with
  | 0 => throw stackOverflow
  | S fuel' =>
      match type with
      | None => ret any
      | Some h =>
          let type := typeChecker h in
          typeId <- typeIdOf type ;;
          if visited_has visited typeId then ret any
          else serializeUnvisited (serializeType fuel') (typeId :: visited) type
      end
  end.

End Serializer.

(* ================================================================== *)
(** ** The program: source files, registry, actions, document *)
(* ================================================================== *)

(** A parameter of a function declaration: [param.name.getText()],
    [param.type.getText()] when the parameter is annotated, and
    [typeChecker.getTypeAtLocation(param)]. *)
Record ParameterDeclaration : Type := {
  param_name : string;
  param_typeText : option string;
  param_type : handle
}.

(** The nodes of a syntax tree, as far as the two [visit] functions tell
    them apart.  [exported] is the test on [node.modifiers]; the type of a
    declaration is [typeChecker.getTypeAtLocation(node.name)]; the leading
    comments are the texts of [ts.getLeadingCommentRanges], [None] when
    there is no range. *)
Inductive Node : Type :=
| TypeAliasDeclaration (exported : bool) (name : string) (type : handle)
| InterfaceDeclaration (exported : bool) (name : string) (type : handle)
| FunctionDeclaration (exported : bool) (name : option string)
    (leadingComments : option (list string)) (parameters : list ParameterDeclaration)
| OtherNode.

(** A source file of the program; [nodes] lists the nodes below it in the
    order in which [ts.forEachChild(sourceFile, visit)] reaches them
    (parents before children, left to right). *)
Record SourceFile : Type := {
  isDeclarationFile : bool;
  fileName : string;
  nodes : list Node
}.

Record RegistryEntry : Type := {
  structure : SchemaValue;
  file : string
}.

Record Action : Type := {
  action_name : string;
  action_description : string;
  action_parameters : JsObject SchemaValue;
  action_module : string
}.

(** The object handed to [JSON.stringify] and written to [actions.json]. *)
Record ActionsJson : Type := {
  actions : list Action;
  typeAliases : JsObject RegistryEntry
}.

(** The [continue] at the head of both loops over the source files. *)
Definition skippedFile (sourceFile : SourceFile) : bool :=
  isDeclarationFile sourceFile
  || JsString.includes (fileName sourceFile) "node_modules".

(** [collectTypeDefinitions]: a [Map] from type name to entry, in
    insertion order; setting a present key replaces its value. *)
Definition collectNode (sourceFile : SourceFile)
    (typeDefinitions : JsObject TypeInfo) (node : Node) : JsObject TypeInfo :=
  match node with
  | TypeAliasDeclaration true typeName type
  | InterfaceDeclaration true typeName type =>
      obj_set typeDefinitions typeName
        {| ti_name := typeName; ti_type := type; ti_file := fileName sourceFile |}
  | _ => typeDefinitions
  end.

Definition collectTypeDefinitions (program : list SourceFile) : JsObject TypeInfo :=
  fold_left
    (fun typeDefinitions sourceFile =>
       if skippedFile sourceFile then typeDefinitions
       else fold_left (collectNode sourceFile) (nodes sourceFile) typeDefinitions)
    program [].

Definition marker : string := "@abra-action".

(** The description of an action, from the text of its marker comment:
    [commentText.replace('@abra-action', '')
                .replace(/\/\*|\*\/|\/\//g, '').trim()] *)
Definition descriptionOf (commentText : string) : string :=
  JsString.trim
    (JsString.removeDelimiters (JsString.removeFirst marker commentText)).

Section Program.

Variable typeChecker : handle -> TsType.
Variable random : nat -> string.
(** The depth that the call stack allows to each top-level call of
    [serializeType]. *)
Variable fuel : nat.

Section WithDefinitions.

Variable typeDefinitions : JsObject TypeInfo.

Definition serializeRoot (type : handle) : M SchemaValue :=
  serializeType typeChecker random (map snd typeDefinitions)
    fuel (Some type) [].

(** The loop [for (const [typeName, typeInfo] of typeDefinitions)]. *)
Fixpoint expandRegistry (entries : JsObject TypeInfo)
    (typeRegistry : JsObject RegistryEntry) : M (JsObject RegistryEntry) :=
  match entries with
  | [] => ret typeRegistry
  | (typeName, typeInfo) :: rest =>
      processed <- processed_has typeName ;;
      if processed then expandRegistry rest typeRegistry
      else
        typeStructure <- serializeRoot (ti_type typeInfo) ;;
        expandRegistry rest
          (obj_set typeRegistry typeName
             {| structure := typeStructure; file := ti_file typeInfo |})
  end.

Variable typeRegistry : JsObject RegistryEntry.

(** [typeRegistry[typeName]] read as a condition and, where it holds,
    [typeRegistry[typeName].structure]: [Some v] when the look-up finds
    something truthy, [v] being its [structure], and [None] when it
    finds nothing.  The look-up goes from the entries of the registry to
    its prototype: [Object.prototype], or else the entry of a type named
    [__proto__] and behind it [Object.prototype]. *)
Definition registryStructure (typeName : string) : option SchemaValue :=
  let inherited :=
    if existsb (String.eqb typeName) objectPrototypeKeys
    then Some JUndefined else None in
  match obj_get typeRegistry typeName with
  | Some entry => Some (structure entry)
  | None =>
      match obj_get typeRegistry "__proto__" with
      | Some prototype =>
          if String.eqb typeName "structure" then
            if truthyValue (structure prototype)
            then Some (structureOf (structure prototype)) else None
          else if String.eqb typeName "file" then
            if JsString.truthy (file prototype) then Some JUndefined else None
          else inherited
      | None => inherited
      end
  end.

(** [node.parameters.forEach(param => ...)] *)
Fixpoint forEachParameter (params : list ParameterDeclaration)
    (parameters : JsObject SchemaValue) : M (JsObject SchemaValue) :=
  match params with
  | [] => ret parameters
  | param :: rest =>
      let paramName := param_name param in
      v <- match param_typeText param with
           | Some typeName =>
               match registryStructure typeName with
               | Some registered => ret registered
               | None => serializeRoot (param_type param)
               end
           | None => serializeRoot (param_type param)
           end ;;
      forEachParameter rest (assign parameters paramName v)
  end.

(** The body of the second [visit]: an exported, named function whose
    leading comments mention the marker becomes an action. *)
Definition visitFunction (sourceFile : SourceFile) (actions : list Action)
    (node : Node) : M (list Action) :=
  match node with
  | FunctionDeclaration true (Some functionName) (Some commentRanges) params =>
      match find (fun comment => JsString.includes comment marker)
                 commentRanges with
      | Some commentText =>
          let description := descriptionOf commentText in
          parameters <- forEachParameter params [] ;;
          ret (actions ++
               [{| action_name := functionName;
                   action_description :=
                     if JsString.truthy description then description
                     else "Execute " ++ functionName;
                   action_parameters := parameters;
                   action_module := fileName sourceFile |}])
      | None => ret actions
      end
  | _ => ret actions
  end.

Fixpoint visitNodes (sourceFile : SourceFile) (ns : list Node)
    (actions : list Action) : M (list Action) :=
  match ns with
  | [] => ret actions
  | node :: rest =>
      actions' <- visitFunction sourceFile actions node ;;
      visitNodes sourceFile rest actions'
  end.

Fixpoint visitFiles (program : list SourceFile) (actions : list Action)
    : M (list Action) :=
  match program with
  | [] => ret actions
  | sourceFile :: rest =>
      if skippedFile sourceFile then visitFiles rest actions
      else
        actions' <- visitNodes sourceFile (nodes sourceFile) actions ;;
        visitFiles rest actions'
  end.

End WithDefinitions.

(** [generateActionsJson], up to the object given to [JSON.stringify];
    [program.getSourceFiles()] is the argument. *)
Definition generateActionsJson (program : list SourceFile) : M ActionsJson :=
  let typeDefinitions := collectTypeDefinitions program in
  typeRegistry <- expandRegistry typeDefinitions typeDefinitions [] ;;
  actions <- visitFiles typeDefinitions typeRegistry program [] ;;
  ret {| actions := actions; typeAliases := typeRegistry |}.

End Program.

(* ================================================================== *)
(** ** [getTypeDefinitionFiles] *)
(* ================================================================== *)

(** [s.endsWith(p)] *)
Fixpoint endsWith (s p : string) : bool :=
  String.eqb s p ||
  match s with
  | EmptyString => false
  | String _ rest => endsWith rest p
  end.

(** What the walk sees of the file system: for a directory, the names
    that [fs.readdirSync] lists, in its order, each with what
    [fs.statSync] finds under it.  The tree is finite (no link leads
    back into a directory above it) and both calls succeed on it; where
    one of them throws, the walk ends with that exception, which is
    not modelled. *)
Inductive FsNode : Type :=
| FsFile
| FsDirectory (files : list (string * FsNode)).

Definition excludedDirectories : list string := ["node_modules"; "dist"; "build"].

(** [["node_modules", "dist", "build"].some((exclude) =>
    filePath.includes(exclude))] *)
Definition isExcluded (filePath : string) : bool :=
  existsb (fun exclude => JsString.includes filePath exclude) excludedDirectories.

Section FileDiscovery.

(** [path.join] of the Node library. *)
Variable pathJoin : string -> string -> string.

(** One turn of [files.forEach((file) => ...)] in the directory [dir],
    [node] being what lies under the name [file]; the loop of a
    subdirectory is the recursive call of [getTypeDefinitionFiles] on
    it, with the same [fileList]. *)
Fixpoint visitEntry (dir file : string) (node : FsNode)
    (fileList : list string) {struct node} : list string :=
  let filePath := pathJoin dir file in
  match node with
  | FsDirectory files =>
      if negb (isExcluded filePath) then
        (fix forEach (files : list (string * FsNode))
             (fileList : list string) {struct files} : list string :=
           match files with
           | [] => fileList
           | (file', node') :: rest =>
               forEach rest (visitEntry filePath file' node' fileList)
           end) files fileList
      else fileList
  | FsFile =>
      if endsWith file ".ts" && JsString.includes filePath "/src/"
      then fileList ++ [filePath]
      else fileList
  end.

(** [getTypeDefinitionFiles(dir, fileList)], [files] being the content
    of [dir]. *)
Definition getTypeDefinitionFiles (dir : string)
    (files : list (string * FsNode)) (fileList : list string) : list string :=
  fold_left (fun fileList entry => visitEntry dir (fst entry) (snd entry) fileList)
    files fileList.

End FileDiscovery.

(* ================================================================== *)
(** ** Notions in which the properties are stated *)
(* ================================================================== *)

(** A computation that ends with a value. *)
Definition returns {A} (m : M A) (st : State) : Prop :=
  exists a st', m st = (Return a, st').

(** A computation from which no exception escapes. *)
Definition neverThrows {A} (m : M A) : Prop :=
  forall st e, fst (m st) <> Throw e.

(** [isLikelyMethod] without the monad. *)
Definition likelyMethod (typeChecker : handle -> TsType) (symbol : PropSymbol)
    : Res bool :=
  if negb (valueDeclaration symbol) then Ok false
  else match getTypeOfSymbol symbol with
       | Err e => Err e
       | Ok None => Ok false
       | Ok (Some h) =>
           Ok (match getCallSignatures (typeChecker h) with
               | Some n => Nat.ltb 0 n
               | None => false
               end)
       end.

(** What the body of the [try] does with a property before it descends:
    it leaves the loop turn by [continue], it throws, or it has the type
    to descend into. *)
Inductive PropFate : Type :=
| Skipped
| Failed (message : string)
| Resolved (propType : option handle).

Definition propFate (typeChecker : handle -> TsType) (prop : PropSymbol)
    : PropFate :=
  if JsString.startsWith (getName prop) "__" then Skipped
  else match likelyMethod typeChecker prop with
       | Err e => Failed e
       | Ok true => Skipped
       | Ok false =>
           match (if valueDeclaration prop
                  then getTypeOfSymbolAtLocation prop
                  else getTypeOfSymbol prop) with
           | Err e => Failed e
           | Ok propType => Resolved propType
           end
       end.

(** Every type object has an identity of its own ([type.id] or the id of
    its symbol), and these identities all lie in a finite list. *)
Definition finiteIdentities (typeChecker : handle -> TsType)
    (universe : list nat) : Prop :=
  forall h, exists n, stableId (typeChecker h) = Some n /\ In n universe.

(** The identities of [universe] not yet on the path. *)
Definition unvisited (universe : list nat) (visited : list Ident) : list nat :=
  filter (fun n => negb (visited_has visited (IdNum n))) universe.

(** How the services layer of the TypeScript compiler answers the four
    probes, all from [type.flags]: [isLiteral] tests the string, number
    and bigint literal bits, the others their own bit. *)
Definition servicesLayer (t : TsType) : Prop :=
  isLiteral t = hasFlag (ty_flags t)
                  (N.lor TypeFlags.StringLiteral
                     (N.lor TypeFlags.NumberLiteral TypeFlags.BigIntLiteral))
  /\ isStringLiteral t = hasFlag (ty_flags t) TypeFlags.StringLiteral
  /\ isNumberLiteral t = hasFlag (ty_flags t) TypeFlags.NumberLiteral
  /\ isUnion t = hasFlag (ty_flags t) TypeFlags.Union.

(** The compiler flattens unions: no member of a union type is a union
    itself. *)
Definition flatUnions (typeChecker : handle -> TsType) : Prop :=
  forall h m,
    isUnion (typeChecker h) = true ->
    In m (ty_types (typeChecker h)) ->
    isUnion (typeChecker m) = false.

(** Two outcomes of the same call under different circumstances: equal,
    with at least [calls] draws of [Math.random] made. *)
Definition related (calls : nat) {A} (r1 r2 : Outcome A * State) : Prop :=
  r1 = r2 /\ calls <= randomCalls (snd r1).

(** An element of a [visited] set, told by how it came about: an id of
    the compiler, or the token of the k-th call of [Math.random]. *)
Inductive PathEntry : Type :=
| StableEntry (n : nat)
| DrawnEntry (k : nat).

Definition entryIdent (random : nat -> string) (e : PathEntry) : Ident :=
  match e with
  | StableEntry n => IdNum n
  | DrawnEntry k => IdToken (random k)
  end.

Definition pathOf (random : nat -> string) (path : list PathEntry) : list Ident :=
  map (entryIdent random) path.

Definition drawnBefore (calls : nat) (path : list PathEntry) : Prop :=
  forall k, In (DrawnEntry k) path -> k < calls.

(** [Math.random] never yields the same token twice in a run. *)
Definition distinctTokens (random : nat -> string) : Prop :=
  forall j k, random j = random k -> j = k.

(** No token is ever needed: every type object has an identity. *)
Definition allStable (typeChecker : handle -> TsType) : Prop :=
  forall h, stableId (typeChecker h) <> None.



(** The state only accumulates: nothing leaves the console or the set of
    processed names. *)
Definition grows (st st' : State) : Prop :=
  incl (warnings st) (warnings st')
  /\ incl (processedTypes st) (processedTypes st').

Definition accumulates {A} (m : M A) : Prop :=
  forall st, grows st (snd (m st)).

(** The identity [serializeType] computes for a type object in a given
    state. *)
Definition identityAt (random : nat -> string) (t : TsType) (st : State) : Ident :=
  match stableId t with
  | Some n => IdNum n
  | None => IdToken (random (randomCalls st))
  end.

(** A type object that passes the tests on flags, the literal block and
    the named-type block, and enters the union block. *)
Definition reachesUnionBlock (typeDefinitions : list TypeInfo) (t : TsType) : Prop :=
  primitiveTag (ty_flags t) = None
  /\ literalOf t = None
  /\ namedEntry typeDefinitions t = None
  /\ isUnion t = true.



(* ================================================================== *)
(** ** Sample programs *)
(* ================================================================== *)

Module Sample.

(** A type object with nothing special about it. *)
Definition plain (id : option nat) (symbol : option TsSymbol) (flags : N)
    (properties : option (list PropSymbol)) (text : string) : TsType :=
  {| ty_id := id; ty_symbol := symbol; ty_flags := flags;
     isLiteral := false; isStringLiteral := false; isNumberLiteral := false;
     ty_value := None; intrinsicName := None;
     isUnion := false; ty_types := [];
     isArrayType := false; getTypeArguments := Ok [];
     getProperties := properties; getCallSignatures := Some 0;
     typeToString := text |}.

Definition named (name : string) (id : nat) : option TsSymbol :=
  Some {| sym_name := name; sym_id := Some id |}.

(** [name: T], declared in the source. *)
Definition field (name : string) (type : handle) : PropSymbol :=
  {| getName := name; valueDeclaration := true;
     getTypeOfSymbol := Ok (Some type);
     getTypeOfSymbolAtLocation := Ok (Some type) |}.

(** A property whose type the checker fails to compute. *)
Definition brokenField (name message : string) : PropSymbol :=
  {| getName := name; valueDeclaration := true;
     getTypeOfSymbol := Ok None;
     getTypeOfSymbolAtLocation := Err message |}.

Definition stringType (id : nat) : TsType :=
  plain (Some id) None TypeFlags.String None "string".


Definition interfaceType (id : nat) (name : string)
    (properties : list PropSymbol) : TsType :=
  plain (Some id) (named name (100 + id)) TypeFlags.Object
    (Some properties) name.

Definition stringLiteral (id : nat) (s : string) : TsType :=
  {| ty_id := Some id; ty_symbol := None;
     ty_flags := TypeFlags.StringLiteral;
     isLiteral := true; isStringLiteral := true; isNumberLiteral := false;
     ty_value := Some (LitString s); intrinsicName := None;
     isUnion := false; ty_types := [];
     isArrayType := false; getTypeArguments := Ok [];
     getProperties := Some []; getCallSignatures := Some 0;
     typeToString := s |}.

Definition unionType (id : option nat) (members : list handle) (text : string)
    : TsType :=
  {| ty_id := id; ty_symbol := None; ty_flags := TypeFlags.Union;
     isLiteral := false; isStringLiteral := false; isNumberLiteral := false;
     ty_value := None; intrinsicName := None;
     isUnion := true; ty_types := members;
     isArrayType := false; getTypeArguments := Ok [];
     getProperties := Some []; getCallSignatures := Some 0;
     typeToString := text |}.

Definition arrayType (id : option nat) (element : handle) (text : string)
    : TsType :=
  {| ty_id := id; ty_symbol := named "Array" 99; ty_flags := TypeFlags.Object;
     isLiteral := false; isStringLiteral := false; isNumberLiteral := false;
     ty_value := None; intrinsicName := None;
     isUnion := false; ty_types := [];
     isArrayType := true; getTypeArguments := Ok [element];
     getProperties := Some []; getCallSignatures := Some 0;
     typeToString := text |}.

Definition exportedInterface (name : string) (type : handle) : TypeInfo :=
  {| ti_name := name; ti_type := type; ti_file := "/app/src/types.ts" |}.

(** [export interface Node { next: Node; label: string }] *)
Definition nodeChecker (h : handle) : TsType :=
  match h with
  | 0 => interfaceType 1 "Node" [field "next" 0; field "label" 1]
  | _ => stringType 2
  end.

Definition nodeDefinitions : list TypeInfo := [exportedInterface "Node" 0].

Definition noRandom (k : nat) : string := "".

(** [export type Node = { next: Node }]: the type of the alias is an
    object type whose symbol the compiler names [__type]. *)
Definition aliasChecker (h : handle) : TsType :=
  plain (Some 1) (named "__type" 11) TypeFlags.Object
    (Some [field "next" 0]) "Node".

Definition aliasDefinitions : list TypeInfo := [exportedInterface "Node" 0].

End Sample.

Module SampleLoop.
Import Sample.

(** A union made by hand, such as the compiler makes none: it has no id
    and no symbol, and its one member is the union itself. *)
Definition selfUnion (h : handle) : TsType := unionType None [0] "U".

(** Tokens that never repeat: the k-th is k letters long. *)
Fixpoint freshToken (k : nat) : string :=
  match k with
  | 0 => EmptyString
  | S k' => String "x" (freshToken k')
  end.
End SampleLoop.

(** A type object that no block of [serializeType] claims. *)
Definition matchesNoRule (typeDefinitions : list TypeInfo) (t : TsType) : Prop :=
  primitiveTag (ty_flags t) = None
  /\ literalOf t = None
  /\ namedEntry typeDefinitions t = None
  /\ isUnion t = false
  /\ isArrayType t = false
  /\ (getProperties t = None \/ getProperties t = Some []).

Module SampleTypes.
Import Sample.

(** [export interface Outer { inner: Inner }] followed by
    [export interface Inner { x: string }] in one source file. *)
Definition nestedChecker (h : handle) : TsType :=
  match h with
  | 0 => interfaceType 1 "Outer" [field "inner" 1]
  | 1 => interfaceType 2 "Inner" [field "x" 2]
  | _ => stringType 3
  end.

Definition nestedProgram : list SourceFile :=
  [{| isDeclarationFile := false;
      fileName := "/app/src/types.ts";
      nodes := [InterfaceDeclaration true "Outer" 0;
                InterfaceDeclaration true "Inner" 1] |}].

(** The type [true]: its flags are the boolean-literal bit alone, the
    probes answer as the services layer does, and its properties are
    those of the [Boolean] interface, the method [valueOf]. *)
Definition trueChecker (h : handle) : TsType :=
  match h with
  | 0 =>
      {| ty_id := Some 1; ty_symbol := None;
         ty_flags := TypeFlags.BooleanLiteral;
         isLiteral := false; isStringLiteral := false;
         isNumberLiteral := false;
         ty_value := None; intrinsicName := Some "true";
         isUnion := false; ty_types := [];
         isArrayType := false; getTypeArguments := Ok [];
         getProperties := Some [field "valueOf" 1];
         getCallSignatures := Some 0;
         typeToString := "true" |}
  | _ =>
      {| ty_id := Some 2; ty_symbol := None; ty_flags := TypeFlags.Object;
         isLiteral := false; isStringLiteral := false;
         isNumberLiteral := false;
         ty_value := None; intrinsicName := None;
         isUnion := false; ty_types := [];
         isArrayType := false; getTypeArguments := Ok [];
         getProperties := Some []; getCallSignatures := Some 1;
         typeToString := "() => boolean" |}
  end.

(** The union of the three string literals a, b and c. *)
Definition colourChecker (h : handle) : TsType :=
  match h with
  | 0 => unionType (Some 1) [1; 2; 3] "a | b | c"
  | 1 => stringLiteral 2 "a"
  | 2 => stringLiteral 3 "b"
  | _ => stringLiteral 4 "c"
  end.
End SampleTypes.

(** The members of a union are in the order of their ids: the compiler
    keeps [type.types] sorted by [id], and gives a type its id when it
    first makes it. *)
Definition orderedByIdentity (typeChecker : handle -> TsType) (union : TsType)
    : Prop :=
  exists ids,
    Forall2 (fun m n => ty_id (typeChecker m) = Some n) (ty_types union) ids
    /\ StronglySorted lt ids.

Module SampleOrder.
Import Sample.

(** [export type Last = "c"] followed by
    [export type Letters = "a" | "b" | "c"] in one source file.  The
    tool asks for the type of [Last] first, so the compiler makes the
    literal type of c before those of a and b; the members of [Letters]
    are held in the order of their ids: c, a, b. *)
Definition lettersDeclared : list string := ["a"; "b"; "c"].

Definition lettersChecker (h : handle) : TsType :=
  match h with
  | 0 => stringLiteral 11 "c"
  | 1 => stringLiteral 12 "a"
  | 2 => stringLiteral 13 "b"
  | _ => unionType (Some 14) [0; 1; 2] "Letters"
  end.

Definition lettersDefinitions : list TypeInfo :=
  [exportedInterface "Last" 0; exportedInterface "Letters" 3].
End SampleOrder.

Module SampleOptional.
Import Sample.


End SampleOptional.

(** The properties over which [serializeType] runs its loop for a type
    object that passes the tests on flags and the literal block, in a
    given state: those of the entry registered under the name of the
    type, when there is one and the name is not processed yet; or else
    its own, a list that is not empty, the type being neither a union
    nor an array. *)
Definition loopsOver (typeChecker : handle -> TsType)
    (typeDefinitions : list TypeInfo) (st : State) (t : TsType)
    (properties : list PropSymbol) : Prop :=
  primitiveTag (ty_flags t) = None
  /\ literalOf t = None
  /\ ((exists typeInfo,
         namedEntry typeDefinitions t = Some typeInfo
         /\ existsb (String.eqb (symbolName t)) (processedTypes st) = false
         /\ getProperties (typeChecker (ti_type typeInfo)) = Some properties)
      \/ ((namedEntry typeDefinitions t = None
           \/ existsb (String.eqb (symbolName t)) (processedTypes st) = true
           \/ exists typeInfo,
                namedEntry typeDefinitions t = Some typeInfo
                /\ getProperties (typeChecker (ti_type typeInfo)) = None)
          /\ isUnion t = false
          /\ isArrayType t = false
          /\ getProperties t = Some properties
          /\ properties <> [])).

(** An object type that is expanded over [properties], a list that is
    not empty, by whichever block takes it: the block for objects with
    properties, or the named-type block, the entry registered under its
    name then listing these same properties. *)
Definition objectTypeOver (typeChecker : handle -> TsType)
    (typeDefinitions : list TypeInfo) (t : TsType)
    (properties : list PropSymbol) : Prop :=
  primitiveTag (ty_flags t) = None
  /\ literalOf t = None
  /\ isUnion t = false
  /\ isArrayType t = false
  /\ getProperties t = Some properties
  /\ properties <> []
  /\ (forall typeInfo,
        namedEntry typeDefinitions t = Some typeInfo ->
        getProperties (typeChecker (ti_type typeInfo)) = Some properties).

Module SampleObjects.
Import Sample.

(** [{ id: string; secret: ...; tags: string[] }], the type of [secret]
    being one the checker throws on. *)
Definition recordProperties : list PropSymbol :=
  [field "id" 1; brokenField "secret" "cannot resolve"; field "tags" 2].

Definition recordChecker (h : handle) : TsType :=
  match h with
  | 0 => plain (Some 1) (named "__type" 11) TypeFlags.Object
           (Some recordProperties) "{ id: string; ... }"
  | 1 => stringType 2
  | _ => arrayType (Some 3) 1 "string[]"
  end.

(** [interface Pair { left: Leaf; right: Leaf }] over
    [interface Leaf { v: string }]. *)
Definition pairProperties : list PropSymbol := [field "left" 1; field "right" 1].
Definition leafProperties : list PropSymbol := [field "v" 2].

Definition diamondChecker (h : handle) : TsType :=
  match h with
  | 0 => interfaceType 1 "Pair" pairProperties
  | 1 => interfaceType 2 "Leaf" leafProperties
  | _ => stringType 3
  end.

Definition diamondDefinitions : list TypeInfo :=
  [exportedInterface "Pair" 0; exportedInterface "Leaf" 1].

(** The same with [interface Leaf {}], a named type without
    properties. *)
Definition emptyLeafChecker (h : handle) : TsType :=
  match h with
  | 0 => interfaceType 1 "Pair" pairProperties
  | 1 => interfaceType 2 "Leaf" []
  | _ => stringType 3
  end.
End SampleObjects.

(** The last character of a text is neither a slash nor a star (or the
    text is empty), so that no match of the delimiter expression can
    begin in it and end beyond it. *)
Definition isSlashOrStar (c : ascii) : bool :=
  Ascii.eqb c "/" || Ascii.eqb c "*".

Fixpoint endsPlain (s : string) : bool :=
  match s with
  | EmptyString => true
  | String c rest =>
      match rest with
      | EmptyString => negb (isSlashOrStar c)
      | String _ _ => endsPlain rest
      end
  end.

Definition delimiters : list string := ["/*"; "*/"; "//"].

Module SampleDeep.
Import Sample.

(** [interface Box<T> { next: Box<T[]> }] as the checker unfolds
    it: every instantiation is a type object with an id of its own, and
    its property has the next instantiation as its type. *)
Definition expandingChecker (h : handle) : TsType :=
  plain (Some (S h)) (named "Box" 99) TypeFlags.Object
    (Some [field "next" (S h)]) "Box".
End SampleDeep.

Module SampleRandom.
(** A source of tokens that yields the same one every time. *)
Definition repeatedToken (k : nat) : string := "k3x9qa".
End SampleRandom.

(* ================================================================== *)
(** ** Notions for the remaining functions *)
(* ================================================================== *)

(** A path that the walk from [root] may add to the list: the name of a
    file ending in [.ts], joined to the root or to a directory that is
    not excluded, the whole containing [/src/]. *)
Definition collectable (pathJoin : string -> string -> string)
    (root path : string) : Prop :=
  exists dir file,
    path = pathJoin dir file
    /\ endsWith file ".ts" = true
    /\ JsString.includes path "/src/" = true
    /\ (dir = root \/ isExcluded dir = false).

Definition isFileNode (node : FsNode) : bool :=
  match node with
  | FsFile => true
  | FsDirectory _ => false
  end.

(** The files that lie in [dir] itself and pass the test of the walk. *)
Definition ownFiles (pathJoin : string -> string -> string) (dir : string)
    (files : list (string * FsNode)) : list string :=
  map (fun entry => pathJoin dir (fst entry))
    (filter (fun entry =>
               isFileNode (snd entry)
               && endsWith (fst entry) ".ts"
               && JsString.includes (pathJoin dir (fst entry)) "/src/")
       files).

Module SampleFiles.
(** [path.join] on a directory without trailing slash and a plain name. *)
Definition joinWithSlash (dir file : string) : string :=
  (dir ++ "/" ++ file)%string.

(** A project with [src/api/users.ts], [src/index.ts], [README.md] and
    [node_modules/pkg/src/index.ts]. *)
Definition projectTree : list (string * FsNode) :=
  [("README.md", FsFile);
   ("src", FsDirectory [("api", FsDirectory [("users.ts", FsFile)]);
                        ("index.ts", FsFile)]);
   ("node_modules",
    FsDirectory [("pkg", FsDirectory [("src",
                   FsDirectory [("index.ts", FsFile)])])])].
End SampleFiles.

(** The entry that a node contributes to [typeDefinitions]: that of an
    exported type alias or interface declaration. *)
Definition declaredType (sourceFile : SourceFile) (node : Node)
    : option (string * TypeInfo) :=
  match node with
  | TypeAliasDeclaration true typeName type
  | InterfaceDeclaration true typeName type =>
      Some (typeName,
            {| ti_name := typeName; ti_type := type;
               ti_file := fileName sourceFile |})
  | _ => None
  end.

(** The exported type declarations of a program, in the order of the
    scan: file by file, skipped files left out, node by node. *)
Definition declarationsOf (program : list SourceFile)
    : list (string * TypeInfo) :=
  flat_map
    (fun sourceFile =>
       if skippedFile sourceFile then []
       else flat_map (fun node => match declaredType sourceFile node with
                                  | Some d => [d]
                                  | None => []
                                  end)
                     (nodes sourceFile))
    program.

(** Setting a list of keys one after the other. *)
Definition setAll {V} (obj : JsObject V) (entries : list (string * V))
    : JsObject V :=
  fold_left (fun o entry => obj_set o (fst entry) (snd entry)) entries obj.

Module SampleDeclarations.
(** Two files that both export a type [User], a declaration that is not
    exported, and a declaration file. *)
Definition redeclaringProgram : list SourceFile :=
  [{| isDeclarationFile := false; fileName := "/app/src/a.ts";
      nodes := [InterfaceDeclaration true "User" 0;
                TypeAliasDeclaration false "Hidden" 1;
                TypeAliasDeclaration true "Id" 2] |};
   {| isDeclarationFile := true; fileName := "/app/src/globals.d.ts";
      nodes := [InterfaceDeclaration true "Window" 3] |};
   {| isDeclarationFile := false; fileName := "/app/src/b.ts";
      nodes := [OtherNode; InterfaceDeclaration true "User" 4] |}].
End SampleDeclarations.

(** The name under which a node becomes an action, and the text of its
    marker comment: the node is an exported function declaration with a
    name, and [commentText] is the first of its leading comments that
    contains the marker. *)
Definition markedFunction (node : Node) : option (string * string) :=
  match node with
  | FunctionDeclaration true (Some functionName) (Some commentRanges) _ =>
      match find (fun comment => JsString.includes comment marker)
                 commentRanges with
      | Some commentText => Some (functionName, commentText)
      | None => None
      end
  | _ => None
  end.

(** The marked functions of a program with the names of their files, in
    the order of the scan. *)
Definition markedFunctions (program : list SourceFile)
    : list (string * string) :=
  flat_map
    (fun sourceFile =>
       if skippedFile sourceFile then []
       else flat_map (fun node => match markedFunction node with
                                  | Some (functionName, _) =>
                                      [(functionName, fileName sourceFile)]
                                  | None => []
                                  end)
                     (nodes sourceFile))
    program.

(** The marked functions of a program with the text of their marker
    comment, in the order of the scan. *)
Definition markedComments (program : list SourceFile)
    : list (string * string) :=
  flat_map
    (fun sourceFile =>
       if skippedFile sourceFile then []
       else flat_map (fun node => match markedFunction node with
                                  | Some marked => [marked]
                                  | None => []
                                  end)
                     (nodes sourceFile))
    program.

(** [obj[key] = v] on a plain object makes or updates an own property
    under every key but [__proto__], which names the prototype of the
    object; what is stated of the keys of [typeRegistry] and of
    [parameters] is stated of the other keys. *)
Definition ownKey (key : string) : Prop := key <> "__proto__".

(** Name and module of an action. *)
Definition actionKey (action : Action) : string * string :=
  (action_name action, action_module action).

(** The action of the function [functionName] whose marker comment is
    [commentText]: its description is not empty, and it is what
    [descriptionOf] makes of that comment or, that being empty,
    [Execute] and the name of the function. *)
Definition describedBy (action : Action) (marked : string * string) : Prop :=
  let (functionName, commentText) := marked in
  action_name action = functionName
  /\ JsString.truthy (action_description action) = true
  /\ (action_description action = descriptionOf commentText
      \/ (descriptionOf commentText = EmptyString
          /\ action_description action = ("Execute " ++ functionName)%string)).

(** The encoding in UTF-8 of a character below U+10000. *)
Definition utf8 (codePoint : N) : string :=
  if (codePoint <? 128)%N then String (ascii_of_N codePoint) EmptyString
  else if (codePoint <? 2048)%N then
    String (ascii_of_N (192 + codePoint / 64))
      (String (ascii_of_N (128 + codePoint mod 64)) EmptyString)
  else
    String (ascii_of_N (224 + codePoint / 4096))
      (String (ascii_of_N (128 + (codePoint / 64) mod 64))
         (String (ascii_of_N (128 + codePoint mod 64)) EmptyString)).

(** What [String.prototype.trim] strips: the white space of ECMAScript
    (TAB, VT, FF, the byte order mark U+FEFF and the space separators
    of Unicode: SPACE, U+00A0, U+1680, U+2000 to U+200A, U+202F, U+205F,
    U+3000) and its line terminators (LF, CR, U+2028, U+2029). *)
Definition whiteSpaceCodePoints : list N :=
  [9; 10; 11; 12; 13; 32; 160; 5760;
   8192; 8193; 8194; 8195; 8196; 8197; 8198; 8199; 8200; 8201; 8202;
   8232; 8233; 8239; 8287; 12288; 65279]%N.

Definition whiteSpaceCharacters : list string := map utf8 whiteSpaceCodePoints.

(** The no-break space U+00A0 and the line separator U+2028. *)
Definition noBreakSpace : string := utf8 160.
Definition lineSeparator : string := utf8 8232.

Module SampleActions.
Import Sample.

(** [createUser(user: User, note)] and [ping()] are marked; [helper] has
    no marker, [hidden] is not exported. *)
Definition userChecker (h : handle) : TsType :=
  match h with
  | 0 => interfaceType 1 "User" [field "id" 1; field "tags" 2]
  | 1 => plain (Some 2) None TypeFlags.Number None "number"
  | 2 => arrayType (Some 3) 3 "string[]"
  | 3 => stringType 4
  | _ => plain (Some 5) None TypeFlags.Any None "any"
  end.

Definition userProgram : list SourceFile :=
  [{| isDeclarationFile := false; fileName := "/app/src/users.ts";
      nodes :=
        [InterfaceDeclaration true "User" 0;
         FunctionDeclaration true (Some "createUser")
           (Some ["// plain remark"; "/** @abra-action Create a user */"])
           [{| param_name := "user"; param_typeText := Some "User";
               param_type := 0 |};
            {| param_name := "note"; param_typeText := None;
               param_type := 4 |}];
         FunctionDeclaration true (Some "helper")
           (Some ["// no marker here"]) [];
         FunctionDeclaration false (Some "hidden")
           (Some ["// @abra-action"]) [];
         FunctionDeclaration true (Some "ping")
           (Some ["// @abra-action"]) [];
         FunctionDeclaration true (Some "pause")
           (Some [("// @abra-action" ++ noBreakSpace)%string]) []] |}].

(** The registry of that program, and the parameters of a function
    [schedule(user: User, when: valueOf, note)]: [valueOf] is the name
    of no registered type. *)
Definition userRegistry : JsObject RegistryEntry :=
  [("User", {| structure := JObject [("id", JString "number")];
               file := "/app/src/users.ts" |})].

Definition userParameters : list ParameterDeclaration :=
  [{| param_name := "user"; param_typeText := Some "User"; param_type := 0 |};
   {| param_name := "when"; param_typeText := Some "valueOf"; param_type := 4 |};
   {| param_name := "note"; param_typeText := None; param_type := 4 |}].
End SampleActions.

(** A computation whose final state is related to its initial one. *)
Definition preserves (R : State -> State -> Prop) {A} (m : M A) : Prop :=
  forall st, R st (snd (m st)).

(** A name under which a type definition is registered and which is not
    that of a built-in type. *)
Definition registeredName (typeDefinitions : list TypeInfo) (typeName : string)
    : Prop :=
  isBuiltInType typeName = false
  /\ exists typeInfo, In typeInfo typeDefinitions /\ ti_name typeInfo = typeName.

(** The names processed in [st'] were so in [st] or are registered. *)
Definition processesRegistered (typeDefinitions : list TypeInfo)
    (st st' : State) : Prop :=
  forall typeName,
    In typeName (processedTypes st') ->
    In typeName (processedTypes st) \/ registeredName typeDefinitions typeName.

(** [Math.random] is not called between [st] and [st']. *)
Definition drawsNothing (st st' : State) : Prop :=
  randomCalls st' = randomCalls st.

Module SampleBuiltIn.
Import Sample.
(** A project that exports its own [interface Map { size: number }]. *)
Definition mapChecker (h : handle) : TsType :=
  match h with
  | 0 => interfaceType 1 "Map" [field "size" 1]
  | _ => plain (Some 2) None TypeFlags.Number None "number"
  end.
Definition mapDefinitions : list TypeInfo := [exportedInterface "Map" 0].
End SampleBuiltIn.

(** A type object that passes the tests on flags, the literal block and
    the named-type block, is no union, and enters the array block. *)
Definition reachesArrayBlock (typeDefinitions : list TypeInfo) (t : TsType) : Prop :=
  primitiveTag (ty_flags t) = None
  /\ literalOf t = None
  /\ namedEntry typeDefinitions t = None
  /\ isUnion t = false
  /\ isArrayType t = true.

(** Array types nested in one another: the first type argument of each
    is the next one, that of the last is [element]. *)
Fixpoint arrayChain (typeChecker : handle -> TsType)
    (typeDefinitions : list TypeInfo) (arrays : list handle)
    (element : handle) : Prop :=
  match arrays with
  | [] => True
  | h :: rest =>
      reachesArrayBlock typeDefinitions (typeChecker h)
      /\ (exists typeArguments,
            getTypeArguments (typeChecker h) = Ok typeArguments
            /\ hd_error typeArguments = Some (hd element rest))
      /\ arrayChain typeChecker typeDefinitions rest element
  end.

(** [{ type: 'array', items: ... }] nested [depth] times around [items]. *)
Fixpoint nestedArray (depth : nat) (items : SchemaValue) : SchemaValue :=
  match depth with
  | 0 => items
  | S depth' => arrayOf (nestedArray depth' items)
  end.

Module SampleArrays.
Import Sample.
(** [number[][]] *)
Definition matrixChecker (h : handle) : TsType :=
  match h with
  | 0 => arrayType (Some 1) 1 "number[][]"
  | 1 => arrayType (Some 2) 2 "number[]"
  | _ => plain (Some 3) None TypeFlags.Number None "number"
  end.
End SampleArrays.

(** A text without slash and star. *)
Fixpoint noSlashStar (s : string) : bool :=
  match s with
  | EmptyString => true
  | String c rest => negb (isSlashOrStar c) && noSlashStar rest
  end.

(** The same in the terms of [trim]: the text begins with a white
    space character. *)
Definition startsWithWhiteSpace (s : string) : bool :=
  negb (Nat.eqb (JsString.whiteSpaceAt s) 0).

(** The text is one white space character. *)
Definition isWhiteSpaceCharacter (s : string) : bool :=
  startsWithWhiteSpace s && Nat.eqb (String.length s) (JsString.whiteSpaceAt s).

(** The text ends with a white space character. *)
Fixpoint endsWithWhiteSpace (s : string) : bool :=
  isWhiteSpaceCharacter s
  || match s with
     | EmptyString => false
     | String _ rest => endsWithWhiteSpace rest
     end.


(* ================================================================== *)
(** ** Objects *)
(* ================================================================== *)

Lemma obj_get_set_same {V} (obj : JsObject V) key v :
  obj_get (obj_set obj key v) key = Some v.
Proof.
  induction obj as [|[k w] rest IH]; simpl.
  - now rewrite String.eqb_refl.
  - destruct (String.eqb k key) eqn:E; simpl; rewrite E; auto.
Qed.

Lemma obj_get_set_other {V} (obj : JsObject V) key key' v :
  key <> key' -> obj_get (obj_set obj key v) key' = obj_get obj key'.
Proof.
  intros Hne. induction obj as [|[k w] rest IH]; simpl.
  - destruct (String.eqb_spec key key'); congruence.
  - destruct (String.eqb_spec k key) as [->|Hk]; simpl.
    + destruct (String.eqb_spec key key'); congruence.
    + now rewrite IH.
Qed.

(* ================================================================== *)
(** ** One turn of the property loop *)
(* ================================================================== *)

Lemma isLikelyMethod_call typeChecker prop :
  isLikelyMethod typeChecker prop = call (likelyMethod typeChecker prop).
Proof.
  unfold isLikelyMethod, likelyMethod.
  destruct (valueDeclaration prop); simpl; [|reflexivity].
  destruct (getTypeOfSymbol prop) as [[h|]|e]; reflexivity.
Qed.

Lemma propertyStep_fate typeChecker recurse visited structure prop st :
  propertyStep typeChecker recurse visited structure prop st =
  match propFate typeChecker prop with
  | Skipped => (Return structure, st)
  | Failed e => (Return structure, addWarning (WarnProperty e) st)
  | Resolved propType =>
      match recurse propType visited st with
      | (Return v, st') => (Return (obj_set structure (getName prop) v), st')
      | (Throw e, st') => (Return structure, addWarning (WarnProperty e) st')
      end
  end.
Proof.
  unfold propertyStep, propFate, try_catch.
  destruct (JsString.startsWith (getName prop) "__"); [reflexivity|].
  rewrite isLikelyMethod_call.
  destruct (likelyMethod typeChecker prop) as [[|]|e]; try reflexivity.
  unfold bind, call, ret, console_warn; simpl.
  destruct (if valueDeclaration prop then getTypeOfSymbolAtLocation prop
            else getTypeOfSymbol prop) as [t|e]; simpl; [|reflexivity].
  destruct (recurse t visited st) as [[v|e] st']; reflexivity.
Qed.

Lemma propertyLoop_cons typeChecker recurse visited prop rest structure st :
  propertyLoop typeChecker recurse visited (prop :: rest) structure st =
  match propertyStep typeChecker recurse visited structure prop st with
  | (Return structure', st') =>
      propertyLoop typeChecker recurse visited rest structure' st'
  | (Throw e, st') => (Throw e, st')
  end.
Proof. reflexivity. Qed.

(* ================================================================== *)
(** ** Where exceptions are caught *)
(* ================================================================== *)

Lemma returns_neverThrows {A} (m : M A) :
  (forall st, returns m st) -> neverThrows m.
Proof. intros H st e. destruct (H st) as [a [st' ->]]. discriminate. Qed.

(** A turn of the loop, the loop and the array block return, whatever
    the descent does. *)
Lemma propertyStep_returns typeChecker recurse visited structure prop st :
  returns (propertyStep typeChecker recurse visited structure prop) st.
Proof.
  unfold returns. rewrite propertyStep_fate.
  destruct (propFate typeChecker prop) as [| |t]; eauto.
  destruct (recurse t visited st) as [[v|e] st']; eauto.
Qed.

Lemma propertyLoop_returns typeChecker recurse visited properties :
  forall structure st,
    returns (propertyLoop typeChecker recurse visited properties structure) st.
Proof.
  induction properties as [|prop rest IH]; intros structure st.
  - unfold returns. simpl. unfold ret. eauto.
  - unfold returns. rewrite propertyLoop_cons.
    destruct (propertyStep_returns typeChecker recurse visited structure prop st)
      as [s' [st' ->]].
    apply IH.
Qed.

Lemma serializeArray_returns recurse visited type st :
  returns (serializeArray recurse visited type) st.
Proof.
  unfold returns, serializeArray, try_catch, bind, call, ret, console_warn.
  destruct (getTypeArguments type) as [args|msg]; simpl; [|eauto].
  destruct (recurse (hd_error args) visited st) as [[v|e] st']; eauto.
Qed.

Lemma propertyStep_neverThrows typeChecker recurse visited structure prop :
  neverThrows (propertyStep typeChecker recurse visited structure prop).
Proof. apply returns_neverThrows. intros st. apply propertyStep_returns. Qed.

Lemma propertyLoop_neverThrows typeChecker recurse visited properties structure :
  neverThrows (propertyLoop typeChecker recurse visited properties structure).
Proof. apply returns_neverThrows. intros st. apply propertyLoop_returns. Qed.

Lemma serializeArray_neverThrows recurse visited type :
  neverThrows (serializeArray recurse visited type).
Proof. apply returns_neverThrows. intros st. apply serializeArray_returns. Qed.

Lemma serializeType_step typeChecker random typeDefinitions fuel h visited st :
  serializeType typeChecker random typeDefinitions (S fuel) (Some h) visited st =
  match stableId (typeChecker h) with
  | Some n =>
      if visited_has visited (IdNum n) then (Return any, st)
      else serializeUnvisited typeChecker typeDefinitions
             (serializeType typeChecker random typeDefinitions fuel)
             (IdNum n :: visited) (typeChecker h) st
  | None =>
      let token := IdToken (random (randomCalls st)) in
      if visited_has visited token then (Return any, countRandom st)
      else serializeUnvisited typeChecker typeDefinitions
             (serializeType typeChecker random typeDefinitions fuel)
             (token :: visited) (typeChecker h) (countRandom st)
  end.
Proof.
  cbn [serializeType]. unfold typeIdOf.
  destruct (stableId (typeChecker h)) as [n|].
  - unfold bind, ret. destruct (visited_has visited (IdNum n)); reflexivity.
  - unfold bind, mathRandomToken, ret. cbv zeta.
    destruct (visited_has visited _); reflexivity.
Qed.

(* ================================================================== *)
(** ** When [serializeType] returns *)
(* ================================================================== *)

Lemma Ident_eqb_eq a b : Ident_eqb a b = true <-> a = b.
Proof.
  destruct a as [n|s], b as [m|t]; simpl; split; intros H;
    try discriminate; try congruence.
  - apply Nat.eqb_eq in H. congruence.
  - inversion H. apply Nat.eqb_refl.
  - apply String.eqb_eq in H. congruence.
  - inversion H. apply String.eqb_refl.
Qed.

Lemma visited_has_cons visited i j :
  visited_has (i :: visited) j = Ident_eqb j i || visited_has visited j.
Proof. reflexivity. Qed.

Lemma filter_length_le {A} (f g : A -> bool) l :
  (forall x, f x = true -> g x = true) ->
  List.length (filter f l) <= List.length (filter g l).
Proof.
  intros Hfg. induction l as [|x l IH]; simpl; [lia|].
  destruct (f x) eqn:Ef.
  - rewrite (Hfg x Ef). simpl. lia.
  - destruct (g x); simpl; lia.
Qed.

Lemma filter_length_le_all {A} (f : A -> bool) l :
  List.length (filter f l) <= List.length l.
Proof.
  induction l as [|x l IH]; simpl; [lia|]. destruct (f x); simpl; lia.
Qed.

Lemma filter_length_lt {A} (f g : A -> bool) l x :
  (forall y, f y = true -> g y = true) ->
  In x l -> f x = false -> g x = true ->
  List.length (filter f l) < List.length (filter g l).
Proof.
  intros Hfg Hin Hf Hg. induction l as [|y l IH]; simpl; [contradiction|].
  destruct Hin as [->|Hin].
  - rewrite Hf, Hg. simpl.
    pose proof (filter_length_le f g l Hfg). lia.
  - specialize (IH Hin). destruct (f y) eqn:Ef.
    + rewrite (Hfg y Ef). simpl. lia.
    + destruct (g y); simpl; lia.
Qed.

Lemma unvisited_cons_lt universe visited n :
  In n universe ->
  visited_has visited (IdNum n) = false ->
  List.length (unvisited universe (IdNum n :: visited))
  < List.length (unvisited universe visited).
Proof.
  intros Hin Hfresh. unfold unvisited.
  apply filter_length_lt with (x := n); auto.
  - intros y. rewrite visited_has_cons.
    destruct (visited_has visited (IdNum y)); [|reflexivity].
    now rewrite orb_true_r.
  - rewrite visited_has_cons. simpl. now rewrite Nat.eqb_refl.
  - now rewrite Hfresh.
Qed.

Lemma unvisited_length universe visited :
  List.length (unvisited universe visited) <= List.length universe.
Proof. unfold unvisited. apply filter_length_le_all. Qed.

Section Returns.
Variable typeChecker : handle -> TsType.
Variable typeDefinitions : list TypeInfo.
Variable recurse : option handle -> list Ident -> M SchemaValue.
Variable visited : list Ident.
Variable type : TsType.
(** The one descent that no [try] guards is that of the union block. *)
Hypothesis members_return :
  isUnion type = true ->
  forall m st, In m (ty_types type) -> returns (recurse (Some m) visited) st.

Lemma serializeUnion_returns st :
  isUnion type = true ->
  returns (serializeUnion typeChecker recurse visited type) st.
Proof.
  intros Hunion. unfold serializeUnion.
  destruct (forallb _ _); [unfold returns, ret; eauto|].
  destruct (_ && _); [unfold returns, ret; eauto|].
  destruct (find _ _) as [m|] eqn:Hfind; [|unfold returns, ret; eauto].
  apply find_some in Hfind as [Hin _]. now apply members_return.
Qed.

Lemma serializeStructural_returns st :
  returns (serializeStructural typeChecker recurse visited type) st.
Proof.
  unfold serializeStructural.
  destruct (bool_dec (isUnion type) true) as [Hunion|Hunion];
    [rewrite Hunion; now apply serializeUnion_returns|].
  apply not_true_is_false in Hunion. rewrite Hunion.
  destruct (isArrayType type); [apply serializeArray_returns|].
  destruct (getProperties type) as [[|prop rest]|];
    try (unfold returns, ret; eauto; fail).
  unfold returns, bind, ret.
  destruct (propertyLoop_returns typeChecker recurse visited (prop :: rest) [] st)
    as [s [st' ->]]. eauto.
Qed.

Lemma serializeNamed_returns st :
  returns (serializeNamed typeChecker typeDefinitions recurse visited type) st.
Proof.
  unfold serializeNamed.
  destruct (namedEntry typeDefinitions type) as [typeInfo|];
    [|apply serializeStructural_returns].
  unfold returns, bind at 1, processed_has.
  destruct (existsb _ _); [apply serializeStructural_returns|].
  unfold bind at 1, processed_add.
  destruct (getProperties (typeChecker (ti_type typeInfo))) as [props|];
    [|apply serializeStructural_returns].
  unfold bind, ret.
  destruct (propertyLoop_returns typeChecker recurse visited props []
              (addProcessed (symbolName type) st)) as [s [st' ->]]. eauto.
Qed.

Lemma serializeUnvisited_returns st :
  returns (serializeUnvisited typeChecker typeDefinitions recurse visited type) st.
Proof.
  unfold serializeUnvisited.
  destruct (primitiveTag _); [unfold returns, ret; eauto|].
  destruct (literalOf _); [unfold returns, ret; eauto|].
  apply serializeNamed_returns.
Qed.
End Returns.

(** On a type graph with finitely many identities the recursion ends
    before the stack does, given room beyond their number. *)
Lemma serializeType_returns typeChecker random typeDefinitions universe :
  finiteIdentities typeChecker universe ->
  forall fuel visited,
    List.length (unvisited universe visited) < fuel ->
    forall type st,
      returns (serializeType typeChecker random typeDefinitions fuel type visited) st.
Proof.
  intros Hfin. induction fuel as [|fuel IH]; intros visited Hfuel type st; [lia|].
  destruct type as [h|]; [|unfold returns; simpl; unfold ret; eauto].
  unfold returns. rewrite serializeType_step.
  destruct (Hfin h) as [n [Hid Hin]]. rewrite Hid.
  destruct (visited_has visited (IdNum n)) eqn:Hvis; [eauto|].
  apply serializeUnvisited_returns. intros _ m st0 _. apply IH.
  pose proof (unvisited_cons_lt universe visited n Hin Hvis). lia.
Qed.

(** A type that is no union is serialised to a value wherever there is
    room for the call: every descent from it is inside a [try]. *)
Lemma serializeType_returns_plain
    typeChecker random typeDefinitions fuel h visited st :
  isUnion (typeChecker h) = false ->
  returns (serializeType typeChecker random typeDefinitions (S fuel) (Some h)
             visited) st.
Proof.
  intros Hplain. unfold returns. rewrite serializeType_step.
  destruct (stableId (typeChecker h)) as [n|]; cbv zeta;
    (destruct (visited_has visited _); [eauto|]);
    apply serializeUnvisited_returns; intros Hunion; congruence.
Qed.

(** With unions flat, any type is serialised to a value where there is
    room for two calls. *)
Lemma serializeType_returns_flat typeChecker random typeDefinitions :
  flatUnions typeChecker ->
  forall fuel type visited st,
    returns (serializeType typeChecker random typeDefinitions (S (S fuel)) type
               visited) st.
Proof.
  intros Hflat fuel [h|] visited st; [|unfold returns; simpl; unfold ret; eauto].
  unfold returns. rewrite serializeType_step.
  destruct (stableId (typeChecker h)) as [n|]; cbv zeta;
    (destruct (visited_has visited _); [eauto|]);
    apply serializeUnvisited_returns; intros Hunion m st0 Hin;
    apply serializeType_returns_plain; now apply (Hflat h).
Qed.

(* ================================================================== *)
(** ** Running the same code under two circumstances *)
(* ================================================================== *)

Section Related.
Variable calls : nat.

Lemma related_same {A} (r : Outcome A * State) :
  calls <= randomCalls (snd r) -> related calls r r.
Proof. intros H. split; [reflexivity|assumption]. Qed.

Lemma related_bind {A B} (m1 m2 : M A) (k1 k2 : A -> M B) st1 st2 :
  related calls (m1 st1) (m2 st2) ->
  (forall a st', calls <= randomCalls st' ->
                 related calls (k1 a st') (k2 a st')) ->
  related calls (bind m1 k1 st1) (bind m2 k2 st2).
Proof.
  intros [Heq Hc] Hk. unfold bind. rewrite <- Heq.
  destruct (m1 st1) as [[a|e] st']; simpl in Hc.
  - now apply Hk.
  - now apply related_same.
Qed.

Lemma related_try_catch {A} (b1 b2 : M A) (h1 h2 : string -> M A) st1 st2 :
  related calls (b1 st1) (b2 st2) ->
  (forall e st', calls <= randomCalls st' ->
                 related calls (h1 e st') (h2 e st')) ->
  related calls (try_catch b1 h1 st1) (try_catch b2 h2 st2).
Proof.
  intros [Heq Hc] Hh. unfold try_catch. rewrite <- Heq.
  destruct (b1 st1) as [[a|e] st']; simpl in Hc.
  - now apply related_same.
  - now apply Hh.
Qed.

Lemma related_ret {A} (a : A) st :
  calls <= randomCalls st -> related calls (ret a st) (ret a st).
Proof. intros H. now apply related_same. Qed.

Variable typeChecker : handle -> TsType.
Variable typeDefinitions : list TypeInfo.
Variables recurse1 recurse2 : option handle -> list Ident -> M SchemaValue.
Variables visited1 visited2 : list Ident.
Hypothesis recurse_related :
  forall t st, calls <= randomCalls st ->
               related calls (recurse1 t visited1 st) (recurse2 t visited2 st).

Lemma propertyStep_related structure prop st :
  calls <= randomCalls st ->
  related calls
    (propertyStep typeChecker recurse1 visited1 structure prop st)
    (propertyStep typeChecker recurse2 visited2 structure prop st).
Proof.
  intros Hst. rewrite !propertyStep_fate.
  destruct (propFate typeChecker prop) as [| |t]; try now apply related_same.
  destruct (recurse_related t st Hst) as [Heq Hc].
  rewrite <- Heq. destruct (recurse1 t visited1 st) as [[v|e] st'];
    simpl in Hc; now apply related_same.
Qed.

Lemma propertyLoop_related properties :
  forall structure st,
    calls <= randomCalls st ->
    related calls
      (propertyLoop typeChecker recurse1 visited1 properties structure st)
      (propertyLoop typeChecker recurse2 visited2 properties structure st).
Proof.
  induction properties as [|prop rest IH]; intros structure st Hst.
  - now apply related_ret.
  - cbn [propertyLoop]. apply related_bind.
    + now apply propertyStep_related.
    + intros s' st' Hst'. now apply IH.
Qed.

Lemma serializeUnion_related type st :
  calls <= randomCalls st ->
  related calls
    (serializeUnion typeChecker recurse1 visited1 type st)
    (serializeUnion typeChecker recurse2 visited2 type st).
Proof.
  intros Hst. unfold serializeUnion.
  destruct (forallb _ _); [now apply related_ret|].
  destruct (_ && _); [now apply related_ret|].
  destruct (find _ _); [now apply recurse_related|now apply related_ret].
Qed.

Lemma serializeArray_related type st :
  calls <= randomCalls st ->
  related calls
    (serializeArray recurse1 visited1 type st)
    (serializeArray recurse2 visited2 type st).
Proof.
  intros Hst. unfold serializeArray. apply related_try_catch.
  - apply related_bind.
    + apply related_same. destruct (getTypeArguments type); assumption.
    + intros args st' Hst'. apply related_bind.
      * now apply recurse_related.
      * intros v st'' Hst''. now apply related_ret.
  - intros e st' Hst'. apply related_bind.
    + now apply related_same.
    + intros _ st'' Hst''. now apply related_ret.
Qed.

Lemma serializeStructural_related type st :
  calls <= randomCalls st ->
  related calls
    (serializeStructural typeChecker recurse1 visited1 type st)
    (serializeStructural typeChecker recurse2 visited2 type st).
Proof.
  intros Hst. unfold serializeStructural.
  destruct (isUnion type); [now apply serializeUnion_related|].
  destruct (isArrayType type); [now apply serializeArray_related|].
  destruct (getProperties type) as [[|prop rest]|];
    try now apply related_ret.
  apply related_bind.
  - now apply propertyLoop_related.
  - intros s st' Hst'. now apply related_ret.
Qed.

Lemma serializeNamed_related type st :
  calls <= randomCalls st ->
  related calls
    (serializeNamed typeChecker typeDefinitions recurse1 visited1 type st)
    (serializeNamed typeChecker typeDefinitions recurse2 visited2 type st).
Proof.
  intros Hst. unfold serializeNamed.
  destruct (namedEntry typeDefinitions type) as [typeInfo|];
    [|now apply serializeStructural_related].
  apply related_bind; [now apply related_same|].
  intros processed st' Hst'.
  destruct processed; [now apply serializeStructural_related|].
  apply related_bind; [now apply related_same|].
  intros _ st'' Hst''.
  destruct (getProperties (typeChecker (ti_type typeInfo))) as [props|];
    [|now apply serializeStructural_related].
  apply related_bind.
  - now apply propertyLoop_related.
  - intros s st3 Hst3. now apply related_ret.
Qed.

Lemma serializeUnvisited_related type st :
  calls <= randomCalls st ->
  related calls
    (serializeUnvisited typeChecker typeDefinitions recurse1 visited1 type st)
    (serializeUnvisited typeChecker typeDefinitions recurse2 visited2 type st).
Proof.
  intros Hst. unfold serializeUnvisited.
  destruct (primitiveTag _); [now apply related_ret|].
  destruct (literalOf _); [now apply related_ret|].
  now apply serializeNamed_related.
Qed.
End Related.

Lemma related_weaken calls calls' {A} (r1 r2 : Outcome A * State) :
  calls <= calls' -> related calls' r1 r2 -> related calls r1 r2.
Proof. intros Hle [Heq Hc]. split; [assumption|lia]. Qed.

Lemma related_exact calls {A} (r1 r2 : Outcome A * State) :
  related calls r1 r2 -> r1 = r2.
Proof. intros [Heq _]. assumption. Qed.


(* ================================================================== *)
(** ** The tokens of [Math.random] do not show in the result *)
(* ================================================================== *)

Lemma visited_has_pathOf_stable random path n :
  visited_has (pathOf random path) (IdNum n) =
  existsb (fun e => match e with
                    | StableEntry m => Nat.eqb n m
                    | DrawnEntry _ => false
                    end) path.
Proof.
  unfold visited_has, pathOf.
  induction path as [|[m|k] path IH]; simpl; [reflexivity| |]; now rewrite IH.
Qed.

Lemma visited_has_pathOf_fresh random path calls :
  distinctTokens random -> drawnBefore calls path ->
  visited_has (pathOf random path) (IdToken (random calls)) = false.
Proof.
  intros Hdist Hb. unfold visited_has, pathOf.
  induction path as [|[m|k] path IH]; simpl; [reflexivity| |].
  - apply IH. intros k Hk. apply Hb. now right.
  - rewrite orb_false_iff. split.
    + apply String.eqb_neq. intros Heq. apply Hdist in Heq.
      assert (k < calls) by (apply Hb; now left). lia.
    + apply IH. intros k' Hk. apply Hb. now right.
Qed.

Lemma drawnBefore_mono calls calls' path :
  calls <= calls' -> drawnBefore calls path -> drawnBefore calls' path.
Proof. intros Hle Hb k Hk. specialize (Hb k Hk). lia. Qed.

Section RandomIndependence.
Variable typeChecker : handle -> TsType.
Variable typeDefinitions : list TypeInfo.
Variables random1 random2 : nat -> string.
Hypothesis tokens_harmless :
  allStable typeChecker \/ (distinctTokens random1 /\ distinctTokens random2).

Lemma serializeType_random_related fuel :
  forall type path st,
    drawnBefore (randomCalls st) path ->
    related (randomCalls st)
      (serializeType typeChecker random1 typeDefinitions fuel type
         (pathOf random1 path) st)
      (serializeType typeChecker random2 typeDefinitions fuel type
         (pathOf random2 path) st).
Proof.
  induction fuel as [|fuel IH]; intros type path st Hpath.
  - apply related_same. simpl. lia.
  - destruct type as [h|]; [|apply related_ret; lia].
    rewrite !serializeType_step.
    destruct (stableId (typeChecker h)) as [n|] eqn:Hid; cbv zeta.
    + rewrite !visited_has_pathOf_stable.
      destruct (existsb _ path); [apply related_same; simpl; lia|].
      change (IdNum n :: pathOf random1 path)
        with (pathOf random1 (StableEntry n :: path)).
      change (IdNum n :: pathOf random2 path)
        with (pathOf random2 (StableEntry n :: path)).
      apply serializeUnvisited_related; [|lia].
      intros t st' Hst'.
      apply related_weaken with (calls' := randomCalls st'); [assumption|].
      apply IH. apply drawnBefore_mono with (calls := randomCalls st);
        [assumption|].
      intros k [Hk|Hk]; [discriminate|now apply Hpath].
    + destruct tokens_harmless as [Hstable|[Hd1 Hd2]];
        [now destruct (Hstable h)|].
      rewrite (visited_has_pathOf_fresh random1 path _ Hd1 Hpath).
      rewrite (visited_has_pathOf_fresh random2 path _ Hd2 Hpath).
      apply related_weaken with (calls' := randomCalls (countRandom st));
        [simpl; lia|].
      change (IdToken (random1 (randomCalls st)) :: pathOf random1 path)
        with (pathOf random1 (DrawnEntry (randomCalls st) :: path)).
      change (IdToken (random2 (randomCalls st)) :: pathOf random2 path)
        with (pathOf random2 (DrawnEntry (randomCalls st) :: path)).
      apply serializeUnvisited_related; [|lia].
      intros t st' Hst'.
      apply related_weaken with (calls' := randomCalls st'); [assumption|].
      apply IH. intros k [Hk|Hk].
      * inversion Hk. subst. simpl in Hst'. lia.
      * specialize (Hpath k Hk). simpl in Hst'. lia.
Qed.

Lemma serializeType_random_root fuel type st :
  serializeType typeChecker random1 typeDefinitions fuel type [] st =
  serializeType typeChecker random2 typeDefinitions fuel type [] st.
Proof.
  apply (related_exact (randomCalls st)).
  apply (serializeType_random_related fuel type [] st).
  intros k [].
Qed.
End RandomIndependence.

Section RandomIndependentProgram.
Variable typeChecker : handle -> TsType.
Variables random1 random2 : nat -> string.
Variable fuel : nat.
Hypothesis tokens_harmless :
  allStable typeChecker \/ (distinctTokens random1 /\ distinctTokens random2).

Lemma serializeRoot_random typeDefinitions type st :
  serializeRoot typeChecker random1 fuel typeDefinitions type st =
  serializeRoot typeChecker random2 fuel typeDefinitions type st.
Proof. unfold serializeRoot. now apply serializeType_random_root. Qed.

Lemma expandRegistry_random typeDefinitions entries :
  forall typeRegistry st,
    expandRegistry typeChecker random1 fuel typeDefinitions entries typeRegistry st =
    expandRegistry typeChecker random2 fuel typeDefinitions entries typeRegistry st.
Proof.
  induction entries as [|[typeName typeInfo] rest IH]; intros typeRegistry st;
    [reflexivity|].
  cbn [expandRegistry]. unfold bind at 1 3, processed_has.
  destruct (existsb _ _); [apply IH|].
  unfold bind. rewrite serializeRoot_random.
  destruct (serializeRoot _ _ _ _ _ st) as [[v|e] st']; auto.
Qed.

Lemma forEachParameter_random typeDefinitions typeRegistry params :
  forall parameters st,
    forEachParameter typeChecker random1 fuel typeDefinitions typeRegistry
      params parameters st =
    forEachParameter typeChecker random2 fuel typeDefinitions typeRegistry
      params parameters st.
Proof.
  induction params as [|param rest IH]; intros parameters st; [reflexivity|].
  cbn [forEachParameter]. unfold bind.
  destruct (param_typeText param) as [typeName|].
  - destruct (registryStructure typeRegistry typeName) as [registered|].
    + unfold ret. apply IH.
    + rewrite serializeRoot_random.
      destruct (serializeRoot _ _ _ _ _ st) as [[v|e] st']; auto.
  - rewrite serializeRoot_random.
    destruct (serializeRoot _ _ _ _ _ st) as [[v|e] st']; auto.
Qed.

Lemma visitFunction_random typeDefinitions typeRegistry sourceFile acts node st :
  visitFunction typeChecker random1 fuel typeDefinitions typeRegistry
    sourceFile acts node st =
  visitFunction typeChecker random2 fuel typeDefinitions typeRegistry
    sourceFile acts node st.
Proof.
  destruct node as [| |exported [functionName|] [comments|] params|];
    try reflexivity; destruct exported; try reflexivity.
  cbn [visitFunction]. destruct (find _ comments); [|reflexivity].
  unfold bind. now rewrite forEachParameter_random.
Qed.

Lemma visitNodes_random typeDefinitions typeRegistry sourceFile ns :
  forall acts st,
    visitNodes typeChecker random1 fuel typeDefinitions typeRegistry
      sourceFile ns acts st =
    visitNodes typeChecker random2 fuel typeDefinitions typeRegistry
      sourceFile ns acts st.
Proof.
  induction ns as [|node rest IH]; intros acts st; [reflexivity|].
  cbn [visitNodes]. unfold bind. rewrite visitFunction_random.
  destruct (visitFunction _ _ _ _ _ _ _ _ st) as [[a|e] st']; auto.
Qed.

Lemma visitFiles_random typeDefinitions typeRegistry program :
  forall acts st,
    visitFiles typeChecker random1 fuel typeDefinitions typeRegistry
      program acts st =
    visitFiles typeChecker random2 fuel typeDefinitions typeRegistry
      program acts st.
Proof.
  induction program as [|sourceFile rest IH]; intros acts st; [reflexivity|].
  cbn [visitFiles]. destruct (skippedFile sourceFile); [apply IH|].
  unfold bind. rewrite visitNodes_random.
  destruct (visitNodes _ _ _ _ _ _ _ _ st) as [[a|e] st']; auto.
Qed.

Lemma generateActionsJson_random program st :
  generateActionsJson typeChecker random1 fuel program st =
  generateActionsJson typeChecker random2 fuel program st.
Proof.
  unfold generateActionsJson, bind. rewrite expandRegistry_random.
  destruct (expandRegistry _ _ _ _ _ _ st) as [[reg|e] st']; auto.
  rewrite visitFiles_random. reflexivity.
Qed.
End RandomIndependentProgram.

(* ================================================================== *)
(** ** Unwrapping an optional type *)
(* ================================================================== *)


Section Unwrapping.
Variable typeChecker : handle -> TsType.
Variable random : nat -> string.
Variable typeDefinitions : list TypeInfo.
Variable universe : list nat.
Hypothesis finite : finiteIdentities typeChecker universe.
(** The union, the member it unwraps to, and their identities. *)
Variables (hU hT : handle) (iU iT : nat).
Hypothesis idU : stableId (typeChecker hU) = Some iU.
Hypothesis idT : stableId (typeChecker hT) = Some iT.
Hypothesis idU_own :
  forall h, stableId (typeChecker h) = Some iU -> typeChecker h = typeChecker hU.
Hypothesis idT_other : iT <> iU.
(** The union reaches the union block and unwraps to [hT]. *)
Hypothesis unwraps :
  forall recurse visited st,
    serializeUnvisited typeChecker typeDefinitions recurse visited
      (typeChecker hU) st
    = recurse (Some hT) visited st.



End Unwrapping.


(* ================================================================== *)
(** ** The state only accumulates *)
(* ================================================================== *)

Lemma grows_refl st : grows st st.
Proof. split; apply incl_refl. Qed.

Lemma grows_trans st1 st2 st3 : grows st1 st2 -> grows st2 st3 -> grows st1 st3.
Proof. intros [A1 B1] [A2 B2]. split; eapply incl_tran; eauto. Qed.

Lemma grows_addWarning w st : grows st (addWarning w st).
Proof. split; simpl; [apply incl_appl|]; apply incl_refl. Qed.

Lemma grows_addProcessed name st : grows st (addProcessed name st).
Proof.
  split; simpl; [apply incl_refl|].
  destruct (existsb _ _); [apply incl_refl|apply incl_appl, incl_refl].
Qed.

Lemma grows_countRandom st : grows st (countRandom st).
Proof. split; apply incl_refl. Qed.

Lemma accumulates_bind {A B} (m : M A) (k : A -> M B) :
  accumulates m -> (forall a, accumulates (k a)) -> accumulates (bind m k).
Proof.
  intros Hm Hk st. unfold bind. specialize (Hm st).
  destruct (m st) as [[a|e] st']; simpl in *; auto.
  eapply grows_trans; [exact Hm|apply Hk].
Qed.

Lemma accumulates_try_catch {A} (body : M A) (handler : string -> M A) :
  accumulates body -> (forall e, accumulates (handler e)) ->
  accumulates (try_catch body handler).
Proof.
  intros Hb Hh st. unfold try_catch. specialize (Hb st).
  destruct (body st) as [[a|e] st']; simpl in *; auto.
  eapply grows_trans; [exact Hb|apply Hh].
Qed.

Lemma accumulates_ret {A} (a : A) : accumulates (ret a).
Proof. intros st. apply grows_refl. Qed.

Lemma accumulates_call {A} (r : Res A) : accumulates (call r).
Proof. intros st. destruct r; apply grows_refl. Qed.

Lemma accumulates_warn w : accumulates (console_warn w).
Proof. intros st. apply grows_addWarning. Qed.

Section Accumulates.
Variable typeChecker : handle -> TsType.
Variable typeDefinitions : list TypeInfo.
Variable recurse : option handle -> list Ident -> M SchemaValue.
Variable visited : list Ident.
Hypothesis recurse_accumulates : forall t, accumulates (recurse t visited).

Lemma propertyStep_accumulates structure prop :
  accumulates (propertyStep typeChecker recurse visited structure prop).
Proof.
  unfold propertyStep. apply accumulates_try_catch.
  - destruct (JsString.startsWith _ _); [apply accumulates_ret|].
    apply accumulates_bind;
      [rewrite isLikelyMethod_call; apply accumulates_call|].
    intros [|]; [apply accumulates_ret|].
    apply accumulates_bind; [apply accumulates_call|]. intros t.
    apply accumulates_bind; [apply recurse_accumulates|]. intros v.
    apply accumulates_ret.
  - intros e. apply accumulates_bind; [apply accumulates_warn|].
    intros _. apply accumulates_ret.
Qed.

Lemma propertyLoop_accumulates properties :
  forall structure,
    accumulates (propertyLoop typeChecker recurse visited properties structure).
Proof.
  induction properties as [|prop rest IH]; intros structure.
  - apply accumulates_ret.
  - cbn [propertyLoop]. apply accumulates_bind;
      [apply propertyStep_accumulates|]. intros s. apply IH.
Qed.

Lemma serializeUnvisited_accumulates type :
  accumulates (serializeUnvisited typeChecker typeDefinitions recurse visited type).
Proof.
  assert (Hstructural :
            accumulates (serializeStructural typeChecker recurse visited type)).
  { unfold serializeStructural.
    destruct (isUnion type).
    - unfold serializeUnion.
      destruct (forallb _ _); [apply accumulates_ret|].
      destruct (_ && _); [apply accumulates_ret|].
      destruct (find _ _); [apply recurse_accumulates|apply accumulates_ret].
    - destruct (isArrayType type).
      + unfold serializeArray. apply accumulates_try_catch.
        * apply accumulates_bind; [apply accumulates_call|]. intros args.
          apply accumulates_bind; [apply recurse_accumulates|]. intros v.
          apply accumulates_ret.
        * intros e. apply accumulates_bind; [apply accumulates_warn|].
          intros _. apply accumulates_ret.
      + destruct (getProperties type) as [[|prop rest]|];
          try apply accumulates_ret.
        apply accumulates_bind; [apply propertyLoop_accumulates|].
        intros s. apply accumulates_ret. }
  unfold serializeUnvisited.
  destruct (primitiveTag _); [apply accumulates_ret|].
  destruct (literalOf _); [apply accumulates_ret|].
  unfold serializeNamed.
  destruct (namedEntry typeDefinitions type) as [typeInfo|]; [|assumption].
  apply accumulates_bind; [intros st; apply grows_refl|].
  intros [|]; [assumption|].
  apply accumulates_bind; [intros st; apply grows_addProcessed|]. intros _.
  destruct (getProperties _) as [props|]; [|assumption].
  apply accumulates_bind; [apply propertyLoop_accumulates|].
  intros s. apply accumulates_ret.
Qed.
End Accumulates.

Lemma serializeType_accumulates typeChecker random typeDefinitions fuel :
  forall type visited,
    accumulates (serializeType typeChecker random typeDefinitions fuel type visited).
Proof.
  induction fuel as [|fuel IH]; intros type visited st.
  - apply grows_refl.
  - destruct type as [h|]; [|apply grows_refl].
    rewrite serializeType_step.
    destruct (stableId (typeChecker h)) as [n|]; cbv zeta.
    + destruct (visited_has visited _); [apply grows_refl|].
      apply serializeUnvisited_accumulates. intros t. apply IH.
    + destruct (visited_has visited _); [apply grows_countRandom|].
      eapply grows_trans; [apply grows_countRandom|].
      apply serializeUnvisited_accumulates. intros t. apply IH.
Qed.

(* ================================================================== *)
(** ** What the property loop leaves in the object *)
(* ================================================================== *)

Section LoopContents.
Variable typeChecker : handle -> TsType.
Variable recurse : option handle -> list Ident -> M SchemaValue.
Variable visited : list Ident.

Let loop := propertyLoop typeChecker recurse visited.

(** Properties with other names do not touch a key. *)
Lemma propertyLoop_other_names key properties :
  (forall q, In q properties -> getName q <> key) ->
  forall structure st s st',
    loop properties structure st = (Return s, st') ->
    obj_get s key = obj_get structure key.
Proof.
  induction properties as [|prop rest IH]; intros Hnames structure st s st' Hrun.
  - inversion Hrun. reflexivity.
  - unfold loop in Hrun. rewrite propertyLoop_cons, propertyStep_fate in Hrun.
    assert (Hrest : forall q, In q rest -> getName q <> key)
      by (intros q Hq; apply Hnames; now right).
    assert (Hprop : getName prop <> key) by (apply Hnames; now left).
    destruct (propFate typeChecker prop) as [| |t].
    + now apply (IH Hrest _ _ _ _ Hrun).
    + now apply (IH Hrest _ _ _ _ Hrun).
    + destruct (recurse t visited st) as [[v|e] st1]; try discriminate.
      * rewrite (IH Hrest _ _ _ _ Hrun). now apply obj_get_set_other.
      * now apply (IH Hrest _ _ _ _ Hrun).
Qed.

(** A key that no surviving property carries stays absent. *)
Lemma propertyLoop_absent key properties :
  (forall q t, In q properties -> getName q = key ->
               propFate typeChecker q <> Resolved t) ->
  forall structure st s st',
    obj_get structure key = None ->
    loop properties structure st = (Return s, st') ->
    obj_get s key = None.
Proof.
  induction properties as [|prop rest IH];
    intros Hfate structure st s st' Hnone Hrun.
  - inversion Hrun. now subst.
  - unfold loop in Hrun. rewrite propertyLoop_cons, propertyStep_fate in Hrun.
    assert (Hrest : forall q t, In q rest -> getName q = key ->
                                propFate typeChecker q <> Resolved t)
      by (intros q t Hq; apply Hfate; now right).
    destruct (propFate typeChecker prop) as [| |t] eqn:Hf.
    + now apply (IH Hrest _ _ _ _ Hnone Hrun).
    + now apply (IH Hrest _ _ _ _ Hnone Hrun).
    + destruct (recurse t visited st) as [[v|e] st1]; try discriminate.
      * refine (IH Hrest _ _ _ _ _ Hrun).
        rewrite obj_get_set_other; [assumption|].
        intros Heq. apply (Hfate prop t); [now left|assumption|assumption].
      * now apply (IH Hrest _ _ _ _ Hnone Hrun).
Qed.

(** A key once present stays present. *)
Lemma propertyLoop_keeps key properties :
  forall structure st s st',
    obj_get structure key <> None ->
    loop properties structure st = (Return s, st') ->
    obj_get s key <> None.
Proof.
  induction properties as [|prop rest IH]; intros structure st s st' Hsome Hrun.
  - inversion Hrun. now subst.
  - unfold loop in Hrun. rewrite propertyLoop_cons, propertyStep_fate in Hrun.
    destruct (propFate typeChecker prop) as [| |t].
    + now apply (IH _ _ _ _ Hsome Hrun).
    + now apply (IH _ _ _ _ Hsome Hrun).
    + destruct (recurse t visited st) as [[v|e] st1]; try discriminate.
      * refine (IH _ _ _ _ _ Hrun).
        destruct (String.eqb_spec (getName prop) key) as [->|Hne].
        -- rewrite obj_get_set_same. discriminate.
        -- now rewrite obj_get_set_other.
      * now apply (IH _ _ _ _ Hsome Hrun).
Qed.

(** A property that resolves leaves its key, when the descent does not
    throw. *)
Lemma propertyLoop_present prop t properties :
  In prop properties ->
  propFate typeChecker prop = Resolved t ->
  neverThrows (recurse t visited) ->
  forall structure st s st',
    loop properties structure st = (Return s, st') ->
    obj_get s (getName prop) <> None.
Proof.
  intros Hin Hfate Hthrow.
  induction properties as [|q rest IH]; intros structure st s st' Hrun;
    [contradiction|].
  unfold loop in Hrun. rewrite propertyLoop_cons, propertyStep_fate in Hrun.
  destruct Hin as [->|Hin].
  - rewrite Hfate in Hrun. pose proof (Hthrow st) as Hst.
    destruct (recurse t visited st) as [[v|e] st1]; try discriminate.
    + refine (propertyLoop_keeps _ _ _ _ _ _ _ Hrun).
      rewrite obj_get_set_same. discriminate.
    + exfalso. now apply (Hst e).
  - destruct (propFate typeChecker q) as [| |t'].
    + now apply (IH Hin _ _ _ _ Hrun).
    + now apply (IH Hin _ _ _ _ Hrun).
    + destruct (recurse t' visited st) as [[v|e] st1]; try discriminate;
        now apply (IH Hin _ _ _ _ Hrun).
Qed.

(** With distinct names, the key of a resolved property holds what the
    descent into its type returned. *)
Lemma propertyLoop_value (Q : SchemaValue -> Prop) prop t properties :
  NoDup (map getName properties) ->
  In prop properties ->
  propFate typeChecker prop = Resolved t ->
  neverThrows (recurse t visited) ->
  (forall st v st', recurse t visited st = (Return v, st') -> Q v) ->
  forall structure st s st',
    loop properties structure st = (Return s, st') ->
    exists v, obj_get s (getName prop) = Some v /\ Q v.
Proof.
  intros Hnodup Hin Hfate Hthrow HQ.
  induction properties as [|q rest IH]; intros structure st s st' Hrun;
    [contradiction|].
  unfold loop in Hrun. rewrite propertyLoop_cons, propertyStep_fate in Hrun.
  inversion Hnodup as [|x l Hnotin Hnodup' Heq]; subst.
  destruct Hin as [->|Hin].
  - rewrite Hfate in Hrun. pose proof (Hthrow st) as Hst.
    destruct (recurse t visited st) as [[v|e] st1] eqn:Hrec;
      try discriminate.
    + exists v. split; [|now apply (HQ _ _ _ Hrec)].
      rewrite (propertyLoop_other_names (getName prop) rest) with
        (structure := obj_set structure (getName prop) v) (st := st1)
        (st' := st'); [apply obj_get_set_same| |assumption].
      intros q Hq Heq. apply Hnotin. rewrite <- Heq. now apply in_map.
    + exfalso. now apply (Hst e).
  - destruct (propFate typeChecker q) as [| |t'].
    + now apply (IH Hnodup' Hin _ _ _ _ Hrun).
    + now apply (IH Hnodup' Hin _ _ _ _ Hrun).
    + destruct (recurse t' visited st) as [[v|e] st1]; try discriminate;
        now apply (IH Hnodup' Hin _ _ _ _ Hrun).
Qed.

(** The failure of a property is on the console afterwards. *)
Lemma propertyLoop_warns prop e properties :
  In prop properties ->
  propFate typeChecker prop = Failed e ->
  (forall t, accumulates (recurse t visited)) ->
  forall structure st s st',
    loop properties structure st = (Return s, st') ->
    In (WarnProperty e) (warnings st').
Proof.
  intros Hin Hfate Hacc.
  induction properties as [|q rest IH]; intros structure st s st' Hrun;
    [contradiction|].
  unfold loop in Hrun. rewrite propertyLoop_cons in Hrun.
  destruct Hin as [->|Hin].
  - rewrite propertyStep_fate, Hfate in Hrun.
    pose proof (propertyLoop_accumulates typeChecker recurse visited Hacc
                  rest structure (addWarning (WarnProperty e) st)) as Hg.
    cbv beta in Hg. rewrite Hrun in Hg. apply Hg. simpl.
    apply in_or_app. right. now left.
  - destruct (propertyStep typeChecker recurse visited structure q st)
      as [[s1|e1] st1]; try discriminate.
    now apply (IH Hin _ _ _ _ Hrun).
Qed.
End LoopContents.

(* ================================================================== *)
(** ** The run ends with a document *)
(* ================================================================== *)

Lemma serializeType_returns_room typeChecker random typeDefinitions fuel :
  flatUnions typeChecker ->
  2 <= fuel ->
  forall type visited st,
    returns (serializeType typeChecker random typeDefinitions fuel type visited) st.
Proof.
  intros Hflat Hroom. destruct fuel as [|[|fuel]]; [lia|lia|].
  now apply serializeType_returns_flat.
Qed.

Section ProgramReturns.
Variable typeChecker : handle -> TsType.
Variable random : nat -> string.
Variable fuel : nat.
Hypothesis flat : flatUnions typeChecker.
Hypothesis room : 2 <= fuel.
Variable typeDefinitions : JsObject TypeInfo.

Lemma serializeRoot_returns type st :
  returns (serializeRoot typeChecker random fuel typeDefinitions type) st.
Proof. unfold serializeRoot. now apply serializeType_returns_room. Qed.

Lemma expandRegistry_returns entries :
  forall typeRegistry st,
    returns (expandRegistry typeChecker random fuel typeDefinitions entries
               typeRegistry) st.
Proof.
  induction entries as [|[typeName typeInfo] rest IH]; intros typeRegistry st.
  - unfold returns. simpl. unfold ret. eauto.
  - unfold returns. cbn [expandRegistry]. unfold bind at 1, processed_has.
    destruct (existsb _ _); [apply IH|].
    unfold bind.
    destruct (serializeRoot_returns (ti_type typeInfo) st) as [v [st' ->]].
    apply IH.
Qed.

Variable typeRegistry : JsObject RegistryEntry.

Lemma forEachParameter_returns params :
  forall parameters st,
    returns (forEachParameter typeChecker random fuel typeDefinitions
               typeRegistry params parameters) st.
Proof.
  induction params as [|param rest IH]; intros parameters st.
  - unfold returns. simpl. unfold ret. eauto.
  - unfold returns. cbn [forEachParameter]. unfold bind.
    destruct (param_typeText param) as [typeName|].
    + destruct (registryStructure typeRegistry typeName) as [registered|].
      * unfold ret. apply IH.
      * destruct (serializeRoot_returns (param_type param) st) as [v [st' ->]].
        apply IH.
    + destruct (serializeRoot_returns (param_type param) st) as [v [st' ->]].
      apply IH.
Qed.

Lemma visitFunction_returns sourceFile acts node st :
  returns (visitFunction typeChecker random fuel typeDefinitions typeRegistry
             sourceFile acts node) st.
Proof.
  unfold returns.
  destruct node as [| |exported [functionName|] [comments|] params|];
    try (simpl; unfold ret; eauto; fail);
    destruct exported; try (simpl; unfold ret; eauto; fail).
  cbn [visitFunction].
  destruct (find _ comments); [|unfold ret; eauto].
  unfold bind.
  destruct (forEachParameter_returns params [] st) as [ps [st' ->]].
  unfold ret. eauto.
Qed.

Lemma visitNodes_returns sourceFile ns :
  forall acts st,
    returns (visitNodes typeChecker random fuel typeDefinitions typeRegistry
               sourceFile ns acts) st.
Proof.
  induction ns as [|node rest IH]; intros acts st.
  - unfold returns. simpl. unfold ret. eauto.
  - unfold returns. cbn [visitNodes]. unfold bind.
    destruct (visitFunction_returns sourceFile acts node st) as [a [st' ->]].
    apply IH.
Qed.

Lemma visitFiles_returns program :
  forall acts st,
    returns (visitFiles typeChecker random fuel typeDefinitions typeRegistry
               program acts) st.
Proof.
  induction program as [|sourceFile rest IH]; intros acts st.
  - unfold returns. simpl. unfold ret. eauto.
  - unfold returns. cbn [visitFiles].
    destruct (skippedFile sourceFile); [apply IH|].
    unfold bind.
    destruct (visitNodes_returns sourceFile (nodes sourceFile) acts st)
      as [a [st' ->]].
    apply IH.
Qed.
End ProgramReturns.

Lemma generateActionsJson_returns typeChecker random fuel program st :
  flatUnions typeChecker ->
  2 <= fuel ->
  returns (generateActionsJson typeChecker random fuel program) st.
Proof.
  intros Hflat Hroom. unfold returns, generateActionsJson, bind.
  destruct (expandRegistry_returns typeChecker random fuel Hflat Hroom
              (collectTypeDefinitions program) (collectTypeDefinitions program)
              [] st) as [reg [st1 ->]].
  destruct (visitFiles_returns typeChecker random fuel Hflat Hroom
              (collectTypeDefinitions program) reg program [] st1)
    as [acts [st2 ->]].
  unfold ret. eauto.
Qed.

(* ================================================================== *)
(** ** Properties of the specification *)
(* ================================================================== *)

Lemma serializeType_on_path typeChecker random typeDefinitions fuel h n visited st :
  stableId (typeChecker h) = Some n ->
  visited_has visited (IdNum n) = true ->
  serializeType typeChecker random typeDefinitions (S fuel) (Some h) visited st
  = (Return any, st).
Proof. intros Hid Hvis. now rewrite serializeType_step, Hid, Hvis. Qed.

Lemma loop_is_run
    typeChecker random typeDefinitions fuel h n properties visited st :
  stableId (typeChecker h) = Some n ->
  visited_has visited (IdNum n) = false ->
  loopsOver typeChecker typeDefinitions st (typeChecker h) properties ->
  exists st0,
    serializeType typeChecker random typeDefinitions (S fuel) (Some h) visited st
    = bind (propertyLoop typeChecker
              (serializeType typeChecker random typeDefinitions fuel)
              (IdNum n :: visited) properties [])
        (fun result => ret (JObject result)) st0.
Proof.
  intros Hid Hvis (Hprim & Hlit & Hroute).
  rewrite serializeType_step, Hid, Hvis.
  unfold serializeUnvisited. rewrite Hprim, Hlit. unfold serializeNamed.
  destruct Hroute as [(typeInfo & Hnamed & Hproc & Hprops)
                     |(Hpass & Hunion & Harray & Hprops & Hne)].
  - rewrite Hnamed. unfold bind at 1, processed_has. rewrite Hproc.
    unfold bind at 1, processed_add. rewrite Hprops. eauto.
  - assert (Hstructural : forall recurse path st0,
              serializeStructural typeChecker recurse path (typeChecker h) st0
              = bind (propertyLoop typeChecker recurse path properties [])
                  (fun result => ret (JObject result)) st0).
    { intros recurse path st0. unfold serializeStructural.
      rewrite Hunion, Harray, Hprops.
      destruct properties as [|prop rest]; [congruence|reflexivity]. }
    destruct Hpass as [Hnamed|[Hproc|(typeInfo & Hnamed & Hnone)]].
    + rewrite Hnamed, Hstructural. eauto.
    + destruct (namedEntry typeDefinitions (typeChecker h)) as [typeInfo|];
        [|rewrite Hstructural; eauto].
      unfold bind at 1, processed_has. rewrite Hproc, Hstructural. eauto.
    + rewrite Hnamed. unfold bind at 1, processed_has.
      destruct (existsb _ _); [rewrite Hstructural; eauto|].
      unfold bind at 1, processed_add. rewrite Hnone, Hstructural. eauto.
Qed.

(** C1.  A type with an identity of its own over whose properties
    [serializeType] runs its loop, be it in the named-type block (the
    first expansion of a registered name) or in the block for objects
    with properties (the object type of a type alias, a name already
    processed), one of these properties having the type itself as its
    type: the call returns an object, and in it that property is
    ["any"], because the descent finds the identity of the type in its
    copy of the visited set.  So does every descent, however far down,
    that comes to a type whose identity is on its path: it returns
    ["any"] at once and leaves the state as it is. *)
Theorem self_reference_resolves_to_any
    typeChecker random typeDefinitions fuel
    h n properties prop h' visited st :
  stableId (typeChecker h) = Some n ->
  visited_has visited (IdNum n) = false ->
  loopsOver typeChecker typeDefinitions st (typeChecker h) properties ->
  NoDup (map getName properties) ->
  In prop properties ->
  propFate typeChecker prop = Resolved (Some h') ->
  stableId (typeChecker h') = Some n ->
  (exists fields st',
     serializeType typeChecker random typeDefinitions (S (S fuel)) (Some h)
       visited st
     = (Return (JObject fields), st')
     /\ obj_get fields (getName prop) = Some any)
  /\ (forall depth back path st0,
        stableId (typeChecker back) = Some n ->
        visited_has path (IdNum n) = true ->
        serializeType typeChecker random typeDefinitions (S depth) (Some back)
          path st0
        = (Return any, st0)).
Proof.
  intros Hid Hvis Hloop Hnodup Hin Hfate Hid'.
  split; [|intros depth back path st0 Hback Hpath;
           now apply (serializeType_on_path _ _ _ _ _ n)].
  destruct (loop_is_run typeChecker random typeDefinitions (S fuel) h n
              properties visited st Hid Hvis Hloop) as [st0 ->].
  set (rec := serializeType typeChecker random typeDefinitions (S fuel)).
  set (path := IdNum n :: visited).
  assert (Hback : forall st1, rec (Some h') path st1 = (Return any, st1)).
  { intros st1. apply (serializeType_on_path _ _ _ _ _ n); [assumption|].
    unfold path. rewrite visited_has_cons. simpl. now rewrite Nat.eqb_refl. }
  destruct (propertyLoop_returns typeChecker rec path properties [] st0)
    as [s [st' Hrun]].
  unfold bind, ret. rewrite Hrun. exists s, st'. split; [reflexivity|].
  destruct (propertyLoop_value typeChecker rec path (fun v => v = any)
              prop (Some h') properties Hnodup Hin Hfate) with
    (structure := @nil (string * SchemaValue))
    (st := st0) (s := s) (st' := st')
    as [v [Hget Hv]]; [| |assumption|now subst].
  - intros st1 e. rewrite Hback. discriminate.
  - intros st1 v st2 Hv. rewrite Hback in Hv. congruence.
Qed.

Lemma self_reference_resolves_to_any_witness :
  (exists fields st',
     serializeType Sample.aliasChecker Sample.noRandom Sample.aliasDefinitions
       2 (Some 0) [] initialState
     = (Return (JObject fields), st')
     /\ obj_get fields "next" = Some any)
  /\ (exists fields st',
        serializeType Sample.nodeChecker Sample.noRandom Sample.nodeDefinitions
          2 (Some 0) [] initialState
        = (Return (JObject fields), st')
        /\ obj_get fields "next" = Some any).
Proof.
  split.
  - refine (proj1 (self_reference_resolves_to_any Sample.aliasChecker
                     Sample.noRandom Sample.aliasDefinitions 0 0 1
                     [Sample.field "next" 0] (Sample.field "next" 0) 0 []
                     initialState _ _ _ _ _ _ _)).
    + reflexivity.
    + reflexivity.
    + split; [reflexivity|]. split; [reflexivity|]. right.
      split; [left; reflexivity|]. repeat split; try reflexivity. discriminate.
    + repeat constructor; simpl; intuition discriminate.
    + simpl; auto.
    + reflexivity.
    + reflexivity.
  - refine (proj1 (self_reference_resolves_to_any Sample.nodeChecker
                     Sample.noRandom Sample.nodeDefinitions 0 0 1
                     [Sample.field "next" 0; Sample.field "label" 1]
                     (Sample.field "next" 0) 0 [] initialState _ _ _ _ _ _ _)).
    + reflexivity.
    + reflexivity.
    + split; [reflexivity|]. split; [reflexivity|]. left.
      exists (Sample.exportedInterface "Node" 0). repeat split; reflexivity.
    + repeat constructor; simpl; intuition discriminate.
    + simpl; auto.
    + reflexivity.
    + reflexivity.
Defined.

(** C2.  [serializeType] returns a value for every handle, on every
    type graph in which unions are flat, as the compiler makes them, and
    wherever the stack has room for two calls: ["any"] for an absent
    handle, and the text of the type for a handle that no block claims.
    Nothing is presumed of the identities: what a descent throws, the
    overflow of the stack on a type that unfolds without end included,
    ends in the [catch] of the property or of the array on the way. *)
Theorem serialize_returns_for_every_handle
    typeChecker random typeDefinitions fuel type visited st :
  flatUnions typeChecker ->
  2 <= fuel ->
  exists v st',
    serializeType typeChecker random typeDefinitions fuel type visited st
    = (Return v, st')
    /\ (type = None -> v = any)
    /\ (forall h, type = Some h ->
                  matchesNoRule typeDefinitions (typeChecker h) ->
                  visited_has visited (identityAt random (typeChecker h) st) = false ->
                  v = JString (typeToString (typeChecker h))).
Proof.
  intros Hflat Hroom.
  destruct (serializeType_returns_room typeChecker random typeDefinitions fuel
              Hflat Hroom type visited st) as [v [st' Hrun]].
  exists v, st'. split; [assumption|]. split.
  - intros ->. destruct fuel; [lia|]. simpl in Hrun. inversion Hrun. reflexivity.
  - intros h -> (Hprim & Hlit & Hnamed & Hunion & Harray & Hprops) Hvis.
    destruct fuel as [|fuel]; [lia|].
    rewrite serializeType_step in Hrun. unfold identityAt in Hvis.
    assert (Hbody : forall recurse path st0,
              serializeUnvisited typeChecker typeDefinitions recurse path
                (typeChecker h) st0
              = (Return (JString (typeToString (typeChecker h))), st0)).
    { intros recurse path st0.
      unfold serializeUnvisited, serializeNamed, serializeStructural.
      rewrite Hprim, Hlit, Hnamed, Hunion, Harray.
      destruct Hprops as [-> | ->]; reflexivity. }
    destruct (stableId (typeChecker h)) as [n|]; cbv zeta in Hrun;
      rewrite Hvis, Hbody in Hrun; congruence.
Qed.

Lemma serialize_returns_for_every_handle_witness :
  exists v st',
    serializeType SampleDeep.expandingChecker Sample.noRandom [] 3 (Some 0) []
      initialState = (Return v, st').
Proof.
  destruct (serialize_returns_for_every_handle SampleDeep.expandingChecker
              Sample.noRandom [] 3 (Some 0) [] initialState)
    as [v [st' [Hrun _]]].
  - intros h m Hunion. discriminate Hunion.
  - lia.
  - exists v, st'. exact Hrun.
Defined.

Lemma freshToken_length k : String.length (SampleLoop.freshToken k) = k.
Proof. induction k; simpl; congruence. Qed.

Lemma freshToken_distinct : distinctTokens SampleLoop.freshToken.
Proof.
  intros j k H. rewrite <- (freshToken_length j), <- (freshToken_length k).
  now rewrite H.
Qed.

Lemma selfUnion_overflows fuel :
  forall path st,
    drawnBefore (randomCalls st) path ->
    fst (serializeType SampleLoop.selfUnion SampleLoop.freshToken []
           fuel (Some 0) (pathOf SampleLoop.freshToken path) st)
    = Throw stackOverflow.
Proof.
  induction fuel as [|fuel IH]; intros path st Hpath; [reflexivity|].
  rewrite serializeType_step.
  change (stableId (SampleLoop.selfUnion 0)) with (@None nat). cbv zeta.
  rewrite (visited_has_pathOf_fresh _ path _ freshToken_distinct Hpath).
  change (IdToken (SampleLoop.freshToken (randomCalls st))
          :: pathOf SampleLoop.freshToken path)
    with (pathOf SampleLoop.freshToken (DrawnEntry (randomCalls st) :: path)).
  apply IH. intros k [Hk|Hk]; simpl.
  - inversion Hk. lia.
  - specialize (Hpath k Hk). lia.
Qed.

(** Why C2 asks for flat unions: the descent of the union block is the
    one that no [try] guards.  On the union made by hand that contains
    itself and has no identity, the overflow of the stack leaves
    [serializeType], whatever room the stack has. *)
Remark unguarded_union_lets_the_overflow_escape fuel :
  fst (serializeType SampleLoop.selfUnion SampleLoop.freshToken [] fuel
         (Some 0) [] initialState)
  = Throw stackOverflow.
Proof. apply (selfUnion_overflows fuel [] initialState). intros k []. Qed.

(** C3.  Two exported interfaces of which the first mentions the second:
    both are collected, the run ends normally, and the [typeAliases] of
    the document holds the first only.  The second was marked as
    processed while the first was expanded, so the registry loop passes
    it over. *)
Theorem nested_type_missing_from_typeAliases :
  exists doc st',
    generateActionsJson SampleTypes.nestedChecker Sample.noRandom 5
      SampleTypes.nestedProgram initialState = (Return doc, st')
    /\ obj_keys (collectTypeDefinitions SampleTypes.nestedProgram)
       = ["Outer"; "Inner"]
    /\ obj_keys (typeAliases doc) = ["Outer"]
    /\ obj_get (typeAliases doc) "Inner" = None
    /\ processedTypes st' = ["Outer"; "Inner"].
Proof.
  eexists. eexists. split; [vm_compute; reflexivity|].
  vm_compute. repeat split; reflexivity.
Qed.

Lemma serializeNamed_not_boolean typeChecker typeDefinitions recurse visited
    type st b :
  isUnion type = false ->
  fst (serializeNamed typeChecker typeDefinitions recurse visited type st)
  <> Return (JBool b).
Proof.
  intros Hunion.
  assert (Hstructural : forall st0,
            fst (serializeStructural typeChecker recurse visited type st0)
            <> Return (JBool b)).
  { intros st0. unfold serializeStructural. rewrite Hunion.
    destruct (isArrayType type).
    - unfold serializeArray, try_catch, bind, call, ret, console_warn.
      destruct (getTypeArguments type) as [args|msg]; simpl; [|discriminate].
      destruct (recurse (hd_error args) visited st0) as [[v|e] st1];
        simpl; discriminate.
    - destruct (getProperties type) as [[|prop rest]|];
        try (simpl; discriminate).
      unfold bind, ret.
      destruct (propertyLoop typeChecker recurse visited (prop :: rest) [] st0)
        as [[s|e] st1]; simpl; discriminate. }
  unfold serializeNamed.
  destruct (namedEntry typeDefinitions type) as [typeInfo|]; [|apply Hstructural].
  unfold bind at 1, processed_has.
  destruct (existsb _ _); [apply Hstructural|].
  unfold bind at 1, processed_add.
  destruct (getProperties (typeChecker (ti_type typeInfo))) as [props|];
    [|apply Hstructural].
  unfold bind, ret.
  destruct (propertyLoop typeChecker recurse visited props []
              (addProcessed (symbolName type) st)) as [[s|e] st1];
    simpl; discriminate.
Qed.

(** C4.  A type whose flags are the boolean-literal bit, and whose probes
    answer as the services layer of the compiler makes them answer, never
    comes out as a JSON boolean: [isLiteral()] is false for it, so the
    test on the boolean-literal bit inside that block is not reached. *)
Theorem boolean_literal_is_not_serialized_as_boolean
    typeChecker random typeDefinitions fuel h visited st b :
  ty_flags (typeChecker h) = TypeFlags.BooleanLiteral ->
  servicesLayer (typeChecker h) ->
  fst (serializeType typeChecker random typeDefinitions fuel (Some h) visited st)
  <> Return (JBool b).
Proof.
  intros Hflags (Hlit & _ & _ & Hunion).
  rewrite Hflags in Hlit, Hunion.
  change (hasFlag TypeFlags.BooleanLiteral _) with false in Hlit.
  change (hasFlag TypeFlags.BooleanLiteral TypeFlags.Union) with false in Hunion.
  destruct fuel as [|fuel]; [simpl; discriminate|].
  rewrite serializeType_step.
  assert (Hbody : forall path st0,
            fst (serializeUnvisited typeChecker typeDefinitions
                   (serializeType typeChecker random typeDefinitions fuel)
                   path (typeChecker h) st0) <> Return (JBool b)).
  { intros path st0. unfold serializeUnvisited, literalOf.
    rewrite Hflags, Hlit.
    change (primitiveTag TypeFlags.BooleanLiteral) with (@None string).
    now apply serializeNamed_not_boolean. }
  destruct (stableId (typeChecker h)) as [n|]; cbv zeta;
    (destruct (visited_has visited _); [simpl; discriminate|apply Hbody]).
Qed.

Lemma boolean_literal_is_not_serialized_as_boolean_witness :
  fst (serializeType SampleTypes.trueChecker Sample.noRandom [] 3 (Some 0) []
         initialState) <> Return (JBool true).
Proof.
  apply (boolean_literal_is_not_serialized_as_boolean SampleTypes.trueChecker
           Sample.noRandom [] 3 0 [] initialState true).
  - reflexivity.
  - repeat split; reflexivity.
Defined.

(** What the type [true] is serialised to instead: the empty object left
    by the properties of the [Boolean] interface. *)
Example true_literal_serialized_as_empty_object :
  serializeType SampleTypes.trueChecker Sample.noRandom [] 3 (Some 0) []
    initialState = (Return (JObject []), initialState).
Proof. reflexivity. Qed.

Lemma string_literal_values (typeChecker : handle -> TsType)
    (members : list handle) (literals : list string) :
  Forall2 (fun m s => ty_value (typeChecker m) = Some (LitString s))
    members literals ->
  map valueOf (map typeChecker members) = map JString literals.
Proof.
  induction 1 as [|m s members literals Hm _ IH]; [reflexivity|].
  simpl. rewrite IH. unfold valueOf. now rewrite Hm.
Qed.

(** C6, amended.  A union that enters the union block, all of whose
    members are string literals, is serialised to the array of the
    values of its members, in the order in which [type.types] holds
    them. *)
Theorem string_literal_union_is_enum
    typeChecker random typeDefinitions fuel h (literals : list string)
    visited st :
  reachesUnionBlock typeDefinitions (typeChecker h) ->
  visited_has visited (identityAt random (typeChecker h) st) = false ->
  forallb isStringLiteral (map typeChecker (ty_types (typeChecker h))) = true ->
  Forall2 (fun m s => ty_value (typeChecker m) = Some (LitString s))
    (ty_types (typeChecker h)) literals ->
  exists st',
    serializeType typeChecker random typeDefinitions (S fuel) (Some h) visited st
    = (Return (JArray (map JString literals)), st').
Proof.
  intros (Hprim & Hlit & Hnamed & Hunion) Hvis Hall Hvalues.
  rewrite serializeType_step. unfold identityAt in Hvis.
  assert (Hbody : forall recurse path st0,
            serializeUnvisited typeChecker typeDefinitions recurse path
              (typeChecker h) st0
            = (Return (JArray (map JString literals)), st0)).
  { intros recurse path st0.
    unfold serializeUnvisited, serializeNamed, serializeStructural, serializeUnion.
    rewrite Hprim, Hlit, Hnamed, Hunion, Hall.
    now rewrite (string_literal_values _ _ _ Hvalues). }
  destruct (stableId (typeChecker h)) as [n|]; cbv zeta;
    rewrite Hvis, Hbody; eauto.
Qed.

Lemma string_literal_union_is_enum_witness :
  exists st',
    serializeType SampleTypes.colourChecker Sample.noRandom [] 1 (Some 0) []
      initialState
    = (Return (JArray [JString "a"; JString "b"; JString "c"]), st').
Proof.
  apply (string_literal_union_is_enum SampleTypes.colourChecker Sample.noRandom
           [] 0 0 ["a"; "b"; "c"] [] initialState).
  - repeat split; reflexivity.
  - reflexivity.
  - reflexivity.
  - repeat constructor.
Defined.

(** C6, the input on which the claim fails: the union declared as
    a | b | c in a file that has mentioned c before.  Its members are
    in the order of their ids, and the array that [serializeType]
    returns is c, a, b, not the order of the declaration. *)
Lemma enum_order_is_not_declaration_order :
  orderedByIdentity SampleOrder.lettersChecker (SampleOrder.lettersChecker 3)
  /\ exists st',
       serializeType SampleOrder.lettersChecker Sample.noRandom
         SampleOrder.lettersDefinitions 1 (Some 3) [] initialState
       = (Return (JArray [JString "c"; JString "a"; JString "b"]), st')
       /\ JArray [JString "c"; JString "a"; JString "b"]
          <> JArray (map JString SampleOrder.lettersDeclared).
Proof.
  split.
  - exists [11; 12; 13]. split; [repeat constructor|].
    repeat constructor; lia.
  - eexists. split; [reflexivity|]. discriminate.
Qed.




Lemma NoDup_map_same {A B} (f : A -> B) (l : list A) p q :
  NoDup (map f l) -> In p l -> In q l -> f q = f p -> q = p.
Proof.
  induction l as [|x l IH]; intros Hnd Hp Hq Heq; [contradiction|].
  inversion Hnd as [|y m Hnotin Hnd' E]; subst.
  destruct Hp as [->|Hp], Hq as [->|Hq]; auto.
  - exfalso. apply Hnotin. rewrite <- Heq. now apply in_map.
  - exfalso. apply Hnotin. rewrite Heq. now apply in_map.
Qed.

(** C8.  The loop that builds an object, on a type graph with finitely
    many identities: it returns; a property whose type the checker fails
    to compute is on the console afterwards and, names being distinct,
    has no key in the object; every property whose type is computed has
    its key.  An array whose element type cannot be had becomes an array
    of ["any"] with a warning.  No exception leaves the loop, the array
    block or [serializeType]. *)
Theorem failed_property_is_dropped_and_siblings_kept
    typeChecker random typeDefinitions universe fuel visited properties st :
  let recurse := serializeType typeChecker random typeDefinitions fuel in
  finiteIdentities typeChecker universe ->
  List.length universe < fuel ->
  (exists s st',
     propertyLoop typeChecker recurse visited properties [] st = (Return s, st')
     /\ forall prop, In prop properties ->
          (forall e, propFate typeChecker prop = Failed e ->
                     In (WarnProperty e) (warnings st')
                     /\ (NoDup (map getName properties) ->
                         obj_get s (getName prop) = None))
          /\ (forall t, propFate typeChecker prop = Resolved t ->
                        obj_get s (getName prop) <> None))
  /\ (forall type st0 message,
        getTypeArguments type = Err message ->
        serializeArray recurse visited type st0
        = (Return (arrayOf any), addWarning (WarnArray message) st0))
  /\ (forall structure st0 e,
        fst (propertyLoop typeChecker recurse visited properties structure st0)
        <> Throw e)
  /\ (forall type st0 e, fst (serializeArray recurse visited type st0) <> Throw e)
  /\ (forall type path st0 e, fst (recurse type path st0) <> Throw e).
Proof.
  intros recurse Hfin Hfuel.
  assert (Hthrow : forall t path, neverThrows (recurse t path)).
  { intros t path. apply returns_neverThrows. intros st0.
    apply (serializeType_returns _ _ _ universe Hfin).
    pose proof (unvisited_length universe path). lia. }
  repeat split.
  - destruct (propertyLoop_returns typeChecker recurse visited
                properties [] st) as [s [st' Hrun]].
    exists s, st'. split; [assumption|]. intros prop Hin. split.
    + intros e Hfate. split.
      * apply (propertyLoop_warns typeChecker recurse visited prop e properties
                 Hin Hfate) with (structure := @nil (string * SchemaValue))
                                 (st := st) (s := s); [|assumption].
        intros t. apply serializeType_accumulates.
      * intros Hnodup.
        apply (propertyLoop_absent typeChecker recurse visited (getName prop)
                 properties) with (structure := @nil (string * SchemaValue))
                                  (st := st) (st' := st');
          [|reflexivity|assumption].
        intros q t Hq Hname Hq'.
        rewrite (NoDup_map_same getName properties prop q Hnodup Hin Hq Hname)
          in Hq'. congruence.
    + intros t Hfate.
      apply (propertyLoop_present typeChecker recurse visited prop t properties
               Hin Hfate (Hthrow t visited)) with
        (structure := @nil (string * SchemaValue)) (st := st) (st' := st').
      assumption.
  - intros type st0 message Hargs.
    unfold serializeArray, try_catch, bind, call. now rewrite Hargs.
  - intros structure st0 e. apply propertyLoop_neverThrows.
  - intros type st0 e. apply serializeArray_neverThrows.
  - intros type path st0 e. apply Hthrow.
Qed.

Lemma failed_property_is_dropped_and_siblings_kept_witness :
  exists s st',
    propertyLoop SampleObjects.recordChecker
      (serializeType SampleObjects.recordChecker Sample.noRandom [] 4)
      [IdNum 1] SampleObjects.recordProperties [] initialState
    = (Return s, st')
    /\ In (WarnProperty "cannot resolve") (warnings st')
    /\ obj_get s "secret" = None
    /\ obj_get s "id" <> None
    /\ obj_get s "tags" <> None.
Proof.
  destruct (failed_property_is_dropped_and_siblings_kept
              SampleObjects.recordChecker Sample.noRandom [] [1; 2; 3] 4
              [IdNum 1] SampleObjects.recordProperties initialState)
    as [[s [st' [Hrun Hprops]]] _].
  - intros [|[|h]]; eexists; (split; [reflexivity|simpl; auto]).
  - simpl; lia.
  - exists s, st'. split; [exact Hrun|].
    destruct (Hprops (Sample.brokenField "secret" "cannot resolve"))
      as [Hfailed _]; [simpl; auto|].
    destruct (Hfailed "cannot resolve") as [Hwarn Habsent]; [reflexivity|].
    destruct (Hprops (Sample.field "id" 1)) as [_ Hid]; [simpl; auto|].
    destruct (Hprops (Sample.field "tags" 2)) as [_ Htags]; [simpl; auto|].
    repeat split.
    + exact Hwarn.
    + apply Habsent. repeat constructor; simpl; intuition discriminate.
    + apply (Hid (Some 1)). reflexivity.
    + apply (Htags (Some 2)). reflexivity.
Defined.

Lemma object_type_runs_loop
    typeChecker random typeDefinitions fuel h i properties visited st :
  stableId (typeChecker h) = Some i ->
  visited_has visited (IdNum i) = false ->
  objectTypeOver typeChecker typeDefinitions (typeChecker h) properties ->
  exists st0,
    serializeType typeChecker random typeDefinitions (S fuel) (Some h) visited st
    = bind (propertyLoop typeChecker
              (serializeType typeChecker random typeDefinitions fuel)
              (IdNum i :: visited) properties [])
        (fun result => ret (JObject result)) st0.
Proof.
  intros Hid Hvis (Hprim & Hlit & Hunion & Harray & Hprops & Hne & Hreg).
  rewrite serializeType_step, Hid, Hvis.
  assert (Hstructural : forall recurse path st0,
            serializeStructural typeChecker recurse path (typeChecker h) st0
            = bind (propertyLoop typeChecker recurse path properties [])
                (fun result => ret (JObject result)) st0).
  { intros recurse path st0. unfold serializeStructural.
    rewrite Hunion, Harray, Hprops.
    destruct properties as [|prop rest]; [congruence|reflexivity]. }
  unfold serializeUnvisited. rewrite Hprim, Hlit. unfold serializeNamed.
  destruct (namedEntry typeDefinitions (typeChecker h)) as [typeInfo|] eqn:Hnamed.
  - unfold bind at 1, processed_has.
    destruct (existsb _ _); [rewrite Hstructural; eauto|].
    unfold bind at 1, processed_add.
    rewrite (Hreg typeInfo eq_refl). eauto.
  - rewrite Hstructural. eauto.
Qed.

Lemma object_type_expands
    typeChecker random typeDefinitions universe fuel hB iB propsB visited st :
  finiteIdentities typeChecker universe ->
  List.length universe < fuel ->
  stableId (typeChecker hB) = Some iB ->
  visited_has visited (IdNum iB) = false ->
  objectTypeOver typeChecker typeDefinitions (typeChecker hB) propsB ->
  exists fields st',
    serializeType typeChecker random typeDefinitions (S fuel) (Some hB) visited st
    = (Return (JObject fields), st')
    /\ forall q t, In q propsB -> propFate typeChecker q = Resolved t ->
                   obj_get fields (getName q) <> None.
Proof.
  intros Hfin Hfuel Hid Hvis Hobject.
  destruct (object_type_runs_loop typeChecker random typeDefinitions fuel
              hB iB propsB visited st Hid Hvis Hobject) as [st0 ->].
  set (recurse := serializeType typeChecker random typeDefinitions fuel).
  set (path := IdNum iB :: visited).
  assert (Hrec : forall t st1, returns (recurse t path) st1).
  { intros t st1. apply (serializeType_returns _ _ _ universe Hfin).
    pose proof (unvisited_length universe path). lia. }
  destruct (propertyLoop_returns typeChecker recurse path propsB [] st0)
    as [s [st' Hrun]].
  exists s, st'. unfold bind, ret. rewrite Hrun. split; [reflexivity|].
  intros q t Hq Hfate.
  apply (propertyLoop_present typeChecker recurse path q t propsB Hq Hfate)
    with (structure := @nil (string * SchemaValue)) (st := st0) (st' := st');
    [|assumption].
  apply returns_neverThrows. apply Hrec.
Qed.

(** C5, the input on which the claim fails: two properties of one object
    refer to the same named type, an interface without properties.  The
    first is serialised to the empty object by the named-type block; that
    block has then marked the name as processed, and the second comes out
    as the text of the type. *)
Lemma diamond_on_empty_type_differs :
  exists fields st',
    serializeType SampleObjects.emptyLeafChecker Sample.noRandom
      SampleObjects.diamondDefinitions 4 (Some 0) [] initialState
    = (Return (JObject fields), st')
    /\ obj_get fields "left" = Some (JObject [])
    /\ obj_get fields "right" = Some (JString "Leaf").
Proof. eexists. eexists. vm_compute. repeat split; reflexivity. Qed.

(** C5, amended.  An object type two of whose properties, of distinct
    names, have the same object type as their type, that type being
    another one, not on the path, and listing at least one property: on
    a type graph with finitely many identities, serialising the
    enclosing type returns an object that holds under both names an
    object with a key for every property of the shared type whose type
    is computed.  Neither is cut short by the visited set, of which
    every descent receives its own copy. *)
Theorem diamond_siblings_expand_shared_type
    typeChecker random typeDefinitions universe fuel
    hA iA propsA left right hB iB propsB visited st :
  finiteIdentities typeChecker universe ->
  List.length universe < fuel ->
  stableId (typeChecker hA) = Some iA ->
  visited_has visited (IdNum iA) = false ->
  objectTypeOver typeChecker typeDefinitions (typeChecker hA) propsA ->
  NoDup (map getName propsA) ->
  In left propsA -> In right propsA ->
  getName left <> getName right ->
  propFate typeChecker left = Resolved (Some hB) ->
  propFate typeChecker right = Resolved (Some hB) ->
  stableId (typeChecker hB) = Some iB ->
  iB <> iA ->
  visited_has visited (IdNum iB) = false ->
  objectTypeOver typeChecker typeDefinitions (typeChecker hB) propsB ->
  exists fields st' fl fr,
    serializeType typeChecker random typeDefinitions (S (S fuel)) (Some hA)
      visited st = (Return (JObject fields), st')
    /\ obj_get fields (getName left) = Some (JObject fl)
    /\ obj_get fields (getName right) = Some (JObject fr)
    /\ forall q t, In q propsB -> propFate typeChecker q = Resolved t ->
                   obj_get fl (getName q) <> None
                   /\ obj_get fr (getName q) <> None.
Proof.
  intros Hfin Hfuel HidA HvisA HobjA Hnodup Hleft Hright Hnames Hfl Hfr
    HidB Hne HvisB HobjB.
  destruct (object_type_runs_loop typeChecker random typeDefinitions (S fuel)
              hA iA propsA visited st HidA HvisA HobjA) as [st0 ->].
  set (recurse := serializeType typeChecker random typeDefinitions (S fuel)).
  set (path := IdNum iA :: visited).
  assert (HvisB' : visited_has path (IdNum iB) = false).
  { unfold path. rewrite visited_has_cons, HvisB. cbn [Ident_eqb].
    now rewrite (proj2 (Nat.eqb_neq iB iA) Hne). }
  assert (Hrec : forall t st1, returns (recurse t path) st1).
  { intros t st1. apply (serializeType_returns _ _ _ universe Hfin).
    pose proof (unvisited_length universe path). lia. }
  destruct (propertyLoop_returns typeChecker recurse path propsA [] st0)
    as [s [st' Hrun]].
  set (Q := fun v => exists fields,
                v = JObject fields
                /\ forall q t, In q propsB ->
                               propFate typeChecker q = Resolved t ->
                               obj_get fields (getName q) <> None).
  assert (HQ : forall st1 v st2,
            recurse (Some hB) path st1 = (Return v, st2) -> Q v).
  { intros st1 v st2 Hv.
    destruct (object_type_expands typeChecker random typeDefinitions universe
                fuel hB iB propsB path st1 Hfin Hfuel HidB HvisB' HobjB)
      as [fields [st3 [Hexp Hkeys]]].
    unfold recurse in Hv. rewrite Hexp in Hv. inversion Hv; subst.
    exists fields. auto. }
  assert (Hthrow : neverThrows (recurse (Some hB) path))
    by (apply returns_neverThrows; apply Hrec).
  destruct (propertyLoop_value typeChecker recurse path Q left (Some hB)
              propsA Hnodup Hleft Hfl Hthrow HQ [] st0 s st' Hrun)
    as [vl [Hgl [fl [-> Hkl]]]].
  destruct (propertyLoop_value typeChecker recurse path Q right (Some hB)
              propsA Hnodup Hright Hfr Hthrow HQ [] st0 s st' Hrun)
    as [vr [Hgr [fr [-> Hkr]]]].
  exists s, st', fl, fr. unfold bind, ret. rewrite Hrun.
  repeat split; eauto.
Qed.

Lemma diamond_siblings_expand_shared_type_witness :
  exists fields st' fl fr,
    serializeType SampleObjects.diamondChecker Sample.noRandom
      SampleObjects.diamondDefinitions 6 (Some 0) [] initialState
    = (Return (JObject fields), st')
    /\ obj_get fields "left" = Some (JObject fl)
    /\ obj_get fields "right" = Some (JObject fr)
    /\ obj_get fl "v" <> None
    /\ obj_get fr "v" <> None.
Proof.
  destruct (diamond_siblings_expand_shared_type SampleObjects.diamondChecker
              Sample.noRandom SampleObjects.diamondDefinitions [1; 2; 3] 4
              0 1 SampleObjects.pairProperties
              (Sample.field "left" 1) (Sample.field "right" 1) 1 2
              SampleObjects.leafProperties [] initialState)
    as [fields [st' [fl [fr [Hrun [Hl [Hr Hkeys]]]]]]].
  - intros [|[|h]]; eexists; (split; [reflexivity|simpl; auto]).
  - simpl; lia.
  - reflexivity.
  - reflexivity.
  - repeat split; try reflexivity; try discriminate.
    intros typeInfo H. vm_compute in H. inversion H. reflexivity.
  - repeat constructor; simpl; intuition discriminate.
  - simpl; auto.
  - simpl; auto.
  - discriminate.
  - reflexivity.
  - reflexivity.
  - reflexivity.
  - discriminate.
  - reflexivity.
  - repeat split; try reflexivity; try discriminate.
    intros typeInfo H. vm_compute in H. inversion H. reflexivity.
  - exists fields, st', fl, fr.
    destruct (Hkeys (Sample.field "v" 2) (Some 2)) as [Hvl Hvr];
      [simpl; auto|reflexivity|].
    repeat split; assumption.
Defined.

(** C9.  Two runs on the same program, with whatever values
    [Math.random] yields in each, end with the same document and the
    same state.  On a type graph in which every type object has an
    identity of its own, as the compiler gives one to every type it
    makes, no token is drawn at all; and where tokens are drawn they do
    not show in the document as long as no run draws the same token
    twice.  Unions being flat and the stack having room for two calls,
    both runs do end with a document. *)
Theorem rerun_gives_the_same_document
    typeChecker random1 random2 fuel program :
  allStable typeChecker \/ (distinctTokens random1 /\ distinctTokens random2) ->
  flatUnions typeChecker ->
  2 <= fuel ->
  exists doc st',
    generateActionsJson typeChecker random1 fuel program initialState
    = (Return doc, st')
    /\ generateActionsJson typeChecker random2 fuel program initialState
       = (Return doc, st').
Proof.
  intros Htokens Hflat Hroom.
  destruct (generateActionsJson_returns typeChecker random1 fuel program
              initialState Hflat Hroom) as [doc [st' Hrun]].
  exists doc, st'. split; [assumption|].
  now rewrite <- (generateActionsJson_random typeChecker random1 random2 fuel
                    Htokens).
Qed.

Lemma rerun_gives_the_same_document_witness :
  exists doc st',
    generateActionsJson SampleTypes.nestedChecker SampleRandom.repeatedToken 5
      SampleTypes.nestedProgram initialState = (Return doc, st')
    /\ generateActionsJson SampleTypes.nestedChecker SampleLoop.freshToken 5
         SampleTypes.nestedProgram initialState = (Return doc, st').
Proof.
  apply (rerun_gives_the_same_document SampleTypes.nestedChecker
           SampleRandom.repeatedToken SampleLoop.freshToken 5
           SampleTypes.nestedProgram).
  - left. intros [|[|h]]; simpl; discriminate.
  - intros [|[|h]] m Hunion; discriminate Hunion.
  - lia.
Defined.

(* ================================================================== *)
(** ** The description of an action *)
(* ================================================================== *)

Lemma append_assoc3 (a b c : string) : ((a ++ b) ++ c = a ++ b ++ c)%string.
Proof. induction a as [|x a IH]; simpl; congruence. Qed.

Lemma marker_not_straddled a b :
  a <> EmptyString ->
  JsString.matchesAt marker a = false ->
  JsString.matchesAt marker (a ++ marker ++ b) = false.
Proof.
  unfold marker. intros Hne H.
  do 12 (destruct a as [|? a]; [try congruence; try reflexivity|];
         cbn [JsString.matchesAt append] in *;
         match goal with
         | |- context [Ascii.eqb ?x ?y && _] =>
             destruct (Ascii.eqb x y); [cbn [andb] in *|reflexivity]
         end).
  discriminate.
Qed.

Lemma removeFirst_marker a b :
  JsString.includes a marker = false ->
  JsString.removeFirst marker (a ++ marker ++ b) = (a ++ b)%string.
Proof.
  induction a as [|c a IH]; intros H.
  - reflexivity.
  - cbn [JsString.includes] in H. apply orb_false_elim in H as [Hhere Hlater].
    cbn [append JsString.removeFirst].
    change (String c (a ++ marker ++ b)) with ((String c a) ++ marker ++ b)%string.
    rewrite marker_not_straddled; [|discriminate|assumption].
    cbn [append]. now rewrite IH.
Qed.

Lemma isDelimiter_chars c1 c2 :
  JsString.isDelimiter c1 c2 = true ->
  isSlashOrStar c1 = true /\ isSlashOrStar c2 = true.
Proof.
  unfold JsString.isDelimiter, isSlashOrStar.
  destruct (Ascii.eqb c1 "/"), (Ascii.eqb c1 "*"),
    (Ascii.eqb c2 "/"), (Ascii.eqb c2 "*"); simpl; intuition discriminate.
Qed.

Lemma removeDelimiters_two c1 c2 r :
  JsString.removeDelimiters (String c1 (String c2 r)) =
  if JsString.isDelimiter c1 c2 then JsString.removeDelimiters r
  else String c1 (JsString.removeDelimiters (String c2 r)).
Proof. reflexivity. Qed.

Lemma removeDelimiters_app_bounded n :
  forall a s,
    String.length a <= n -> endsPlain a = true ->
    JsString.removeDelimiters (a ++ s)
    = (JsString.removeDelimiters a ++ JsString.removeDelimiters s)%string.
Proof.
  induction n as [|n IH]; intros a s Hlen Hplain.
  - destruct a; [reflexivity|simpl in Hlen; lia].
  - destruct a as [|c1 [|c2 a]].
    + reflexivity.
    + cbn [endsPlain] in Hplain. apply negb_true_iff in Hplain.
      cbn [append]. destruct s as [|d s]; [reflexivity|].
      cbn [JsString.removeDelimiters].
      destruct (JsString.isDelimiter c1 d) eqn:Hd; [|reflexivity].
      apply isDelimiter_chars in Hd as [Hd _]. congruence.
    + cbn [append]. rewrite !removeDelimiters_two.
      destruct (JsString.isDelimiter c1 c2) eqn:Hd.
      * apply (IH a s); [simpl in Hlen; lia|].
        destruct a as [|c3 a]; [|exact Hplain].
        cbn [endsPlain] in Hplain. apply negb_true_iff in Hplain.
        apply isDelimiter_chars in Hd as [_ Hd]. congruence.
      * change (String c2 (a ++ s)) with (String c2 a ++ s)%string.
        rewrite (IH (String c2 a) s);
          [reflexivity|simpl in *; lia|exact Hplain].
Qed.

Lemma removeDelimiters_app a s :
  endsPlain a = true ->
  JsString.removeDelimiters (a ++ s)
  = (JsString.removeDelimiters a ++ JsString.removeDelimiters s)%string.
Proof. apply (removeDelimiters_app_bounded (String.length a)). lia. Qed.

Lemma removeDelimiters_delimiter d b :
  In d delimiters ->
  JsString.removeDelimiters (d ++ b) = JsString.removeDelimiters b.
Proof. intros [<-|[<-|[<-|[]]]]; reflexivity. Qed.

(** C10.  In a comment text [pre ++ "@abra-action" ++ a ++ d ++ b], where
    the marker does not occur in [pre], [d] is one of the three
    delimiters and the text before it does not end in a slash or a star:
    the description is the trimmed text without that marker and without
    [d], the parts before and after [d] being cleaned of delimiters in
    the same way.  Later occurrences of the marker stay, and the two
    slashes of a URL go. *)
Theorem description_loses_every_delimiter_and_first_marker pre a d b :
  JsString.includes pre marker = false ->
  In d delimiters ->
  endsPlain (pre ++ a) = true ->
  descriptionOf (pre ++ marker ++ a ++ d ++ b)
  = JsString.trim (JsString.removeDelimiters (pre ++ a)
                   ++ JsString.removeDelimiters b)
  /\ descriptionOf "// @abra-action see https://example.com"
     = "see https:example.com"
  /\ descriptionOf "/* @abra-action run @abra-action twice */"
     = "run @abra-action twice".
Proof.
  intros Hpre Hd Hplain. split; [|split; reflexivity].
  unfold descriptionOf. rewrite (removeFirst_marker pre _ Hpre).
  rewrite <- append_assoc3.
  rewrite (removeDelimiters_app _ _ Hplain).
  now rewrite (removeDelimiters_delimiter d b Hd).
Qed.

Lemma description_loses_every_delimiter_and_first_marker_witness :
  descriptionOf ("/* " ++ marker ++ " at http:" ++ "//" ++ "host/*path*/ */")
  = "at http:hostpath".
Proof.
  destruct (description_loses_every_delimiter_and_first_marker
              "/* " " at http:" "//" "host/*path*/ */") as [H _].
  - reflexivity.
  - simpl; auto.
  - reflexivity.
  - rewrite H. reflexivity.
Defined.

(* ================================================================== *)
(** ** The walk over the source tree *)
(* ================================================================== *)

Lemma FsNode_induction (P : FsNode -> Prop) :
  P FsFile ->
  (forall files, Forall (fun entry => P (snd entry)) files ->
                 P (FsDirectory files)) ->
  forall node, P node.
Proof.
  intros Hfile Hdir. fix IH 1. intros [|files]; [exact Hfile|].
  apply Hdir. induction files as [|[file node] rest IHrest]; constructor.
  - apply IH.
  - exact IHrest.
Qed.

Lemma visitEntry_directory pathJoin dir file files fileList :
  visitEntry pathJoin dir file (FsDirectory files) fileList =
  if negb (isExcluded (pathJoin dir file))
  then getTypeDefinitionFiles pathJoin (pathJoin dir file) files fileList
  else fileList.
Proof.
  cbn [visitEntry]. destruct (negb (isExcluded (pathJoin dir file)));
    [|reflexivity].
  unfold getTypeDefinitionFiles. revert fileList.
  induction files as [|[file' node'] rest IH]; intros fileList;
    [reflexivity|]. cbn [fold_left fst snd]. apply IH.
Qed.

Lemma getTypeDefinitionFiles_cons pathJoin dir file node rest fileList :
  getTypeDefinitionFiles pathJoin dir ((file, node) :: rest) fileList =
  getTypeDefinitionFiles pathJoin dir rest
    (visitEntry pathJoin dir file node fileList).
Proof. reflexivity. Qed.

Section Walk.
Variable pathJoin : string -> string -> string.

Lemma walk_appends_entries files :
  Forall (fun entry =>
            forall dir file fileList,
              visitEntry pathJoin dir file (snd entry) fileList
              = fileList ++ visitEntry pathJoin dir file (snd entry) [])
    files ->
  forall dir fileList,
    getTypeDefinitionFiles pathJoin dir files fileList
    = fileList ++ getTypeDefinitionFiles pathJoin dir files [].
Proof.
  induction 1 as [|[file node] rest Hnode _ IH]; intros dir fileList.
  - cbn. now rewrite app_nil_r.
  - rewrite !getTypeDefinitionFiles_cons. cbn [snd] in Hnode.
    rewrite IH, (Hnode dir file fileList).
    rewrite (IH dir (visitEntry pathJoin dir file node [])).
    now rewrite app_assoc.
Qed.

Lemma visitEntry_appends node :
  forall dir file fileList,
    visitEntry pathJoin dir file node fileList
    = fileList ++ visitEntry pathJoin dir file node [].
Proof.
  induction node as [|files IH] using FsNode_induction; intros dir file fileList.
  - cbn [visitEntry]. destruct (_ && _); [reflexivity|now rewrite app_nil_r].
  - rewrite !visitEntry_directory.
    destruct (negb _); [|now rewrite app_nil_r].
    now apply walk_appends_entries.
Qed.

Lemma visitEntry_collects node :
  forall dir file fileList path,
    In path (visitEntry pathJoin dir file node fileList) ->
    In path fileList
    \/ exists d name,
         path = pathJoin d name
         /\ endsWith name ".ts" = true
         /\ JsString.includes path "/src/" = true
         /\ (d = dir \/ isExcluded d = false).
Proof.
  induction node as [|files IH] using FsNode_induction;
    intros dir file fileList path Hin.
  - cbn [visitEntry] in Hin.
    destruct (endsWith file ".ts" && _) eqn:Htest; [|now left].
    apply in_app_or in Hin as [Hin|[<-|[]]]; [now left|right].
    apply andb_prop in Htest as [Hts Hsrc].
    exists dir, file. auto.
  - rewrite visitEntry_directory in Hin.
    destruct (isExcluded (pathJoin dir file)) eqn:Hex; cbn [negb] in Hin;
      [now left|].
    revert fileList Hin.
    induction IH as [|[file' node'] rest Hnode _ IHrest]; intros fileList Hin.
    + now left.
    + rewrite getTypeDefinitionFiles_cons in Hin.
      apply IHrest in Hin as [Hin|Hin]; [|now right].
      apply Hnode in Hin as [Hin|(d & name & Hp & Hts & Hsrc & Hd)];
        [now left|right].
      exists d, name. repeat split; auto.
      destruct Hd as [->|Hd]; auto.
Qed.
End Walk.

(** X17.  The walk keeps the list it is given as the front of its
    result, and every path it adds is the name of a file ending in
    [.ts], joined to the directory walked or to one below it that is not
    excluded, and contains [/src/]. *)
Theorem walk_keeps_list_and_adds_source_files
    pathJoin dir files fileList :
  getTypeDefinitionFiles pathJoin dir files fileList
  = fileList ++ getTypeDefinitionFiles pathJoin dir files []
  /\ forall path,
       In path (getTypeDefinitionFiles pathJoin dir files []) ->
       collectable pathJoin dir path.
Proof.
  split.
  - apply walk_appends_entries. apply Forall_forall.
    intros entry _. apply visitEntry_appends.
  - intros path Hin.
    pose proof (visitEntry_collects pathJoin (FsDirectory files)) as H.
    assert (Hgen : forall fileList,
              In path (getTypeDefinitionFiles pathJoin dir files fileList) ->
              In path fileList \/ collectable pathJoin dir path).
    { clear Hin H. induction files as [|[file node] rest IH]; intros fl Hin.
      - now left.
      - rewrite getTypeDefinitionFiles_cons in Hin.
        apply IH in Hin as [Hin|Hin]; [|now right].
        apply visitEntry_collects in Hin as [Hin|Hin]; [now left|now right]. }
    destruct (Hgen [] Hin) as [[]|Hc]. exact Hc.
Qed.

(** X18.  When the path of the directory walked contains one of the
    excluded words itself, and joining the name of an entry to that path
    keeps the excluded words the path contains (as [path.join] does on
    a path in normal form, to which it only appends), no subdirectory
    is entered: the result holds the files of the directory itself that
    pass the test, and nothing else. *)
Theorem walk_from_excluded_root_stays_at_top
    pathJoin dir files :
  (forall file node word,
     In (file, node) files ->
     In word excludedDirectories ->
     JsString.includes dir word = true ->
     JsString.includes (pathJoin dir file) word = true) ->
  isExcluded dir = true ->
  getTypeDefinitionFiles pathJoin dir files [] = ownFiles pathJoin dir files.
Proof.
  intros Hjoin Hex.
  assert (Hsub : forall file node,
            In (file, node) files -> isExcluded (pathJoin dir file) = true).
  { intros file node Hin. unfold isExcluded in *.
    apply existsb_exists in Hex as [word [Hword Hhas]].
    apply existsb_exists. exists word. split; [assumption|].
    now apply (Hjoin file node). }
  clear Hjoin Hex.
  assert (Hgen : forall fileList,
            getTypeDefinitionFiles pathJoin dir files fileList
            = fileList ++ ownFiles pathJoin dir files).
  { induction files as [|[file node] rest IH]; intros fileList.
    - cbn. now rewrite app_nil_r.
    - rewrite getTypeDefinitionFiles_cons, IH
        by (intros f n Hin; apply (Hsub f n); now right).
      unfold ownFiles. cbn [filter fst snd]. destruct node as [|sub].
      + cbn [visitEntry isFileNode andb].
        destruct (endsWith file ".ts" && _); cbn [map fst];
          [now rewrite <- app_assoc|reflexivity].
      + rewrite visitEntry_directory, (Hsub file (FsDirectory sub))
          by now left.
        reflexivity. }
  apply (Hgen []).
Qed.

Lemma matchesAt_app p s t :
  JsString.matchesAt p s = true -> JsString.matchesAt p (s ++ t) = true.
Proof.
  revert s. induction p as [|a p IH]; intros s H; [reflexivity|].
  destruct s as [|b s]; [discriminate|]. cbn [JsString.matchesAt append] in *.
  apply andb_prop in H as [Hab Hps]. rewrite Hab. cbn [andb]. now apply IH.
Qed.

Lemma includes_app_l s t p :
  JsString.includes s p = true -> JsString.includes (s ++ t) p = true.
Proof.
  induction s as [|c s IH]; intros H.
  - cbn [JsString.includes] in H. rewrite orb_false_r in H.
    destruct p; [|discriminate]. destruct t; reflexivity.
  - cbn [JsString.includes append] in *.
    apply orb_true_iff in H as [H|H]; apply orb_true_iff.
    + left. now apply (matchesAt_app p (String c s) t).
    + right. now apply IH.
Qed.

Lemma walk_from_excluded_root_stays_at_top_witness :
  getTypeDefinitionFiles SampleFiles.joinWithSlash "/home/builder/app/src"
    [("main.ts", FsFile); ("api", FsDirectory [("users.ts", FsFile)])] []
  = ["/home/builder/app/src/main.ts"].
Proof.
  rewrite (walk_from_excluded_root_stays_at_top SampleFiles.joinWithSlash
             "/home/builder/app/src").
  - reflexivity.
  - intros file node word _ _ H. now apply includes_app_l.
  - reflexivity.
Defined.

Lemma walk_keeps_list_and_adds_source_files_witness :
  collectable SampleFiles.joinWithSlash "/app" "/app/src/api/users.ts".
Proof.
  apply (proj2 (walk_keeps_list_and_adds_source_files
                  SampleFiles.joinWithSlash "/app" SampleFiles.projectTree [])).
  vm_compute. auto.
Defined.

(* ================================================================== *)
(** ** Objects, continued *)
(* ================================================================== *)

Lemma obj_get_In {V} (obj : JsObject V) key v :
  obj_get obj key = Some v -> In (key, v) obj.
Proof.
  induction obj as [|[k w] rest IH]; cbn [obj_get]; [discriminate|].
  destruct (String.eqb_spec k key) as [->|Hne]; intros H.
  - inversion H. now left.
  - right. now apply IH.
Qed.

Lemma obj_get_none_keys {V} (obj : JsObject V) key :
  obj_get obj key = None <-> ~ In key (obj_keys obj).
Proof.
  induction obj as [|[k w] rest IH]; cbn [obj_get obj_keys map fst].
  - tauto.
  - destruct (String.eqb_spec k key) as [->|Hne].
    + split; [discriminate|]. intros H. exfalso. apply H. now left.
    + rewrite IH. unfold obj_keys. split; intros H.
      * intros [Heq|Hin]; auto.
      * intros Hin. apply H. now right.
Qed.

Lemma In_obj_get {V} (obj : JsObject V) key v :
  NoDup (obj_keys obj) -> In (key, v) obj -> obj_get obj key = Some v.
Proof.
  induction obj as [|[k w] rest IH]; intros Hnd Hin; [contradiction|].
  cbn [obj_keys map fst] in Hnd. inversion Hnd as [|x l Hnotin Hnd' E]; subst.
  cbn [obj_get]. destruct Hin as [Heq|Hin].
  - inversion Heq; subst. now rewrite String.eqb_refl.
  - destruct (String.eqb_spec k key) as [->|Hne]; [|now apply IH].
    exfalso. apply Hnotin. apply (in_map fst) in Hin. exact Hin.
Qed.

Lemma obj_set_keys {V} (obj : JsObject V) key v :
  obj_keys (obj_set obj key v) =
  match obj_get obj key with
  | Some _ => obj_keys obj
  | None => obj_keys obj ++ [key]
  end.
Proof.
  induction obj as [|[k w] rest IH]; cbn [obj_set obj_get]; [reflexivity|].
  destruct (String.eqb_spec k key) as [->|Hne]; [reflexivity|].
  cbn [obj_keys map fst]. unfold obj_keys in IH. rewrite IH.
  destruct (obj_get rest key); reflexivity.
Qed.

Lemma obj_set_NoDup {V} (obj : JsObject V) key v :
  NoDup (obj_keys obj) -> NoDup (obj_keys (obj_set obj key v)).
Proof.
  intros Hnd. rewrite obj_set_keys.
  destruct (obj_get obj key) eqn:Hget; [assumption|].
  apply obj_get_none_keys in Hget.
  apply NoDup_app; auto.
  - constructor; [intros []|constructor].
  - intros x Hx [<-|[]]. contradiction.
Qed.

(* ================================================================== *)
(** ** [collectTypeDefinitions] *)
(* ================================================================== *)

Lemma setAll_app {V} (obj : JsObject V) l1 l2 :
  setAll obj (l1 ++ l2) = setAll (setAll obj l1) l2.
Proof. apply fold_left_app. Qed.

Lemma setAll_NoDup {V} (entries : list (string * V)) :
  forall obj, NoDup (obj_keys obj) -> NoDup (obj_keys (setAll obj entries)).
Proof.
  induction entries as [|[k v] rest IH]; intros obj Hnd; [assumption|].
  apply IH. now apply obj_set_NoDup.
Qed.

Lemma setAll_other_keys {V} (entries : list (string * V)) key :
  ~ In key (map fst entries) ->
  forall obj, obj_get (setAll obj entries) key = obj_get obj key.
Proof.
  induction entries as [|[k v] rest IH]; intros Hnotin obj; [reflexivity|].
  cbn [setAll fold_left fst snd]. fold (setAll (obj_set obj k v) rest).
  rewrite IH; [|intros H; apply Hnotin; now right].
  apply obj_get_set_other. intros ->. apply Hnotin. now left.
Qed.

Lemma setAll_sound {V} (entries : list (string * V)) key v :
  forall obj,
    obj_get (setAll obj entries) key = Some v ->
    obj_get obj key = Some v \/ In (key, v) entries.
Proof.
  induction entries as [|[k w] rest IH]; intros obj Hget; [now left|].
  cbn [setAll fold_left fst snd] in Hget. fold (setAll (obj_set obj k w) rest) in Hget.
  apply IH in Hget as [Hget|Hin]; [|right; now right].
  destruct (String.eqb_spec k key) as [->|Hne].
  - rewrite obj_get_set_same in Hget. inversion Hget. right. now left.
  - rewrite obj_get_set_other in Hget by assumption. now left.
Qed.

Lemma setAll_keeps {V} (entries : list (string * V)) key :
  forall obj, obj_get obj key <> None -> obj_get (setAll obj entries) key <> None.
Proof.
  induction entries as [|[k w] rest IH]; intros obj Hget; [assumption|].
  cbn [setAll fold_left fst snd]. fold (setAll (obj_set obj k w) rest).
  apply IH. destruct (String.eqb_spec k key) as [->|Hne].
  - rewrite obj_get_set_same. discriminate.
  - now rewrite obj_get_set_other.
Qed.

Lemma setAll_complete {V} (entries : list (string * V)) key :
  In key (map fst entries) ->
  forall obj, obj_get (setAll obj entries) key <> None.
Proof.
  induction entries as [|[k w] rest IH]; intros Hin obj; [contradiction|].
  cbn [setAll fold_left fst snd]. fold (setAll (obj_set obj k w) rest).
  destruct (String.eqb_spec k key) as [->|Hne].
  - apply setAll_keeps. rewrite obj_get_set_same. discriminate.
  - apply IH. destruct Hin as [Heq|Hin]; [contradiction|assumption].
Qed.

Lemma collectNode_declared sourceFile typeDefinitions node :
  collectNode sourceFile typeDefinitions node =
  match declaredType sourceFile node with
  | Some d => obj_set typeDefinitions (fst d) (snd d)
  | None => typeDefinitions
  end.
Proof. destruct node as [[|] ? ?|[|] ? ?| |]; reflexivity. Qed.

Lemma collectNodes_setAll sourceFile ns :
  forall start,
    fold_left (collectNode sourceFile) ns start =
    setAll start
      (flat_map (fun node => match declaredType sourceFile node with
                             | Some d => [d]
                             | None => []
                             end) ns).
Proof.
  induction ns as [|node ns IH]; intros start; [reflexivity|].
  cbn [fold_left flat_map]. rewrite setAll_app, IH. f_equal.
  rewrite collectNode_declared.
  destruct (declaredType sourceFile node) as [[n info]|]; reflexivity.
Qed.

Lemma collectFiles_setAll program :
  forall start,
    fold_left
      (fun typeDefinitions sourceFile =>
         if skippedFile sourceFile then typeDefinitions
         else fold_left (collectNode sourceFile) (nodes sourceFile)
                typeDefinitions)
      program start
    = setAll start (declarationsOf program).
Proof.
  unfold declarationsOf.
  induction program as [|sourceFile rest IH]; intros start; [reflexivity|].
  cbn [fold_left flat_map]. rewrite setAll_app, IH. f_equal.
  destruct (skippedFile sourceFile); [reflexivity|].
  apply collectNodes_setAll.
Qed.

Lemma collectTypeDefinitions_setAll program :
  collectTypeDefinitions program = setAll [] (declarationsOf program).
Proof. apply collectFiles_setAll. Qed.

Lemma declarationsOf_name program typeName typeInfo :
  In (typeName, typeInfo) (declarationsOf program) ->
  ti_name typeInfo = typeName.
Proof.
  unfold declarationsOf. intros Hin.
  apply in_flat_map in Hin as [sourceFile [_ Hin]].
  destruct (skippedFile sourceFile); [contradiction|].
  apply in_flat_map in Hin as [node [_ Hin]].
  destruct node as [[|] ? ?|[|] ? ?| |]; cbn in Hin;
    try contradiction; destruct Hin as [Heq|[]]; inversion Heq; reflexivity.
Qed.

Lemma collected_names_unique program :
  NoDup (obj_keys (collectTypeDefinitions program)).
Proof.
  rewrite collectTypeDefinitions_setAll. apply setAll_NoDup. constructor.
Qed.

(** X1.  The map of type definitions has every name once, and every
    entry stands under the name it carries. *)
Theorem collected_names_are_unique_and_match program :
  NoDup (obj_keys (collectTypeDefinitions program))
  /\ Forall (fun entry => ti_name (snd entry) = fst entry)
       (collectTypeDefinitions program).
Proof.
  rewrite collectTypeDefinitions_setAll. split.
  - apply setAll_NoDup. constructor.
  - apply Forall_forall. intros [n info] Hin. cbn [fst snd].
    apply (declarationsOf_name program).
    apply In_obj_get in Hin; [|apply setAll_NoDup; constructor].
    apply setAll_sound in Hin as [Hin|Hin]; [discriminate|assumption].
Qed.

(** X2.  A name has an entry in the map exactly when an exported type
    alias or interface of that name is declared in a file that is not
    skipped, and the entry is that of one such declaration. *)
Theorem collected_iff_exported_declaration program typeName :
  (obj_get (collectTypeDefinitions program) typeName <> None
   <-> In typeName (map fst (declarationsOf program)))
  /\ forall typeInfo,
       obj_get (collectTypeDefinitions program) typeName = Some typeInfo ->
       In (typeName, typeInfo) (declarationsOf program).
Proof.
  rewrite collectTypeDefinitions_setAll. split; [split|].
  - intros Hget.
    destruct (obj_get (setAll [] (declarationsOf program)) typeName)
      as [info|] eqn:E; [|congruence].
    apply setAll_sound in E as [E|E]; [discriminate|].
    apply (in_map fst) in E. exact E.
  - intros Hin. now apply setAll_complete.
  - intros info Hget.
    apply setAll_sound in Hget as [Hget|Hget]; [discriminate|assumption].
Qed.

(** X3.  Of several exported declarations of one name the last one in
    the order of the scan gives the entry. *)
Theorem last_declaration_wins program before typeName typeInfo after :
  declarationsOf program = before ++ (typeName, typeInfo) :: after ->
  ~ In typeName (map fst after) ->
  obj_get (collectTypeDefinitions program) typeName = Some typeInfo.
Proof.
  intros Hdecl Hlast.
  rewrite collectTypeDefinitions_setAll, Hdecl, setAll_app.
  cbn [setAll fold_left fst snd].
  fold (setAll (obj_set (setAll [] before) typeName typeInfo) after).
  rewrite (setAll_other_keys after typeName Hlast).
  apply obj_get_set_same.
Qed.

Lemma last_declaration_wins_witness :
  obj_get (collectTypeDefinitions SampleDeclarations.redeclaringProgram) "User"
  = Some {| ti_name := "User"; ti_type := 4; ti_file := "/app/src/b.ts" |}.
Proof.
  apply (last_declaration_wins SampleDeclarations.redeclaringProgram
           [("User", {| ti_name := "User"; ti_type := 0;
                        ti_file := "/app/src/a.ts" |});
            ("Id", {| ti_name := "Id"; ti_type := 2;
                      ti_file := "/app/src/a.ts" |})]
           "User" _ []).
  - reflexivity.
  - simpl. tauto.
Defined.

Lemma collected_iff_exported_declaration_witness :
  obj_get (collectTypeDefinitions SampleDeclarations.redeclaringProgram) "Hidden"
  = None
  /\ obj_get (collectTypeDefinitions SampleDeclarations.redeclaringProgram)
       "Window" = None.
Proof.
  split.
  - destruct (obj_get (collectTypeDefinitions
                         SampleDeclarations.redeclaringProgram) "Hidden")
      as [info|] eqn:E; [|reflexivity].
    apply (proj2 (collected_iff_exported_declaration
                    SampleDeclarations.redeclaringProgram "Hidden")) in E.
    vm_compute in E. repeat (destruct E as [E|E]; [discriminate E|]).
    destruct E.
  - destruct (obj_get (collectTypeDefinitions
                         SampleDeclarations.redeclaringProgram) "Window")
      as [info|] eqn:E; [|reflexivity].
    apply (proj2 (collected_iff_exported_declaration
                    SampleDeclarations.redeclaringProgram "Window")) in E.
    vm_compute in E. repeat (destruct E as [E|E]; [discriminate E|]).
    destruct E.
Defined.

(* ================================================================== *)
(** ** The registry loop *)
(* ================================================================== *)

Lemma processed_has_In typeName st :
  existsb (String.eqb typeName) (processedTypes st) = true
  <-> In typeName (processedTypes st).
Proof.
  rewrite existsb_exists. split.
  - intros [x [Hin Heq]]. apply String.eqb_eq in Heq. now subst.
  - intros Hin. exists typeName. split; [assumption|apply String.eqb_refl].
Qed.

Section RegistryLoop.
Variable typeChecker : handle -> TsType.
Variable random : nat -> string.
Variable fuel : nat.
Variable typeDefinitions : JsObject TypeInfo.

Let root := serializeRoot typeChecker random fuel typeDefinitions.
Let expand := expandRegistry typeChecker random fuel typeDefinitions.

Lemma serializeRoot_accumulates type : accumulates (root type).
Proof. intros st. apply serializeType_accumulates. Qed.

Lemma expandRegistry_cons typeName typeInfo rest typeRegistry st :
  expand ((typeName, typeInfo) :: rest) typeRegistry st =
  if existsb (String.eqb typeName) (processedTypes st)
  then expand rest typeRegistry st
  else match root (ti_type typeInfo) st with
       | (Return typeStructure, st1) =>
           expand rest
             (obj_set typeRegistry typeName
                {| structure := typeStructure; file := ti_file typeInfo |}) st1
       | (Throw e, st1) => (Throw e, st1)
       end.
Proof.
  unfold expand. cbn [expandRegistry]. unfold bind at 1, processed_has.
  destruct (existsb _ _); reflexivity.
Qed.

Lemma expandRegistry_origin entries :
  forall typeRegistry st typeRegistry' st' typeName entry,
    expand entries typeRegistry st = (Return typeRegistry', st') ->
    obj_get typeRegistry' typeName = Some entry ->
    obj_get typeRegistry typeName = Some entry
    \/ exists typeInfo,
         In (typeName, typeInfo) entries /\ file entry = ti_file typeInfo.
Proof.
  induction entries as [|[n info] rest IH];
    intros reg st reg' st' typeName entry Hrun Hget.
  - inversion Hrun; subst. now left.
  - rewrite expandRegistry_cons in Hrun.
    destruct (existsb _ _).
    + destruct (IH _ _ _ _ _ _ Hrun Hget) as [H|[ti [Hin Hf]]]; [now left|].
      right. exists ti. split; [now right|assumption].
    + destruct (root (ti_type info) st) as [[v|e] st1]; try discriminate.
      destruct (IH _ _ _ _ _ _ Hrun Hget) as [H|[ti [Hin Hf]]].
      * destruct (String.eqb_spec n typeName) as [->|Hne].
        -- rewrite obj_get_set_same in H. inversion H; subst.
           right. exists info. split; [now left|reflexivity].
        -- rewrite obj_get_set_other in H by assumption. now left.
      * right. exists ti. split; [now right|assumption].
Qed.

Lemma expandRegistry_covers entries :
  forall typeRegistry st typeRegistry' st',
    expand entries typeRegistry st = (Return typeRegistry', st') ->
    grows st st'
    /\ (forall key, obj_get typeRegistry key <> None ->
                    obj_get typeRegistry' key <> None)
    /\ (forall typeName typeInfo,
          In (typeName, typeInfo) entries ->
          obj_get typeRegistry' typeName <> None
          \/ In typeName (processedTypes st')).
Proof.
  induction entries as [|[n info] rest IH]; intros reg st reg' st' Hrun.
  - inversion Hrun; subst. split; [apply grows_refl|].
    split; [auto|]. intros typeName typeInfo [].
  - rewrite expandRegistry_cons in Hrun.
    destruct (existsb _ _) eqn:Hproc.
    + destruct (IH _ _ _ _ Hrun) as (Hg & Hkeep & Hcov).
      split; [assumption|]. split; [assumption|].
      intros typeName typeInfo [Heq|Hin]; [|eauto].
      inversion Heq; subst. right. apply Hg. now apply processed_has_In.
    + pose proof (serializeRoot_accumulates (ti_type info) st) as Hacc.
      destruct (root (ti_type info) st) as [[v|e] st1]; try discriminate.
      cbn [snd] in Hacc.
      destruct (IH _ _ _ _ Hrun) as (Hg & Hkeep & Hcov).
      assert (Hset : forall key, obj_get reg key <> None ->
                obj_get (obj_set reg n {| structure := v; file := ti_file info |})
                  key <> None).
      { intros key Hk. destruct (String.eqb_spec n key) as [->|Hne].
        - rewrite obj_get_set_same. discriminate.
        - now rewrite obj_get_set_other. }
      split; [eapply grows_trans; eauto|]. split; [auto|].
      intros typeName typeInfo [Heq|Hin]; [|eauto].
      inversion Heq; subst. left. apply Hkeep.
      rewrite obj_get_set_same. discriminate.
Qed.
End RegistryLoop.

Section ProgramAccumulates.
Variable typeChecker : handle -> TsType.
Variable random : nat -> string.
Variable fuel : nat.
Variable typeDefinitions : JsObject TypeInfo.
Variable typeRegistry : JsObject RegistryEntry.

Lemma forEachParameter_accumulates params :
  forall parameters,
    accumulates (forEachParameter typeChecker random fuel typeDefinitions
                   typeRegistry params parameters).
Proof.
  induction params as [|param rest IH]; intros parameters.
  - apply accumulates_ret.
  - cbn [forEachParameter]. apply accumulates_bind; [|intros v; apply IH].
    destruct (param_typeText param) as [typeName|];
      [destruct (registryStructure typeRegistry typeName)|];
      try apply accumulates_ret; apply serializeRoot_accumulates.
Qed.

Lemma visitFunction_accumulates sourceFile acts node :
  accumulates (visitFunction typeChecker random fuel typeDefinitions
                 typeRegistry sourceFile acts node).
Proof.
  destruct node as [| |exported [functionName|] [comments|] params|];
    try apply accumulates_ret; destruct exported; try apply accumulates_ret.
  cbn [visitFunction]. destruct (find _ comments); [|apply accumulates_ret].
  apply accumulates_bind; [apply forEachParameter_accumulates|].
  intros ps. apply accumulates_ret.
Qed.

Lemma visitNodes_accumulates sourceFile ns :
  forall acts,
    accumulates (visitNodes typeChecker random fuel typeDefinitions
                   typeRegistry sourceFile ns acts).
Proof.
  induction ns as [|node rest IH]; intros acts.
  - apply accumulates_ret.
  - cbn [visitNodes]. apply accumulates_bind;
      [apply visitFunction_accumulates|intros a; apply IH].
Qed.

Lemma visitFiles_accumulates program :
  forall acts,
    accumulates (visitFiles typeChecker random fuel typeDefinitions
                   typeRegistry program acts).
Proof.
  induction program as [|sourceFile rest IH]; intros acts.
  - apply accumulates_ret.
  - cbn [visitFiles]. destruct (skippedFile sourceFile); [apply IH|].
    apply accumulates_bind; [apply visitNodes_accumulates|intros a; apply IH].
Qed.
End ProgramAccumulates.

Lemma generateActionsJson_returns_inv typeChecker random fuel program st doc st' :
  generateActionsJson typeChecker random fuel program st = (Return doc, st') ->
  exists st1,
    expandRegistry typeChecker random fuel (collectTypeDefinitions program)
      (collectTypeDefinitions program) [] st
    = (Return (typeAliases doc), st1)
    /\ visitFiles typeChecker random fuel (collectTypeDefinitions program)
         (typeAliases doc) program [] st1 = (Return (actions doc), st')
    /\ grows st1 st'.
Proof.
  unfold generateActionsJson, bind, ret. intros Hrun.
  destruct (expandRegistry _ _ _ _ _ _ st) as [[reg|e] st1] eqn:Hreg;
    try discriminate.
  pose proof (visitFiles_accumulates typeChecker random fuel
                (collectTypeDefinitions program) reg program [] st1) as Hacc.
  destruct (visitFiles _ _ _ _ _ _ _ st1) as [[acts|e] st2] eqn:Hvisit;
    try discriminate.
  inversion Hrun; subst. exists st1. cbn [typeAliases actions snd] in *.
  split; [reflexivity|]. split; [assumption|assumption].
Qed.

Lemma typeAliases_origin_file
    typeChecker random fuel program st doc st' typeName entry :
  generateActionsJson typeChecker random fuel program st = (Return doc, st') ->
  obj_get (typeAliases doc) typeName = Some entry ->
  exists typeInfo,
    obj_get (collectTypeDefinitions program) typeName = Some typeInfo
    /\ file entry = ti_file typeInfo.
Proof.
  intros Hrun Hget.
  apply generateActionsJson_returns_inv in Hrun as (st1 & Hreg & _ & _).
  destruct (expandRegistry_origin _ _ _ _ _ _ _ _ _ _ _ Hreg Hget)
    as [Hempty|[info [Hin Hfile]]]; [discriminate|].
  exists info. split; [|assumption].
  apply In_obj_get; [|assumption].
  apply collected_names_unique.
Qed.

(** X4.  Every entry of [typeAliases] stands under the name of a
    collected type definition and carries the file of that definition. *)
Theorem typeAliases_entries_come_from_definitions
    typeChecker random fuel program st doc st' typeName entry :
  generateActionsJson typeChecker random fuel program st = (Return doc, st') ->
  obj_get (typeAliases doc) typeName = Some entry ->
  exists typeInfo,
    obj_get (collectTypeDefinitions program) typeName = Some typeInfo
    /\ file entry = ti_file typeInfo.
Proof. apply typeAliases_origin_file. Qed.

Lemma typeAliases_entries_come_from_definitions_witness :
  exists typeInfo,
    obj_get (collectTypeDefinitions SampleTypes.nestedProgram) "Outer"
    = Some typeInfo
    /\ "/app/src/types.ts" = ti_file typeInfo.
Proof.
  eapply (typeAliases_entries_come_from_definitions SampleTypes.nestedChecker
            Sample.noRandom 5 SampleTypes.nestedProgram initialState _ _
            "Outer" {| structure := _; file := "/app/src/types.ts" |}).
  - vm_compute. reflexivity.
  - reflexivity.
Defined.

(** X5.  When the run ends, every collected type definition either has
    its entry in [typeAliases] or has its name in the set of processed
    names: an entry is missing only for a name that was marked as
    processed before the registry loop came to it.  (A type named
    [__proto__] is set aside, see [ownKey].) *)
Theorem collected_type_is_registered_or_processed
    typeChecker random fuel program st doc st' typeName :
  generateActionsJson typeChecker random fuel program st = (Return doc, st') ->
  ownKey typeName ->
  obj_get (collectTypeDefinitions program) typeName <> None ->
  obj_get (typeAliases doc) typeName <> None
  \/ In typeName (processedTypes st').
Proof.
  intros Hrun _ Hget.
  apply generateActionsJson_returns_inv in Hrun as (st1 & Hreg & _ & Hgrows).
  destruct (obj_get (collectTypeDefinitions program) typeName)
    as [info|] eqn:E; [|congruence].
  apply obj_get_In in E.
  destruct (expandRegistry_covers _ _ _ _ _ _ _ _ _ Hreg) as (_ & _ & Hcov).
  destruct (Hcov typeName info E) as [H|H]; [now left|right].
  now apply Hgrows.
Qed.

Lemma collected_type_is_registered_or_processed_witness :
  obj_get [("Outer",
            {| structure :=
                 JObject [("inner", JObject [("x", JString "string")])];
               file := "/app/src/types.ts" |})] "Inner" <> None
  \/ In "Inner" ["Outer"; "Inner"].
Proof.
  apply (collected_type_is_registered_or_processed SampleTypes.nestedChecker
           Sample.noRandom 5 SampleTypes.nestedProgram initialState
           {| actions := [];
              typeAliases :=
                [("Outer",
                  {| structure :=
                       JObject [("inner", JObject [("x", JString "string")])];
                     file := "/app/src/types.ts" |})] |}
           {| processedTypes := ["Outer"; "Inner"]; randomCalls := 0;
              warnings := [] |} "Inner").
  - vm_compute. reflexivity.
  - unfold ownKey. discriminate.
  - vm_compute. discriminate.
Defined.

(** X6.  The type definition collected first always has its entry in
    [typeAliases] when the run, started with no name processed, ends.
    (A type named [__proto__] is set aside, see [ownKey].) *)
Theorem first_collected_type_is_registered
    typeChecker random fuel program doc st' typeName typeInfo rest :
  generateActionsJson typeChecker random fuel program initialState
  = (Return doc, st') ->
  ownKey typeName ->
  collectTypeDefinitions program = (typeName, typeInfo) :: rest ->
  exists entry,
    obj_get (typeAliases doc) typeName = Some entry
    /\ file entry = ti_file typeInfo.
Proof.
  intros Hrun _ Hfirst.
  pose proof Hrun as Hrun'.
  apply generateActionsJson_returns_inv in Hrun as (st1 & Hreg & _ & _).
  rewrite Hfirst in Hreg at 2. rewrite expandRegistry_cons in Hreg.
  cbn [initialState processedTypes existsb] in Hreg.
  destruct (serializeRoot _ _ _ _ _ initialState) as [[v|e] st0];
    try discriminate.
  destruct (expandRegistry_covers _ _ _ _ _ _ _ _ _ Hreg) as (_ & Hkeep & _).
  specialize (Hkeep typeName).
  rewrite obj_get_set_same in Hkeep.
  destruct (obj_get (typeAliases doc) typeName) as [entry|] eqn:E;
    [|exfalso; apply Hkeep; [discriminate|reflexivity]].
  exists entry. split; [reflexivity|].
  destruct (typeAliases_origin_file typeChecker random fuel program
              initialState doc st' typeName entry Hrun' E) as [info [Hget Hfile]].
  rewrite Hfirst in Hget. cbn [obj_get] in Hget.
  rewrite String.eqb_refl in Hget. inversion Hget; subst. exact Hfile.
Qed.

Lemma first_collected_type_is_registered_witness :
  exists entry,
    obj_get [("Outer",
              {| structure :=
                   JObject [("inner", JObject [("x", JString "string")])];
                 file := "/app/src/types.ts" |})] "Outer" = Some entry
    /\ file entry = "/app/src/types.ts".
Proof.
  apply (first_collected_type_is_registered SampleTypes.nestedChecker
           Sample.noRandom 5 SampleTypes.nestedProgram
           {| actions := [];
              typeAliases :=
                [("Outer",
                  {| structure :=
                       JObject [("inner", JObject [("x", JString "string")])];
                     file := "/app/src/types.ts" |})] |}
           {| processedTypes := ["Outer"; "Inner"]; randomCalls := 0;
              warnings := [] |}
           "Outer"
           {| ti_name := "Outer"; ti_type := 0; ti_file := "/app/src/types.ts" |}
           [("Inner", {| ti_name := "Inner"; ti_type := 1;
                         ti_file := "/app/src/types.ts" |})]).
  - vm_compute. reflexivity.
  - unfold ownKey. discriminate.
  - reflexivity.
Defined.

(* ================================================================== *)
(** ** The actions *)
(* ================================================================== *)

Section ActionScan.
Variable typeChecker : handle -> TsType.
Variable random : nat -> string.
Variable fuel : nat.
Variable typeDefinitions : JsObject TypeInfo.
Variable typeRegistry : JsObject RegistryEntry.

Let each := forEachParameter typeChecker random fuel typeDefinitions typeRegistry.
Let visit := visitFunction typeChecker random fuel typeDefinitions typeRegistry.

Lemma visitFunction_result sourceFile acts node st acts' st' :
  visit sourceFile acts node st = (Return acts', st') ->
  match markedFunction node with
  | None => acts' = acts
  | Some marked =>
      exists action,
        acts' = acts ++ [action]
        /\ actionKey action = (fst marked, fileName sourceFile)
        /\ describedBy action marked
  end.
Proof.
  unfold visit.
  destruct node as [| |exported [functionName|] [comments|] params|];
    cbn [visitFunction markedFunction]; try (intros H; inversion H; reflexivity);
    destruct exported; try (intros H; inversion H; reflexivity).
  destruct (find _ comments) as [commentText|] eqn:Hfind;
    [|intros H; inversion H; reflexivity].
  unfold bind, ret.
  destruct (forEachParameter _ _ _ _ _ params [] st) as [[ps|e] st1];
    try discriminate.
  intros H. inversion H; subst. eexists. split; [reflexivity|].
  split; [reflexivity|].
  unfold describedBy. cbn [action_description action_name].
  split; [reflexivity|]. split.
  - destruct (JsString.truthy (descriptionOf commentText)) eqn:Ht;
      [assumption|reflexivity].
  - destruct (descriptionOf commentText) eqn:Hd; cbn [JsString.truthy]; auto.
Qed.

Lemma visitNodes_result sourceFile ns :
  forall acts st acts' st',
    visitNodes typeChecker random fuel typeDefinitions typeRegistry
      sourceFile ns acts st = (Return acts', st') ->
    exists added,
      acts' = acts ++ added
      /\ map actionKey added
         = flat_map (fun node => match markedFunction node with
                                 | Some (functionName, _) =>
                                     [(functionName, fileName sourceFile)]
                                 | None => []
                                 end) ns
      /\ Forall2 describedBy added
           (flat_map (fun node => match markedFunction node with
                                  | Some marked => [marked]
                                  | None => []
                                  end) ns).
Proof.
  induction ns as [|node rest IH]; intros acts st acts' st' Hrun.
  - inversion Hrun; subst. exists []. rewrite app_nil_r.
    repeat split. constructor.
  - cbn [visitNodes] in Hrun. unfold bind in Hrun.
    destruct (visitFunction _ _ _ _ _ sourceFile acts node st)
      as [[acts1|e] st1] eqn:Hvisit; try discriminate.
    apply visitFunction_result in Hvisit.
    destruct (IH _ _ _ _ Hrun) as (added & -> & Hkeys & Hdesc).
    cbn [flat_map].
    destruct (markedFunction node) as [[functionName commentText]|].
    + destruct Hvisit as (action & -> & Hkey & Hwell).
      exists (action :: added). rewrite <- app_assoc. split; [reflexivity|].
      cbn [map app]. cbn [fst] in Hkey. rewrite Hkey, Hkeys.
      split; [reflexivity|]. now constructor.
    + subst. exists added. auto.
Qed.

Lemma visitFiles_result program :
  forall acts st acts' st',
    visitFiles typeChecker random fuel typeDefinitions typeRegistry
      program acts st = (Return acts', st') ->
    exists added,
      acts' = acts ++ added
      /\ map actionKey added = markedFunctions program
      /\ Forall2 describedBy added (markedComments program).
Proof.
  induction program as [|sourceFile rest IH]; intros acts st acts' st' Hrun.
  - inversion Hrun; subst. exists []. rewrite app_nil_r.
    repeat split. constructor.
  - cbn [visitFiles] in Hrun. unfold markedFunctions, markedComments.
    cbn [flat_map]. fold (markedFunctions rest). fold (markedComments rest).
    destruct (skippedFile sourceFile); [now apply IH in Hrun|].
    unfold bind in Hrun.
    destruct (visitNodes _ _ _ _ _ sourceFile (nodes sourceFile) acts st)
      as [[acts1|e] st1] eqn:Hnodes; try discriminate.
    apply visitNodes_result in Hnodes as (added1 & -> & Hk1 & Hd1).
    destruct (IH _ _ _ _ Hrun) as (added2 & -> & Hk2 & Hd2).
    exists (added1 ++ added2). rewrite <- app_assoc. split; [reflexivity|].
    rewrite map_app, Hk1, Hk2. split; [reflexivity|].
    now apply Forall2_app.
Qed.
End ActionScan.

Lemma generateActionsJson_actions typeChecker random fuel program st :
  flatUnions typeChecker ->
  2 <= fuel ->
  exists doc st',
    generateActionsJson typeChecker random fuel program st = (Return doc, st')
    /\ map actionKey (actions doc) = markedFunctions program
    /\ Forall2 describedBy (actions doc) (markedComments program).
Proof.
  intros Hflat Hroom.
  destruct (generateActionsJson_returns typeChecker random fuel program st
              Hflat Hroom) as [doc [st' Hrun]].
  exists doc, st'. split; [assumption|].
  apply generateActionsJson_returns_inv in Hrun as (st1 & _ & Hvisit & _).
  apply visitFiles_result in Hvisit as (added & Heq & Hkeys & Hdesc).
  rewrite Heq. auto.
Qed.

(** X7.  Unions being flat and the stack having room for two calls, the
    run ends with a document, and its actions are, in name and module,
    the marked functions of the program in the order of the scan:
    exported function declarations with a name and with a leading
    comment that contains the marker, in files that are not skipped.
    No other function gives an action. *)
Theorem actions_are_the_marked_functions
    typeChecker random fuel program st :
  flatUnions typeChecker ->
  2 <= fuel ->
  exists doc st',
    generateActionsJson typeChecker random fuel program st = (Return doc, st')
    /\ map actionKey (actions doc) = markedFunctions program.
Proof.
  intros Hflat Hroom.
  destruct (generateActionsJson_actions typeChecker random fuel program st
              Hflat Hroom) as (doc & st' & Hrun & Hkeys & _).
  eauto.
Qed.

(** X8.  Under the same conditions the actions of the document answer,
    one by one and in order, to the marked functions of the program:
    each has the name of its function and a description that is not
    empty, made from the first leading comment of that function that
    contains the marker, or [Execute] followed by the name of the
    function when that comment leaves nothing. *)
Theorem every_action_is_described
    typeChecker random fuel program st :
  flatUnions typeChecker ->
  2 <= fuel ->
  exists doc st',
    generateActionsJson typeChecker random fuel program st = (Return doc, st')
    /\ Forall2 describedBy (actions doc) (markedComments program).
Proof.
  intros Hflat Hroom.
  destruct (generateActionsJson_actions typeChecker random fuel program st
              Hflat Hroom) as (doc & st' & Hrun & _ & Hdesc).
  eauto.
Qed.

Lemma userChecker_flat : flatUnions SampleActions.userChecker.
Proof. intros [|[|[|[|h]]]] m Hunion; discriminate Hunion. Qed.

Lemma actions_are_the_marked_functions_witness :
  exists doc st',
    generateActionsJson SampleActions.userChecker Sample.noRandom 8
      SampleActions.userProgram initialState = (Return doc, st')
    /\ map actionKey (actions doc)
       = [("createUser", "/app/src/users.ts"); ("ping", "/app/src/users.ts");
          ("pause", "/app/src/users.ts")].
Proof.
  destruct (actions_are_the_marked_functions SampleActions.userChecker
              Sample.noRandom 8 SampleActions.userProgram initialState)
    as (doc & st' & Hrun & Hkeys).
  - exact userChecker_flat.
  - lia.
  - exists doc, st'. split; [exact Hrun|].
    etransitivity; [exact Hkeys|reflexivity].
Defined.

Lemma every_action_is_described_witness :
  exists doc st',
    generateActionsJson SampleActions.userChecker Sample.noRandom 8
      SampleActions.userProgram initialState = (Return doc, st')
    /\ Forall2 describedBy (actions doc)
         [("createUser", "/** @abra-action Create a user */");
          ("ping", "// @abra-action");
          ("pause", ("// @abra-action" ++ noBreakSpace)%string)].
Proof.
  destruct (every_action_is_described SampleActions.userChecker
              Sample.noRandom 8 SampleActions.userProgram initialState)
    as (doc & st' & Hrun & Hdesc).
  - exact userChecker_flat.
  - lia.
  - exists doc, st'. split; [exact Hrun|exact Hdesc].
Defined.

(** The descriptions in that document: the block comment keeps its
    second star, and the two comments that hold nothing but the marker
    and white space, a no-break space in the one, fall back on the name
    of the function. *)
Example descriptions_of_the_sample :
  exists doc st',
    generateActionsJson SampleActions.userChecker Sample.noRandom 8
      SampleActions.userProgram initialState = (Return doc, st')
    /\ map action_description (actions doc)
       = ["*  Create a user"; "Execute ping"; "Execute pause"].
Proof. eexists. eexists. split; [vm_compute; reflexivity|reflexivity]. Qed.

(* ================================================================== *)
(** ** The parameters of an action *)
(* ================================================================== *)

Lemma assign_other obj key key' v :
  key <> key' -> obj_get (assign obj key v) key' = obj_get obj key'.
Proof.
  intros Hne. unfold assign. destruct (_ && _); [reflexivity|].
  now apply obj_get_set_other.
Qed.

Lemma assign_own obj key v :
  ownKey key -> assign obj key v = obj_set obj key v.
Proof.
  intros Hown. unfold assign.
  now rewrite (proj2 (String.eqb_neq key "__proto__") Hown).
Qed.

Lemma assign_keeps obj key key' v :
  obj_get obj key' <> None -> obj_get (assign obj key v) key' <> None.
Proof.
  intros Hsome. unfold assign. destruct (_ && _); [assumption|].
  destruct (String.eqb_spec key key') as [->|Hne].
  - rewrite obj_get_set_same. discriminate.
  - now rewrite obj_get_set_other.
Qed.

Section ParameterLoop.
Variable typeChecker : handle -> TsType.
Variable random : nat -> string.
Variable fuel : nat.
Variable typeDefinitions : JsObject TypeInfo.
Variable typeRegistry : JsObject RegistryEntry.

Let each := forEachParameter typeChecker random fuel typeDefinitions typeRegistry.
Let root := serializeRoot typeChecker random fuel typeDefinitions.

Lemma forEachParameter_cons param rest parameters st :
  each (param :: rest) parameters st =
  match (match param_typeText param with
         | Some typeName =>
             match registryStructure typeRegistry typeName with
             | Some registered => ret registered
             | None => root (param_type param)
             end
         | None => root (param_type param)
         end) st with
  | (Return v, st1) => each rest (assign parameters (param_name param) v) st1
  | (Throw e, st1) => (Throw e, st1)
  end.
Proof. reflexivity. Qed.

Lemma forEachParameter_other_names key params :
  (forall q, In q params -> param_name q <> key) ->
  forall parameters st parameters' st',
    each params parameters st = (Return parameters', st') ->
    obj_get parameters' key = obj_get parameters key.
Proof.
  induction params as [|param rest IH]; intros Hnames ps st ps' st' Hrun.
  - inversion Hrun. reflexivity.
  - rewrite forEachParameter_cons in Hrun.
    match type of Hrun with
    | match ?m st with _ => _ end = _ =>
        destruct (m st) as [[v|e] st1]; try discriminate
    end.
    rewrite (IH (fun q Hq => Hnames q (or_intror Hq)) _ _ _ _ Hrun).
    apply assign_other. apply Hnames. now left.
Qed.

Lemma forEachParameter_keeps key params :
  forall parameters st parameters' st',
    obj_get parameters key <> None ->
    each params parameters st = (Return parameters', st') ->
    obj_get parameters' key <> None.
Proof.
  induction params as [|param rest IH]; intros ps st ps' st' Hsome Hrun.
  - inversion Hrun. now subst.
  - rewrite forEachParameter_cons in Hrun.
    match type of Hrun with
    | match ?m st with _ => _ end = _ =>
        destruct (m st) as [[v|e] st1]; try discriminate
    end.
    refine (IH _ _ _ _ _ Hrun). now apply assign_keeps.
Qed.

Lemma forEachParameter_present param params :
  In param params ->
  ownKey (param_name param) ->
  forall parameters st parameters' st',
    each params parameters st = (Return parameters', st') ->
    obj_get parameters' (param_name param) <> None.
Proof.
  intros Hin Hown.
  induction params as [|q rest IH]; intros ps st ps' st' Hrun;
    [contradiction|].
  rewrite forEachParameter_cons in Hrun.
  match type of Hrun with
  | match ?m st with _ => _ end = _ =>
      destruct (m st) as [[v|e] st1]; try discriminate
  end.
  destruct Hin as [->|Hin].
  - refine (forEachParameter_keeps _ _ _ _ _ _ _ Hrun).
    rewrite (assign_own _ _ _ Hown), obj_get_set_same. discriminate.
  - now apply (IH Hin _ _ _ _ Hrun).
Qed.

Lemma forEachParameter_registered param typeName registered params :
  NoDup (map param_name params) ->
  In param params ->
  ownKey (param_name param) ->
  param_typeText param = Some typeName ->
  registryStructure typeRegistry typeName = Some registered ->
  forall parameters st parameters' st',
    each params parameters st = (Return parameters', st') ->
    obj_get parameters' (param_name param) = Some registered.
Proof.
  intros Hnodup Hin Hown Htext Hreg.
  induction params as [|q rest IH]; intros ps st ps' st' Hrun; [contradiction|].
  inversion Hnodup as [|x l Hnotin Hnodup' E]; subst.
  rewrite forEachParameter_cons in Hrun.
  destruct Hin as [->|Hin].
  - rewrite Htext, Hreg in Hrun. unfold ret in Hrun.
    rewrite (forEachParameter_other_names (param_name param) rest) with
      (parameters := assign ps (param_name param) registered)
      (st := st) (st' := st');
      [rewrite (assign_own _ _ _ Hown); apply obj_get_set_same| |assumption].
    intros q Hq Heq. apply Hnotin. rewrite <- Heq. now apply in_map.
  - match type of Hrun with
    | match ?m st with _ => _ end = _ =>
        destruct (m st) as [[v|e] st1]; try discriminate
    end.
    now apply (IH Hnodup' Hin _ _ _ _ Hrun).
Qed.
End ParameterLoop.

(** X9.  Unions being flat and the stack having room for two calls, the
    loop over the parameters of a function returns the object
    [parameters], and in it every parameter has its key (one named
    [__proto__] is set aside, see [ownKey]).  Names being distinct,
    a parameter whose type annotation is, as a text, the name of an
    entry of the registry holds the structure of that entry; and one
    whose annotation is no such name but a name that every object
    inherits ([valueOf], [toString], [constructor]...) holds
    [undefined], for the look-up in the registry finds the inherited
    member: a key that [JSON.stringify] then leaves out. *)
Theorem parameters_follow_the_declaration
    typeChecker random fuel typeDefinitions typeRegistry params st :
  flatUnions typeChecker ->
  2 <= fuel ->
  exists parameters st',
    forEachParameter typeChecker random fuel typeDefinitions typeRegistry
      params [] st = (Return parameters, st')
    /\ forall param,
         In param params ->
         ownKey (param_name param) ->
         obj_get parameters (param_name param) <> None
         /\ (NoDup (map param_name params) ->
             forall typeName,
               param_typeText param = Some typeName ->
               (forall entry,
                  obj_get typeRegistry typeName = Some entry ->
                  obj_get parameters (param_name param)
                  = Some (structure entry))
               /\ (obj_get typeRegistry typeName = None ->
                   obj_get typeRegistry "__proto__" = None ->
                   In typeName objectPrototypeKeys ->
                   obj_get parameters (param_name param) = Some JUndefined)).
Proof.
  intros Hflat Hroom.
  destruct (forEachParameter_returns typeChecker random fuel Hflat Hroom
              typeDefinitions typeRegistry params [] st)
    as [parameters [st' Hrun]].
  exists parameters, st'. split; [assumption|].
  intros param Hin Hown. split.
  - now apply (forEachParameter_present _ _ _ _ _ param params Hin Hown
                 _ _ _ _ Hrun).
  - intros Hnodup typeName Htext. split.
    + intros entry Hentry.
      apply (forEachParameter_registered typeChecker random fuel
               typeDefinitions typeRegistry param typeName
               (structure entry) params Hnodup Hin Hown Htext)
        with (parameters := @nil (string * SchemaValue)) (st := st) (st' := st');
        [|assumption].
      unfold registryStructure. now rewrite Hentry.
    + intros Hnone Hproto Hinherited.
      apply (forEachParameter_registered typeChecker random fuel
               typeDefinitions typeRegistry param typeName
               JUndefined params Hnodup Hin Hown Htext)
        with (parameters := @nil (string * SchemaValue)) (st := st) (st' := st');
        [|assumption].
      unfold registryStructure. rewrite Hnone, Hproto.
      assert (Hhas : existsb (String.eqb typeName) objectPrototypeKeys = true).
      { apply existsb_exists. exists typeName.
        split; [assumption|apply String.eqb_refl]. }
      now rewrite Hhas.
Qed.

Lemma parameters_follow_the_declaration_witness :
  exists parameters st',
    forEachParameter SampleActions.userChecker Sample.noRandom 8 []
      SampleActions.userRegistry SampleActions.userParameters [] initialState
    = (Return parameters, st')
    /\ obj_get parameters "user" = Some (JObject [("id", JString "number")])
    /\ obj_get parameters "when" = Some JUndefined
    /\ obj_get parameters "note" <> None.
Proof.
  destruct (parameters_follow_the_declaration SampleActions.userChecker
              Sample.noRandom 8 [] SampleActions.userRegistry
              SampleActions.userParameters initialState)
    as (parameters & st' & Hrun & Hkeys).
  - exact userChecker_flat.
  - lia.
  - exists parameters, st'. split; [exact Hrun|].
    assert (Hnodup : NoDup (map param_name SampleActions.userParameters))
      by (repeat constructor; simpl; intuition discriminate).
    destruct (Hkeys {| param_name := "user"; param_typeText := Some "User";
                       param_type := 0 |}) as [_ Huser];
      [simpl; auto|discriminate|].
    destruct (Hkeys {| param_name := "when"; param_typeText := Some "valueOf";
                       param_type := 4 |}) as [_ Hwhen];
      [simpl; auto|discriminate|].
    destruct (Hkeys {| param_name := "note"; param_typeText := None;
                       param_type := 4 |}) as [Hnote _];
      [simpl; auto|discriminate|].
    split; [|split].
    + apply (proj1 (Huser Hnodup "User" eq_refl)
               {| structure := JObject [("id", JString "number")];
                  file := "/app/src/users.ts" |}).
      reflexivity.
    + apply (proj2 (Hwhen Hnodup "valueOf" eq_refl)); try reflexivity.
      simpl. auto 12.
    + exact Hnote.
Defined.

(** X10.  A property whose name begins with two underscores, or whose
    type has call signatures, leaves no key in the object built, names
    being distinct; this holds whatever the descents into the other
    properties do. *)
Theorem internal_and_method_properties_are_left_out
    typeChecker recurse visited properties st s st' prop :
  propertyLoop typeChecker recurse visited properties [] st = (Return s, st') ->
  NoDup (map getName properties) ->
  In prop properties ->
  JsString.startsWith (getName prop) "__" = true
  \/ likelyMethod typeChecker prop = Ok true ->
  obj_get s (getName prop) = None.
Proof.
  intros Hrun Hnodup Hin Hskip.
  assert (Hfate : propFate typeChecker prop = Skipped).
  { unfold propFate. destruct Hskip as [-> | Hm]; [reflexivity|].
    destruct (JsString.startsWith _ _); [reflexivity|]. now rewrite Hm. }
  apply (propertyLoop_absent typeChecker recurse visited (getName prop)
           properties) with (structure := @nil (string * SchemaValue))
                            (st := st) (st' := st');
    [|reflexivity|assumption].
  intros q t Hq Hname Hq'.
  rewrite (NoDup_map_same getName properties prop q Hnodup Hin Hq Hname) in Hq'.
  congruence.
Qed.

Lemma internal_and_method_properties_are_left_out_witness :
  obj_get (@nil (string * SchemaValue)) "valueOf" = None.
Proof.
  apply (internal_and_method_properties_are_left_out SampleTypes.trueChecker
           (serializeType SampleTypes.trueChecker Sample.noRandom [] 3)
           [IdNum 1] [Sample.field "valueOf" 1] initialState [] initialState
           (Sample.field "valueOf" 1)).
  - reflexivity.
  - repeat constructor. simpl. tauto.
  - simpl. auto.
  - right. reflexivity.
Defined.

(* ================================================================== *)
(** ** Relations between the state before and after a call *)
(* ================================================================== *)

Section Preserved.
Variable R : State -> State -> Prop.
Hypothesis R_refl : forall st, R st st.
Hypothesis R_trans : forall st1 st2 st3, R st1 st2 -> R st2 st3 -> R st1 st3.
Hypothesis R_warn : forall w st, R st (addWarning w st).

Lemma preserves_ret {A} (a : A) : preserves R (ret a).
Proof. intros st. apply R_refl. Qed.

Lemma preserves_call {A} (r : Res A) : preserves R (call r).
Proof. intros st. destruct r; apply R_refl. Qed.

Lemma preserves_bind {A B} (m : M A) (k : A -> M B) :
  preserves R m -> (forall a, preserves R (k a)) -> preserves R (bind m k).
Proof.
  intros Hm Hk st. unfold bind. specialize (Hm st).
  destruct (m st) as [[a|e] st']; cbn [snd] in *; auto.
  eapply R_trans; [exact Hm|apply Hk].
Qed.

Lemma preserves_try_catch {A} (body : M A) (handler : string -> M A) :
  preserves R body -> (forall e, preserves R (handler e)) ->
  preserves R (try_catch body handler).
Proof.
  intros Hb Hh st. unfold try_catch. specialize (Hb st).
  destruct (body st) as [[a|e] st']; cbn [snd] in *; auto.
  eapply R_trans; [exact Hb|apply Hh].
Qed.

Variable typeChecker : handle -> TsType.
Variable typeDefinitions : list TypeInfo.
Hypothesis R_processed :
  forall type typeInfo st,
    namedEntry typeDefinitions type = Some typeInfo ->
    R st (addProcessed (symbolName type) st).

Section OneLevel.
Variable recurse : option handle -> list Ident -> M SchemaValue.
Variable visited : list Ident.
Hypothesis recurse_preserves : forall t, preserves R (recurse t visited).

Lemma propertyLoop_preserves properties :
  forall structure,
    preserves R (propertyLoop typeChecker recurse visited properties structure).
Proof.
  induction properties as [|prop rest IH]; intros structure.
  - apply preserves_ret.
  - cbn [propertyLoop]. apply preserves_bind; [|intros s; apply IH].
    unfold propertyStep. apply preserves_try_catch.
    + destruct (JsString.startsWith _ _); [apply preserves_ret|].
      apply preserves_bind;
        [rewrite isLikelyMethod_call; apply preserves_call|].
      intros [|]; [apply preserves_ret|].
      apply preserves_bind; [apply preserves_call|]. intros t.
      apply preserves_bind; [apply recurse_preserves|]. intros v.
      apply preserves_ret.
    + intros e. apply preserves_bind; [intros st; apply R_warn|].
      intros _. apply preserves_ret.
Qed.

Lemma serializeUnvisited_preserves type :
  preserves R (serializeUnvisited typeChecker typeDefinitions recurse visited type).
Proof.
  assert (Hstructural :
            preserves R (serializeStructural typeChecker recurse visited type)).
  { unfold serializeStructural. destruct (isUnion type).
    - unfold serializeUnion.
      destruct (forallb _ _); [apply preserves_ret|].
      destruct (_ && _); [apply preserves_ret|].
      destruct (find _ _); [apply recurse_preserves|apply preserves_ret].
    - destruct (isArrayType type).
      + unfold serializeArray. apply preserves_try_catch.
        * apply preserves_bind; [apply preserves_call|]. intros args.
          apply preserves_bind; [apply recurse_preserves|]. intros v.
          apply preserves_ret.
        * intros e. apply preserves_bind; [intros st; apply R_warn|].
          intros _. apply preserves_ret.
      + destruct (getProperties type) as [[|prop rest]|];
          try apply preserves_ret.
        apply preserves_bind; [apply propertyLoop_preserves|].
        intros s. apply preserves_ret. }
  unfold serializeUnvisited.
  destruct (primitiveTag _); [apply preserves_ret|].
  destruct (literalOf _); [apply preserves_ret|].
  unfold serializeNamed.
  destruct (namedEntry typeDefinitions type) as [typeInfo|] eqn:Hnamed;
    [|assumption].
  apply preserves_bind; [intros st; apply R_refl|].
  intros [|]; [assumption|].
  apply preserves_bind; [intros st; now apply (R_processed type typeInfo)|].
  intros _. destruct (getProperties _) as [props|]; [|assumption].
  apply preserves_bind; [apply propertyLoop_preserves|].
  intros s. apply preserves_ret.
Qed.
End OneLevel.

Variable random : nat -> string.
Hypothesis R_random :
  forall h st, stableId (typeChecker h) = None -> R st (countRandom st).

Lemma serializeType_preserves fuel :
  forall type visited,
    preserves R (serializeType typeChecker random typeDefinitions fuel type visited).
Proof.
  induction fuel as [|fuel IH]; intros type visited st.
  - apply R_refl.
  - destruct type as [h|]; [|apply R_refl].
    rewrite serializeType_step.
    destruct (stableId (typeChecker h)) as [n|] eqn:Hid; cbv zeta.
    + destruct (visited_has visited _); [apply R_refl|].
      apply serializeUnvisited_preserves. intros t. apply IH.
    + destruct (visited_has visited _); [now apply (R_random h)|].
      eapply R_trans; [now apply (R_random h)|].
      apply serializeUnvisited_preserves. intros t. apply IH.
Qed.
End Preserved.

Lemma namedEntry_registered typeDefinitions type typeInfo :
  namedEntry typeDefinitions type = Some typeInfo ->
  registeredName typeDefinitions (symbolName type).
Proof.
  unfold namedEntry. intros H.
  destruct (JsString.truthy _ && negb (isBuiltInType (symbolName type)))
    eqn:Hcond; [|discriminate].
  apply andb_prop in Hcond as [_ Hbuilt]. apply negb_true_iff in Hbuilt.
  apply find_some in H as [Hin Hname].
  apply andb_prop in Hname as [Hname _]. apply String.eqb_eq in Hname.
  split; [assumption|]. exists typeInfo. auto.
Qed.

(** X11.  The only names that [serializeType] adds to the set of
    processed names are names under which a type definition is
    registered and that are not names of built-in types.  A type called
    [Array], [Map], [Date] and the like is never marked as processed,
    even when the project exports a type of that name. *)
Theorem only_registered_names_are_processed
    typeChecker random typeDefinitions fuel type visited st typeName :
  In typeName
    (processedTypes
       (snd (serializeType typeChecker random typeDefinitions fuel type
               visited st))) ->
  In typeName (processedTypes st) \/ registeredName typeDefinitions typeName.
Proof.
  revert typeName.
  apply (serializeType_preserves (processesRegistered typeDefinitions)).
  - intros st0 n Hn. now left.
  - intros st1 st2 st3 H12 H23 n Hn.
    destruct (H23 n Hn) as [H|H]; [now apply H12|now right].
  - intros w st0 n Hn. now left.
  - intros t typeInfo st0 Hnamed n Hn. cbn [addProcessed processedTypes] in Hn.
    destruct (existsb _ _); [now left|].
    apply in_app_or in Hn as [Hn|[<-|[]]]; [now left|right].
    now apply (namedEntry_registered _ _ typeInfo).
  - intros h st0 _ n Hn. now left.
Qed.

Lemma only_registered_names_are_processed_witness :
  ~ In "Map"
      (processedTypes
         (snd (serializeType SampleBuiltIn.mapChecker Sample.noRandom
                 SampleBuiltIn.mapDefinitions 4 (Some 0) [] initialState))).
Proof.
  intros H.
  destruct (only_registered_names_are_processed SampleBuiltIn.mapChecker
              Sample.noRandom SampleBuiltIn.mapDefinitions 4 (Some 0) []
              initialState "Map" H) as [[]|[Hbuilt _]].
  discriminate Hbuilt.
Defined.

(** X12.  On a type graph in which every type object has an identity of
    its own, [serializeType] never calls [Math.random]. *)
Theorem stable_identities_need_no_random
    typeChecker random typeDefinitions fuel type visited st :
  allStable typeChecker ->
  randomCalls (snd (serializeType typeChecker random typeDefinitions fuel type
                      visited st))
  = randomCalls st.
Proof.
  intros Hstable.
  apply (serializeType_preserves drawsNothing); unfold drawsNothing.
  - reflexivity.
  - intros st1 st2 st3 H12 H23. congruence.
  - reflexivity.
  - reflexivity.
  - intros h st0 Hid. now destruct (Hstable h).
Qed.

Lemma stable_identities_need_no_random_witness :
  randomCalls (snd (serializeType Sample.nodeChecker SampleLoop.freshToken
                      Sample.nodeDefinitions 4 (Some 0) [] initialState))
  = 0.
Proof.
  apply (stable_identities_need_no_random Sample.nodeChecker
           SampleLoop.freshToken Sample.nodeDefinitions 4 (Some 0) []
           initialState).
  intros [|h]; simpl; discriminate.
Defined.

(** X13.  [serializeType] only adds to the state: no warning leaves the
    console, no name leaves the set of processed names, and the count
    of calls of [Math.random] does not go down. *)
Theorem serialize_only_adds_to_the_state
    typeChecker random typeDefinitions fuel type visited st :
  let st' := snd (serializeType typeChecker random typeDefinitions fuel type
                    visited st) in
  incl (warnings st) (warnings st')
  /\ incl (processedTypes st) (processedTypes st')
  /\ randomCalls st <= randomCalls st'.
Proof.
  cbv zeta.
  apply (serializeType_preserves
           (fun a b => incl (warnings a) (warnings b)
                       /\ incl (processedTypes a) (processedTypes b)
                       /\ randomCalls a <= randomCalls b)).
  - intros st0. repeat split; try apply incl_refl. lia.
  - intros st1 st2 st3 (A1 & B1 & C1) (A2 & B2 & C2).
    repeat split; try (eapply incl_tran; eauto). lia.
  - intros w st0. repeat split; cbn; try apply incl_refl; try lia.
    apply incl_appl, incl_refl.
  - intros t typeInfo st0 _. repeat split; cbn; try apply incl_refl; try lia.
    destruct (existsb _ _); [apply incl_refl|apply incl_appl, incl_refl].
  - intros h st0 _. repeat split; cbn; try apply incl_refl. lia.
Qed.

(* ================================================================== *)
(** ** Arrays *)
(* ================================================================== *)

Lemma serializeUnvisited_array typeChecker typeDefinitions recurse visited
    type typeArguments st :
  reachesArrayBlock typeDefinitions type ->
  getTypeArguments type = Ok typeArguments ->
  serializeUnvisited typeChecker typeDefinitions recurse visited type st =
  match recurse (hd_error typeArguments) visited st with
  | (Return items, st') => (Return (arrayOf items), st')
  | (Throw e, st') => (Return (arrayOf any), addWarning (WarnArray e) st')
  end.
Proof.
  intros (Hprim & Hlit & Hnamed & Hunion & Harray) Hargs.
  unfold serializeUnvisited, serializeNamed, serializeStructural.
  rewrite Hprim, Hlit, Hnamed, Hunion, Harray.
  unfold serializeArray, try_catch, bind, call, ret, console_warn.
  rewrite Hargs.
  destruct (recurse (hd_error typeArguments) visited st) as [[v|e] st'];
    reflexivity.
Qed.

(** X14.  Array types nested in one another around an element type with
    a primitive flag, all with identities of their own that are not on
    the path: the outermost is serialised to as many nested array
    descriptors around the tag of the element, and the state is left as
    it was. *)
Theorem nested_arrays_of_a_primitive
    typeChecker random typeDefinitions arrays element tag :
  arrayChain typeChecker typeDefinitions arrays element ->
  primitiveTag (ty_flags (typeChecker element)) = Some tag ->
  forall ids fuel visited st,
    Forall2 (fun h n => stableId (typeChecker h) = Some n)
      (arrays ++ [element]) ids ->
    NoDup ids ->
    Forall (fun n => visited_has visited (IdNum n) = false) ids ->
    List.length arrays < fuel ->
    serializeType typeChecker random typeDefinitions fuel
      (Some (hd element arrays)) visited st
    = (Return (nestedArray (List.length arrays) (JString tag)), st).
Proof.
  intros Hchain Htag.
  induction arrays as [|h rest IH]; intros ids fuel visited st Hids Hnd Hvis Hfuel.
  - destruct fuel as [|fuel]; [cbn in Hfuel; lia|].
    cbn [hd app] in *. inversion Hids as [|x n l l' Hid Hrest]; subst.
    inversion Hvis as [|y m Hn _]; subst.
    rewrite serializeType_step, Hid, Hn.
    unfold serializeUnvisited. now rewrite Htag.
  - destruct fuel as [|fuel]; [cbn in Hfuel; lia|].
    cbn [hd app List.length nestedArray] in *.
    destruct Hchain as (Hblock & (args & Hargs & Hnext) & Hchain).
    inversion Hids as [|x n l ids' Hid Hrest]; subst.
    inversion Hvis as [|y m Hn Hvis']; subst.
    inversion Hnd as [|z k Hnotin Hnd']; subst.
    rewrite serializeType_step, Hid, Hn.
    rewrite (serializeUnvisited_array _ _ _ _ _ args _ Hblock Hargs), Hnext.
    rewrite (IH Hchain ids' fuel (IdNum n :: visited) st Hrest Hnd');
      [reflexivity| |lia].
    apply Forall_forall. intros m Hm. rewrite visited_has_cons.
    rewrite Forall_forall in Hvis'. rewrite (Hvis' m Hm). cbn [Ident_eqb].
    destruct (Nat.eqb_spec m n) as [->|Hne]; [contradiction|reflexivity].
Qed.

Lemma nested_arrays_of_a_primitive_witness :
  serializeType SampleArrays.matrixChecker Sample.noRandom [] 3 (Some 0) []
    initialState
  = (Return (arrayOf (arrayOf (JString "number"))), initialState).
Proof.
  apply (nested_arrays_of_a_primitive SampleArrays.matrixChecker
           Sample.noRandom [] [0; 1] 2 "number") with (ids := [1; 2; 3]).
  - repeat split; try reflexivity; eexists; split; reflexivity.
  - reflexivity.
  - repeat constructor.
  - repeat constructor; simpl; intuition discriminate.
  - repeat constructor.
  - simpl. lia.
Defined.

(* ================================================================== *)
(** ** The description of an action, continued *)
(* ================================================================== *)

Lemma trimStart_step s :
  JsString.trimStart s =
  match JsString.whiteSpaceAt s with
  | 0 => s
  | S n => JsString.trimStart (JsString.drop (S n) s)
  end.
Proof.
  destruct s as [|c1 [|c2 [|c3 r]]]; cbn [JsString.trimStart JsString.whiteSpaceAt];
    try reflexivity.
  - destruct (JsString.isWhiteSpace c1); reflexivity.
  - destruct (JsString.isWhiteSpace c1); [reflexivity|].
    destruct (JsString.isWhiteSpace2 c1 c2); reflexivity.
  - destruct (JsString.isWhiteSpace c1); [reflexivity|].
    destruct (JsString.isWhiteSpace2 c1 c2); [reflexivity|].
    destruct (JsString.isWhiteSpace3 c1 c2 c3); reflexivity.
Qed.

Lemma whiteSpaceAt_length s : JsString.whiteSpaceAt s <= String.length s.
Proof.
  destruct s as [|c1 [|c2 [|c3 r]]]; cbn [JsString.whiteSpaceAt String.length];
    repeat match goal with
           | |- context [if ?b then _ else _] => destruct b
           end; lia.
Qed.

Lemma drop_length n s : String.length (JsString.drop n s) = String.length s - n.
Proof.
  revert s. induction n as [|n IH]; intros [|c s]; cbn [JsString.drop String.length];
    try lia. rewrite IH. lia.
Qed.

Lemma drop_app x w : JsString.drop (String.length x) (x ++ w) = w.
Proof. induction x as [|c x IH]; [now destruct w|exact IH]. Qed.

Lemma trimStart_fixed s :
  JsString.whiteSpaceAt s = 0 -> JsString.trimStart s = s.
Proof. intros H. now rewrite trimStart_step, H. Qed.

Lemma trimStart_clean s : JsString.whiteSpaceAt (JsString.trimStart s) = 0.
Proof.
  assert (H : forall n s, String.length s <= n ->
                          JsString.whiteSpaceAt (JsString.trimStart s) = 0).
  { clear s. induction n as [|n IH]; intros s Hlen.
    - destruct s; [reflexivity|simpl in Hlen; lia].
    - rewrite trimStart_step.
      destruct (JsString.whiteSpaceAt s) as [|k] eqn:Hk; [assumption|].
      apply IH. rewrite drop_length.
      pose proof (whiteSpaceAt_length s). lia. }
  apply (H (String.length s)). lia.
Qed.

(** The white space character at the start of a text is told by the
    bytes of that character alone. *)
Lemma whiteSpaceAt_app x w :
  JsString.whiteSpaceAt x <> 0 ->
  JsString.whiteSpaceAt (x ++ w) = JsString.whiteSpaceAt x.
Proof.
  destruct x as [|c1 [|c2 [|c3 r]]]; cbn [JsString.whiteSpaceAt append];
    try congruence.
  - destruct (JsString.isWhiteSpace c1); congruence.
  - destruct (JsString.isWhiteSpace c1); [reflexivity|].
    destruct (JsString.isWhiteSpace2 c1 c2); congruence.
Qed.

Lemma isWhiteSpaceCharacter_spec x :
  isWhiteSpaceCharacter x = true ->
  JsString.whiteSpaceAt x <> 0 /\ JsString.whiteSpaceAt x = String.length x.
Proof.
  unfold isWhiteSpaceCharacter, startsWithWhiteSpace. intros H.
  apply andb_prop in H as [Hstart Hlen].
  apply negb_true_iff, Nat.eqb_neq in Hstart.
  apply Nat.eqb_eq in Hlen. auto.
Qed.

Lemma trimStart_character x w :
  isWhiteSpaceCharacter x = true ->
  JsString.trimStart (x ++ w) = JsString.trimStart w.
Proof.
  intros H. apply isWhiteSpaceCharacter_spec in H as [Hne Hlen].
  rewrite trimStart_step, (whiteSpaceAt_app x w Hne).
  destruct (JsString.whiteSpaceAt x) as [|k] eqn:Hk; [congruence|].
  now rewrite Hlen, drop_app.
Qed.

Lemma trimEnd_unfold s :
  JsString.trimEnd s =
  if JsString.isBlank s then EmptyString
  else match s with
       | EmptyString => EmptyString
       | String c rest => String c (JsString.trimEnd rest)
       end.
Proof. destruct s; reflexivity. Qed.

Lemma isBlank_spec s :
  JsString.isBlank s = true <-> JsString.trimStart s = EmptyString.
Proof.
  unfold JsString.isBlank. destruct (JsString.trimStart s);
    split; congruence.
Qed.

(** What [trimEnd] cuts off is white space from end to end. *)
Lemma trimEnd_cut s :
  exists w, s = (JsString.trimEnd s ++ w)%string /\ JsString.isBlank w = true.
Proof.
  induction s as [|c rest IH]; [exists EmptyString; auto|].
  rewrite trimEnd_unfold.
  destruct (JsString.isBlank (String c rest)) eqn:Hblank.
  - exists (String c rest). auto.
  - destruct IH as [w [Hrest Hw]]. exists w. split; [|assumption].
    cbn [append]. now rewrite <- Hrest.
Qed.

Lemma trimEnd_clean s : endsWithWhiteSpace (JsString.trimEnd s) = false.
Proof.
  induction s as [|c rest IH]; [reflexivity|].
  rewrite trimEnd_unfold.
  destruct (JsString.isBlank (String c rest)) eqn:Hblank; [reflexivity|].
  cbn [endsWithWhiteSpace]. rewrite IH, orb_false_r.
  destruct (isWhiteSpaceCharacter (String c (JsString.trimEnd rest)))
    eqn:Hchar; [|reflexivity].
  destruct (trimEnd_cut rest) as [w [Hrest Hw]].
  apply isBlank_spec in Hw.
  assert (Hall : JsString.isBlank (String c rest) = true).
  { apply isBlank_spec. rewrite Hrest.
    change (String c (JsString.trimEnd rest ++ w))
      with (String c (JsString.trimEnd rest) ++ w)%string.
    now rewrite (trimStart_character _ w Hchar). }
  congruence.
Qed.

Lemma endsWithWhiteSpace_drop n :
  forall s,
    endsWithWhiteSpace (JsString.drop n s) = true ->
    endsWithWhiteSpace s = true.
Proof.
  induction n as [|n IH]; intros s H; [now destruct s|].
  destruct s as [|c s]; [assumption|].
  cbn [JsString.drop] in H. cbn [endsWithWhiteSpace].
  rewrite (IH s H). apply orb_true_r.
Qed.

(** A text that is white space from end to end, and not empty, ends
    with a white space character. *)
Lemma isBlank_ends s :
  s <> EmptyString ->
  JsString.isBlank s = true -> endsWithWhiteSpace s = true.
Proof.
  assert (H : forall n s, String.length s <= n -> s <> EmptyString ->
                          JsString.trimStart s = EmptyString ->
                          endsWithWhiteSpace s = true).
  { clear s. induction n as [|n IH]; intros s Hlen Hne Hblank.
    - destruct s; [congruence|simpl in Hlen; lia].
    - rewrite trimStart_step in Hblank.
      destruct (JsString.whiteSpaceAt s) as [|k] eqn:Hk; [congruence|].
      pose proof (whiteSpaceAt_length s) as Hle.
      destruct (JsString.drop (S k) s) as [|d r] eqn:Hdrop.
      + assert (Hlen' : String.length s = S k).
        { pose proof (drop_length (S k) s) as Hd. rewrite Hdrop in Hd.
          simpl in Hd. lia. }
        destruct s as [|c s]; [congruence|]. cbn [endsWithWhiteSpace].
        unfold isWhiteSpaceCharacter, startsWithWhiteSpace.
        rewrite Hk, Hlen', Nat.eqb_refl. reflexivity.
      + apply (endsWithWhiteSpace_drop (S k)). rewrite Hdrop in *.
        apply IH; [|discriminate|assumption].
        pose proof (drop_length (S k) s) as Hd. rewrite Hdrop in Hd. lia. }
  intros Hne Hblank. apply (H (String.length s)); [lia|assumption|].
  now apply isBlank_spec.
Qed.

Lemma trimEnd_fixed s :
  endsWithWhiteSpace s = false -> JsString.trimEnd s = s.
Proof.
  induction s as [|c rest IH]; [reflexivity|]. intros Hends.
  rewrite trimEnd_unfold.
  destruct (JsString.isBlank (String c rest)) eqn:Hblank.
  - apply isBlank_ends in Hblank; [congruence|discriminate].
  - cbn [endsWithWhiteSpace] in Hends. apply orb_false_elim in Hends as [_ Hrest].
    now rewrite (IH Hrest).
Qed.

Lemma trimEnd_start s :
  JsString.whiteSpaceAt s = 0 ->
  JsString.whiteSpaceAt (JsString.trimEnd s) = 0.
Proof.
  intros Hs. destruct (trimEnd_cut s) as [w [Hcut _]].
  destruct (Nat.eq_dec (JsString.whiteSpaceAt (JsString.trimEnd s)) 0)
    as [H0|Hne]; [assumption|].
  pose proof (whiteSpaceAt_app _ w Hne) as Happ.
  rewrite <- Hcut in Happ. congruence.
Qed.

Lemma trim_is_trimmed s :
  startsWithWhiteSpace (JsString.trim s) = false
  /\ endsWithWhiteSpace (JsString.trim s) = false
  /\ JsString.trim (JsString.trim s) = JsString.trim s.
Proof.
  unfold JsString.trim.
  set (t := JsString.trimEnd (JsString.trimStart s)).
  assert (Hstart : JsString.whiteSpaceAt t = 0)
    by (apply trimEnd_start, trimStart_clean).
  assert (Hend : endsWithWhiteSpace t = false) by apply trimEnd_clean.
  split; [unfold startsWithWhiteSpace; now rewrite Hstart|].
  split; [assumption|].
  rewrite (trimStart_fixed t Hstart). now apply trimEnd_fixed.
Qed.

(** The characters of the list are those that [trim] takes for white
    space. *)
Lemma whiteSpaceCharacters_known :
  Forall (fun w => isWhiteSpaceCharacter w = true) whiteSpaceCharacters.
Proof. vm_compute. repeat constructor. Qed.

Lemma matchesAt_prefix p s :
  JsString.matchesAt p s = true -> exists rest, s = (p ++ rest)%string.
Proof.
  revert s. induction p as [|a p IH]; intros s H; [now exists s|].
  destruct s as [|b s]; [discriminate|]. cbn [JsString.matchesAt] in H.
  apply andb_prop in H as [Hab Hps]. apply Ascii.eqb_eq in Hab. subst b.
  destruct (IH s Hps) as [rest ->]. now exists rest.
Qed.

Lemma startsWith_whiteSpace s w :
  isWhiteSpaceCharacter w = true ->
  JsString.startsWith s w = true -> startsWithWhiteSpace s = true.
Proof.
  intros Hw Hstarts. apply matchesAt_prefix in Hstarts as [rest ->].
  apply isWhiteSpaceCharacter_spec in Hw as [Hne _].
  unfold startsWithWhiteSpace. rewrite (whiteSpaceAt_app w rest Hne).
  now apply negb_true_iff, Nat.eqb_neq.
Qed.

Lemma endsWith_whiteSpace s w :
  isWhiteSpaceCharacter w = true ->
  endsWith s w = true -> endsWithWhiteSpace s = true.
Proof.
  intros Hw. induction s as [|c s IH]; cbn [endsWith endsWithWhiteSpace].
  - rewrite orb_false_r. intros H. apply String.eqb_eq in H. subst w.
    now rewrite Hw.
  - intros H. apply orb_true_iff in H as [H|H].
    + apply String.eqb_eq in H. subst w. now rewrite Hw.
    + rewrite (IH H). apply orb_true_r.
Qed.

(** X15.  The description made from a comment neither begins nor ends
    with a character that [String.prototype.trim] strips, be it one of
    ASCII or one of the others (the no-break space, the line separator
    and the rest), and trimming it again changes nothing. *)
Theorem description_is_trimmed commentText :
  Forall (fun w =>
            JsString.startsWith (descriptionOf commentText) w = false
            /\ endsWith (descriptionOf commentText) w = false)
    whiteSpaceCharacters
  /\ JsString.trim (descriptionOf commentText) = descriptionOf commentText.
Proof.
  unfold descriptionOf.
  destruct (trim_is_trimmed
              (JsString.removeDelimiters
                 (JsString.removeFirst marker commentText)))
    as (Hstart & Hend & Hfixed).
  split; [|assumption].
  apply Forall_forall. intros w Hin.
  pose proof (proj1 (Forall_forall _ _) whiteSpaceCharacters_known w Hin) as Hw.
  split.
  - destruct (JsString.startsWith _ w) eqn:Hs; [|reflexivity].
    apply (startsWith_whiteSpace _ w Hw) in Hs. congruence.
  - destruct (endsWith _ w) eqn:He; [|reflexivity].
    apply (endsWith_whiteSpace _ w Hw) in He. congruence.
Qed.

(** A description between a no-break space and a line separator. *)
Example description_without_unicode_space :
  descriptionOf ("// @abra-action" ++ noBreakSpace ++ "run" ++ lineSeparator)
  = "run".
Proof. reflexivity. Qed.

Lemma noSlashStar_app a b :
  noSlashStar (a ++ b) = noSlashStar a && noSlashStar b.
Proof.
  induction a as [|c a IH]; cbn [append noSlashStar]; [reflexivity|].
  now rewrite IH, andb_assoc.
Qed.

Lemma noSlashStar_endsPlain s : noSlashStar s = true -> endsPlain s = true.
Proof.
  induction s as [|c s IH]; [reflexivity|].
  cbn [noSlashStar endsPlain]. intros H. apply andb_prop in H as [Hc Hs].
  destruct s; [assumption|now apply IH].
Qed.

Lemma removeDelimiters_plain s :
  noSlashStar s = true -> JsString.removeDelimiters s = s.
Proof.
  assert (H : forall n s, String.length s <= n -> noSlashStar s = true ->
                          JsString.removeDelimiters s = s).
  { clear s. induction n as [|n IH]; intros s Hlen Hplain.
    - destruct s; [reflexivity|simpl in Hlen; lia].
    - destruct s as [|c1 [|c2 s]]; try reflexivity.
      rewrite removeDelimiters_two.
      cbn [noSlashStar] in Hplain. apply andb_prop in Hplain as [H1 Hrest].
      destruct (JsString.isDelimiter c1 c2) eqn:Hd.
      + apply isDelimiter_chars in Hd as [Hd _]. rewrite Hd in H1. discriminate.
      + rewrite (IH (String c2 s)); [reflexivity|simpl in *; lia|exact Hrest]. }
  apply (H (String.length s)). lia.
Qed.

Lemma removeDelimiters_star_plain s :
  noSlashStar s = true ->
  JsString.removeDelimiters (String "*" s) = String "*" s.
Proof.
  intros Hplain. destruct s as [|c s]; [reflexivity|].
  rewrite removeDelimiters_two.
  destruct (JsString.isDelimiter "*" c) eqn:Hd.
  - cbn [noSlashStar] in Hplain. apply andb_prop in Hplain as [Hc _].
    apply isDelimiter_chars in Hd as [_ Hd]. rewrite Hd in Hc. discriminate.
  - now rewrite removeDelimiters_plain.
Qed.

(** X16.  A comment that consists of an opening delimiter, a text
    without the marker, the marker, a body and, for a block comment,
    the closing delimiter, the two texts having no slash and no star:
    a line comment and a block comment give the trimmed text around the
    marker; a comment opened by a slash and two stars gives it with the
    second star in front. *)
Theorem description_of_the_usual_comments lead body :
  noSlashStar lead = true ->
  noSlashStar body = true ->
  JsString.includes lead marker = false ->
  descriptionOf ("//" ++ lead ++ marker ++ body)
  = JsString.trim (lead ++ body)
  /\ descriptionOf ("/*" ++ lead ++ marker ++ body ++ "*/")
     = JsString.trim (lead ++ body)
  /\ descriptionOf ("/**" ++ lead ++ marker ++ body ++ "*/")
     = JsString.trim ("*" ++ lead ++ body).
Proof.
  intros Hlead Hbody Hmarker.
  assert (Hplain : noSlashStar (lead ++ body) = true)
    by (now rewrite noSlashStar_app, Hlead, Hbody).
  assert (Hpre2 : forall a b, JsString.includes
                    (String a (String b lead)) marker
                  = JsString.matchesAt marker (String a (String b lead))
                    || JsString.matchesAt marker (String b lead)
                    || JsString.includes lead marker)
    by (intros a b; cbn [JsString.includes]; now rewrite orb_assoc).
  unfold descriptionOf. repeat split.
  - change ("//" ++ lead ++ marker ++ body)%string
      with (("//" ++ lead) ++ marker ++ body)%string.
    rewrite removeFirst_marker.
    + change (("//" ++ lead) ++ body)%string with ("//" ++ (lead ++ body))%string.
      rewrite removeDelimiters_delimiter by (simpl; auto).
      now rewrite removeDelimiters_plain.
    + change ("//" ++ lead)%string with (String "/" (String "/" lead)).
      rewrite Hpre2, Hmarker. reflexivity.
  - change ("/*" ++ lead ++ marker ++ body ++ "*/")%string
      with (("/*" ++ lead) ++ marker ++ (body ++ "*/"))%string.
    rewrite removeFirst_marker.
    + change (("/*" ++ lead) ++ body ++ "*/")%string
        with ("/*" ++ (lead ++ body ++ "*/"))%string.
      rewrite removeDelimiters_delimiter by (simpl; auto).
      rewrite <- append_assoc3.
      rewrite removeDelimiters_app by now apply noSlashStar_endsPlain.
      rewrite removeDelimiters_plain by assumption.
      change (JsString.removeDelimiters "*/") with EmptyString.
      f_equal. clear. induction (lead ++ body)%string as [|c s IH];
        cbn [append]; congruence.
    + change ("/*" ++ lead)%string with (String "/" (String "*" lead)).
      rewrite Hpre2, Hmarker. reflexivity.
  - destruct (String.eqb_spec (lead ++ body) EmptyString) as [Hempty|Hne].
    { destruct lead; [|discriminate]. destruct body; [|discriminate].
      reflexivity. }
    change ("/**" ++ lead ++ marker ++ body ++ "*/")%string
      with (("/**" ++ lead) ++ marker ++ (body ++ "*/"))%string.
    rewrite removeFirst_marker.
    + change (("/**" ++ lead) ++ body ++ "*/")%string
        with ("/*" ++ (String "*" (lead ++ body ++ "*/")))%string.
      rewrite removeDelimiters_delimiter by (simpl; auto).
      rewrite <- append_assoc3.
      change (String "*" ((lead ++ body) ++ "*/"))%string
        with (String "*" (lead ++ body) ++ "*/")%string.
      rewrite removeDelimiters_app.
      * rewrite removeDelimiters_star_plain by assumption.
        change (JsString.removeDelimiters "*/") with EmptyString.
        f_equal. change ("*" ++ lead ++ body)%string
          with (String "*" (lead ++ body)).
        generalize (String "*" (lead ++ body)). clear.
        intros s. induction s as [|c s IH]; cbn [append]; congruence.
      * cbn [endsPlain]. destruct (lead ++ body)%string eqn:E;
          [congruence|]. now apply noSlashStar_endsPlain.
    + change ("/**" ++ lead)%string
        with (String "/" (String "*" (String "*" lead))).
      cbn [JsString.includes]. rewrite Hmarker. reflexivity.
Qed.

Lemma description_of_the_usual_comments_witness :
  descriptionOf "// @abra-action Create a user" = "Create a user"
  /\ descriptionOf "/* @abra-action Create a user */" = "Create a user"
  /\ descriptionOf "/** @abra-action Create a user */" = "*  Create a user".
Proof.
  destruct (description_of_the_usual_comments " " " Create a user ")
    as (_ & Hblock & Hdoc); try reflexivity.
  destruct (description_of_the_usual_comments " " " Create a user")
    as (Hline & _ & _); try reflexivity.
  split; [etransitivity; [exact Hline|reflexivity]|].
  split; (etransitivity; [eassumption|reflexivity]).
Defined.
